(** * SO-GAAL (pyod/models/so_gaal.py): a shallow embedding and its properties

    The development follows the Python module top to bottom:
    the two [nn.Module] classes [Generator] and [Discriminator], then the
    detector class [SO_GAAL] with [fit] and [decision_function].

    Tensors are lists of rows.  Scalars are kept abstract ([Scalar]): the
    program computes in IEEE floating point, and the only arithmetic laws
    assumed are ones that hold for floats as well as for exact numbers; two
    instances compute, one in exact rationals ([Sample]) and one in binary32
    ([Float32]).  The hidden width of the discriminator is computed by
    Python in binary64, and is modelled so.  What PyTorch provides as an
    opaque capability (random draws, the value of the binary cross-entropy,
    back-propagation followed by an SGD step) is an interface ([Rng],
    [Optim]); what the Python code itself decides (shapes, control flow,
    which optimiser is stepped, what is appended to the history, which
    exception is raised where) is modelled concretely.  *)

From Stdlib Require Import QArith Qabs Lqa SpecFloat.
From stdpp Require Import base option list gmap strings.
Close Scope Q_scope.

(* ================================================================== *)
(** ** Exceptions and results *)

(** The exceptions that the modelled calls can raise, named after the
    raising site. *)
Inductive exn : Type :=
  | NotFittedError
      (* sklearn.utils.validation.check_is_fitted *)
  | ValueError_check_array
      (* sklearn.utils.check_array: not 2-D, no sample, no feature, or a
         non-finite entry *)
  | RuntimeError_mat_shapes (got expected : nat)
      (* F.linear inside nn.Linear.forward: mat1 and mat2 shapes cannot
         be multiplied *)
  | ValueError_target_size (target input : nat * nat)
      (* F.binary_cross_entropy inside nn.BCELoss: target size different
         to the input size *)
  | RuntimeError_input_range
      (* the kernel of binary_cross_entropy: all elements of input should
         be between 0 and 1 *)
  | UnboundLocalError (name : string).
      (* a local variable read before any assignment *)

Inductive result (A : Type) : Type :=
  | Ok (a : A)
  | Err (e : exn).
Arguments Ok {A} a.
Arguments Err {A} e.

Definition is_ok {A} (r : result A) : bool :=
  match r with Ok _ => true | Err _ => false end.

Definition rbind {A B} (r : result A) (k : A -> result B) : result B :=
  match r with Ok a => k a | Err e => Err e end.

(* ================================================================== *)
(** ** Scalars *)

(** The element type of tensors, with the elementwise operations the
    module uses.  The four laws are facts of IEEE arithmetic on [0.0] and
    [1.0]; nothing else about numbers is assumed. *)
Class Scalar : Type := {
  num : Type;
  zero : num;
  one : num;
  add : num -> num -> num;
  mul : num -> num -> num;
  relu : num -> num;            (* F.relu, one element *)
  sigmoid : num -> num;         (* torch.sigmoid, one element *)
  isfinite : num -> bool;       (* np.isfinite, used by check_array *)
  float32 : num -> num;         (* conversion done by dtype=torch.float32 *)
  leb : num -> num -> bool;     (* x <= y; False when an operand is NaN *)
  ltb : num -> num -> bool;     (* x < y; False when an operand is NaN *)
  add_zero_zero : add zero zero = zero;
  mul_zero_zero : mul zero zero = zero;
  mul_zero_one : mul zero one = zero;
  relu_zero : relu zero = zero
}.

(* ================================================================== *)
(** ** Python numbers: [math.ceil(math.sqrt(n))]

    [math.sqrt] converts its argument to a C double and takes the IEEE
    square root, correctly rounded; [math.ceil] returns the ceiling of a
    finite double as an int.  Doubles are the binary64 numbers of
    [SpecFloat] ([prec = 53], [emax = 1024]). *)

(** [float(n)]: the double nearest to [n], ties to even. *)
Definition float_of_Z (n : Z) : spec_float :=
  binary_normalize 53 1024 n 0 false.

(** [math.ceil(x)], which raises on an infinity and on a NaN. *)
Definition math_ceil (x : spec_float) : option Z :=
  match x with
  | S754_zero _ => Some 0%Z
  | S754_finite s m e =>
      let v := if s then Zneg m else Zpos m in
      Some match e with
           | Zneg p => (- ((- v) / 2 ^ Zpos p))%Z
           | _ => (v * 2 ^ e)%Z
           end
  | _ => None
  end.

(** [math.ceil(math.sqrt(n))] for an int [n >= 0].  The program calls it
    on [X.shape[0]], which is below [2^63].  From about [2^1024] on, [n]
    does not convert to a double and Python raises [OverflowError]; the
    value is taken to be 1 there. *)
Definition ceil_sqrt_Z (n : Z) : Z :=
  match math_ceil (SFsqrt 53 1024 (float_of_Z n)) with
  | Some h => h
  | None => 1%Z
  end.

Definition ceil_sqrt (n : nat) : nat := Z.to_nat (ceil_sqrt_Z (Z.of_nat n)).

(* ================================================================== *)
(** ** Tensors and [nn.Linear] *)

(** A 2-D tensor is the list of its rows. *)
Abbreviation matrix := (list (list num)).

Section Tensors.
Context `{!Scalar}.

(** [tensor.size()] of a 2-D tensor. *)
Definition size (m : matrix) : nat * nat :=
  (length m, match m with [] => 0 | r :: _ => length r end).

(** The lengths of the rows, in order. *)
Definition row_lengths (m : matrix) : list nat := map length m.

Definition torch_full (v : num) (r c : nat) : matrix := repeat (repeat v c) r.
Definition torch_ones : nat -> nat -> matrix := torch_full one.
Definition torch_zeros : nat -> nat -> matrix := torch_full zero.

(** [torch.tensor(X, dtype=torch.float32)] *)
Definition torch_tensor (X : matrix) : matrix := map (map float32) X.

(** [.detach().numpy().ravel()] *)
Definition ravel (m : matrix) : list num := concat m.

(** [nn.init.eye_]: fills an existing 2-D tensor with the identity,
    keeping its shape. *)
Definition eye_ (w : matrix) : matrix :=
  imap (fun i row => imap (fun j _ => if i =? j then one else zero) row) w.

(** One output feature of [x @ W.T]: the sum of the products, from the
    left, starting at [0]. *)
Definition dot (x w : list num) : num :=
  fold_left (fun s p => add s (mul p.1 p.2)) (combine x w) zero.

Record Linear : Type := { weight : matrix; bias : list num }.

(** [weight.shape[1]] *)
Definition in_features (l : Linear) : nat := (size (weight l)).2.

(** The shape of the parameters of a layer: what an in-place update
    cannot change. *)
Definition Linear_shape (l : Linear) : list nat * nat :=
  (row_lengths (weight l), length (bias l)).

(** [nn.Linear.forward], that is [F.linear(x, weight, bias)]: raises when
    the last dimension of [x] is not [in_features]. *)
Definition Linear_forward (l : Linear) (x : matrix) : result matrix :=
  if forallb (fun r => length r =? in_features l) x
  then Ok (map (fun r => zip_with add (map (dot r) (weight l)) (bias l)) x)
  else Err (RuntimeError_mat_shapes (size x).2 (in_features l)).

(** [sklearn.utils.check_array] with its defaults: the input is a
    rectangular 2-D array with at least one sample, at least one feature
    and only finite entries; it is returned as it is. *)
Definition check_array (X : matrix) : result matrix :=
  match X with
  | [] => Err ValueError_check_array
  | r :: _ =>
      if (0 <? length r)
         && forallb (fun r' => length r' =? length r) X
         && forallb (forallb isfinite) X
      then Ok X
      else Err ValueError_check_array
  end.

(** [torch.utils.data.BatchSampler] with [drop_last=False]: fill a batch
    up to [batch_size], yield it, and yield what is left at the end if
    it is not empty. *)
Fixpoint batch_sampler {A} (batch_size : nat) (batch : list A) (l : list A)
  : list (list A) :=
  match l with
  | [] => match batch with [] => [] | _ => [batch] end
  | x :: l' =>
      let batch' := batch ++ [x] in
      if length batch' =? batch_size
      then batch' :: batch_sampler batch_size [] l'
      else batch_sampler batch_size batch' l'
  end.

(** [nn.BCELoss()]: the comparison of the sizes made by
    [F.binary_cross_entropy]; the value of the loss is [Optim]'s. *)
Definition check_target_size (input target : matrix) : result unit :=
  if decide (size target = size input) then Ok tt
  else Err (ValueError_target_size (size target) (size input)).

(** [0 <= v <= 1], which a NaN fails, and [0 < v < 1]. *)
Definition in_unit (v : num) : bool := leb zero v && leb v one.

(** [nn.BCELoss()]: the check made by the kernel of
    [binary_cross_entropy] on every element of its input. *)
Definition check_input_range (input : matrix) : result unit :=
  if forallb (forallb in_unit) input then Ok tt
  else Err RuntimeError_input_range.
End Tensors.

(* ================================================================== *)
(** ** Random numbers *)

(** The state of torch's global generator and the draws the module makes
    from it.  A shuffle returns a permutation of what it is given, and the
    default initialiser of [nn.Linear] draws finite numbers. *)
Class Rng `{!Scalar} : Type := {
  rng : Type;
  rand1 : rng -> num * rng;
      (* one element of torch.rand: uniform on [0, 1) *)
  linear_init1 : nat -> rng -> num * rng;
      (* one element of nn.Linear's default initialisation, given fan_in *)
  kaiming_normal1 : nat -> string -> rng -> num * rng;
      (* one element of nn.init.kaiming_normal_(mode='fan_in'), given
         fan_in and the nonlinearity *)
  shuffle : rng -> matrix -> matrix * rng;
      (* the row order a DataLoader with shuffle=True draws for one pass *)
  shuffle_perm : forall g X, (shuffle g X).1 ≡ₚ X;
  linear_init1_finite : forall fan_in g, isfinite (linear_init1 fan_in g).1 = true
      (* nn.Linear draws from a uniform distribution on a bounded interval *)
}.

Section Draws.
Context `{!Scalar} `{!Rng}.

(** Replace every element of a list by a fresh draw, left to right. *)
Fixpoint fill_row (draw : rng -> num * rng) (r : list num) (g : rng)
  : list num * rng :=
  match r with
  | [] => ([], g)
  | _ :: r' =>
      let (v, g1) := draw g in
      let (vs, g2) := fill_row draw r' g1 in
      (v :: vs, g2)
  end.

(** Replace every element of a 2-D tensor by a fresh draw, row by row:
    the in-place initialisers keep the shape. *)
Fixpoint fill_ (draw : rng -> num * rng) (w : matrix) (g : rng)
  : matrix * rng :=
  match w with
  | [] => ([], g)
  | r :: w' =>
      let (r1, g1) := fill_row draw r g in
      let (w1, g2) := fill_ draw w' g1 in
      (r1 :: w1, g2)
  end.

(** [torch.rand(r, c)] *)
Definition torch_rand (r c : nat) (g : rng) : matrix * rng :=
  fill_ rand1 (torch_zeros r c) g.

(** [nn.Linear(in_features, out_features)]: the weight is
    [out_features x in_features], the bias has [out_features] entries,
    both drawn by the default initialiser. *)
Definition nn_Linear (in_f out_f : nat) (g : rng) : Linear * rng :=
  let (w, g1) := fill_ (linear_init1 in_f) (torch_zeros out_f in_f) g in
  let (b, g2) := fill_row (linear_init1 in_f) (repeat zero out_f) g1 in
  ({| weight := w; bias := b |}, g2).

(** [nn.init.kaiming_normal_(w, mode='fan_in', nonlinearity=...)] *)
Definition kaiming_normal_ (w : matrix) (nonlinearity : string) (g : rng)
  : matrix * rng :=
  fill_ (kaiming_normal1 (size w).2 nonlinearity) w g.

(** One pass over [DataLoader(dataset, batch_size, shuffle=True)]. *)
Definition DataLoader_iter (dataset : matrix) (batch_size : nat) (g : rng)
  : list matrix * rng :=
  let (rows, g1) := shuffle g dataset in
  (batch_sampler batch_size [] rows, g1).
End Draws.

(* ================================================================== *)
(** ** class Generator(nn.Module) *)

Module Generator.
Section Def.
Context `{!Scalar} `{!Rng}.

Record t : Type := { layer1 : Linear; layer2 : Linear }.

Definition shape (G : t) := (Linear_shape (layer1 G), Linear_shape (layer2 G)).

(** [__init__(self, latent_size)] *)
Definition __init__ (latent_size : nat) (g : rng) : t * rng :=
  let (l1, g1) := nn_Linear latent_size latent_size g in
  let (l2, g2) := nn_Linear latent_size latent_size g1 in
  ({| layer1 := {| weight := eye_ (weight l1); bias := bias l1 |};
      layer2 := {| weight := eye_ (weight l2); bias := bias l2 |} |}, g2).

(** [forward(self, x)] *)
Definition forward (G : t) (x : matrix) : result matrix :=
  rbind (Linear_forward (layer1 G) x) (fun x1 =>
  let x := map (map relu) x1 in
  rbind (Linear_forward (layer2 G) x) (fun x2 =>
  let x := map (map relu) x2 in
  Ok x)).
End Def.
End Generator.

(* ================================================================== *)
(** ** class Discriminator(nn.Module) *)

Module Discriminator.
Section Def.
Context `{!Scalar} `{!Rng}.

Record t : Type := { layer1 : Linear; layer2 : Linear }.

Definition shape (D : t) := (Linear_shape (layer1 D), Linear_shape (layer2 D)).

(** [__init__(self, latent_size, data_size)] *)
Definition __init__ (latent_size data_size : nat) (g : rng) : t * rng :=
  let (l1, g1) := nn_Linear latent_size (ceil_sqrt data_size) g in
  let (l2, g2) := nn_Linear (ceil_sqrt data_size) 1 g1 in
  let (w1, g3) := kaiming_normal_ (weight l1) "relu" g2 in
  let (w2, g4) := kaiming_normal_ (weight l2) "sigmoid" g3 in
  ({| layer1 := {| weight := w1; bias := bias l1 |};
      layer2 := {| weight := w2; bias := bias l2 |} |}, g4).

(** [forward(self, x)] *)
Definition forward (D : t) (x : matrix) : result matrix :=
  rbind (Linear_forward (layer1 D) x) (fun x1 =>
  let x := map (map relu) x1 in
  rbind (Linear_forward (layer2 D) x) (fun x2 =>
  let x := map (map sigmoid) x2 in
  Ok x)).
End Def.
End Discriminator.

(* ================================================================== *)
(** ** Loss, back-propagation and optimisers *)

(** The calls made on an object outside this module whose order the
    training loop decides. *)
Inductive call : Type :=
  | print_epoch (k total : nat)     (* print('Epoch {} of {}'.format(k, total)) *)
  | optimizer_d_step                (* optimizer_d.step() *)
  | optimizer_g_step.               (* optimizer_g.step() *)

(** What torch's autograd and [optim.SGD] provide.  A step is
    [zero_grad(); loss.backward(); step()] on the parameters the optimiser
    was built over; it updates tensors in place, so shapes are kept.
    [set_threshold_and_labels] is the post-processing done by the base
    detector class, which is not part of this module. *)
Class Optim `{!Scalar} : Type := {
  optimizer : Type;
  optim_SGD : num -> num -> optimizer;
      (* optim.SGD(parameters, lr=..., momentum=...) *)
  binary_cross_entropy : matrix -> matrix -> num;
      (* the value of nn.BCELoss()(input, target), sizes being equal *)
  backward_step_d :
    optimizer -> Discriminator.t -> matrix -> matrix -> Discriminator.t * optimizer;
      (* on d_loss, built from D(data_batch) and D(generated_data) *)
  backward_step_g :
    optimizer -> Generator.t -> Discriminator.t -> matrix -> matrix
    -> Generator.t * optimizer;
      (* on g_loss, built from D(G(noise)) and trick_labels *)
  set_threshold_and_labels : list num -> num -> num * list nat;
  backward_step_d_shape : forall o D x y,
    Discriminator.shape (backward_step_d o D x y).1 = Discriminator.shape D;
  backward_step_g_shape : forall o G D x y,
    Generator.shape (backward_step_g o G D x y).1 = Generator.shape G
}.

(* ================================================================== *)
(** ** The frame of [SO_GAAL.fit] while the training loop runs *)

Module Frame.
Section Def.
Context `{!Scalar} `{!Rng} `{!Optim}.

(** The objects [self.discriminator], [self.generator] and
    [self.train_history] refer to, the locals of [fit] that the loop
    reads and writes, torch's generator, and the calls made so far. *)
Record t : Type := {
  discriminator : Discriminator.t;
  generator : Generator.t;
  train_history : gmap string (list num);
  optimizer_d : optimizer;
  optimizer_g : optimizer;
  stop : nat;
  trick_labels : option matrix;
  torch_rng : rng;
  calls : list call
}.

Definition set_discriminator v f :=
  {| discriminator := v; generator := generator f;
     train_history := train_history f; optimizer_d := optimizer_d f;
     optimizer_g := optimizer_g f; stop := stop f;
     trick_labels := trick_labels f; torch_rng := torch_rng f;
     calls := calls f |}.
Definition set_generator v f :=
  {| discriminator := discriminator f; generator := v;
     train_history := train_history f; optimizer_d := optimizer_d f;
     optimizer_g := optimizer_g f; stop := stop f;
     trick_labels := trick_labels f; torch_rng := torch_rng f;
     calls := calls f |}.
Definition set_train_history v f :=
  {| discriminator := discriminator f; generator := generator f;
     train_history := v; optimizer_d := optimizer_d f;
     optimizer_g := optimizer_g f; stop := stop f;
     trick_labels := trick_labels f; torch_rng := torch_rng f;
     calls := calls f |}.
Definition set_optimizer_d v f :=
  {| discriminator := discriminator f; generator := generator f;
     train_history := train_history f; optimizer_d := v;
     optimizer_g := optimizer_g f; stop := stop f;
     trick_labels := trick_labels f; torch_rng := torch_rng f;
     calls := calls f |}.
Definition set_optimizer_g v f :=
  {| discriminator := discriminator f; generator := generator f;
     train_history := train_history f; optimizer_d := optimizer_d f;
     optimizer_g := v; stop := stop f;
     trick_labels := trick_labels f; torch_rng := torch_rng f;
     calls := calls f |}.
Definition set_stop v f :=
  {| discriminator := discriminator f; generator := generator f;
     train_history := train_history f; optimizer_d := optimizer_d f;
     optimizer_g := optimizer_g f; stop := v;
     trick_labels := trick_labels f; torch_rng := torch_rng f;
     calls := calls f |}.
Definition set_trick_labels v f :=
  {| discriminator := discriminator f; generator := generator f;
     train_history := train_history f; optimizer_d := optimizer_d f;
     optimizer_g := optimizer_g f; stop := stop f;
     trick_labels := v; torch_rng := torch_rng f;
     calls := calls f |}.
Definition set_torch_rng v f :=
  {| discriminator := discriminator f; generator := generator f;
     train_history := train_history f; optimizer_d := optimizer_d f;
     optimizer_g := optimizer_g f; stop := stop f;
     trick_labels := trick_labels f; torch_rng := v;
     calls := calls f |}.
Definition set_calls v f :=
  {| discriminator := discriminator f; generator := generator f;
     train_history := train_history f; optimizer_d := optimizer_d f;
     optimizer_g := optimizer_g f; stop := stop f;
     trick_labels := trick_labels f; torch_rng := torch_rng f;
     calls := v |}.
End Def.
End Frame.

(* ================================================================== *)
(** ** Statements of [fit]: state and exceptions *)

Section Monad.
Context `{!Scalar} `{!Rng} `{!Optim}.

(** A statement runs on a frame and ends normally with a value or by an
    exception; the frame keeps what was done before the exception. *)
Definition M (A : Type) : Type := Frame.t -> Frame.t * result A.

Definition ret {A} (a : A) : M A := fun f => (f, Ok a).

Definition bind {A B} (m : M A) (k : A -> M B) : M B :=
  fun f => match m f with
           | (f1, Ok a) => k a f1
           | (f1, Err e) => (f1, Err e)
           end.

Definition gets {A} (proj : Frame.t -> A) : M A := fun f => (f, Ok (proj f)).
Definition modify (upd : Frame.t -> Frame.t) : M unit := fun f => (upd f, Ok tt).
Definition lift {A} (r : result A) : M A := fun f => (f, r).

(** [for x in l: body(x)] *)
Fixpoint for_each {A} (body : A -> M unit) (l : list A) : M unit :=
  match l with
  | [] => ret tt
  | x :: l' => bind (body x) (fun _ => for_each body l')
  end.
End Monad.

Notation "x <- m ;; k" := (bind m (fun x => k))
  (at level 100, m at next level, right associativity).
Notation "m ;; k" := (bind m (fun _ => k))
  (at level 100, right associativity).

(* ================================================================== *)
(** ** The body of the training loop *)

Section Loop.
Context `{!Scalar} `{!Rng} `{!Optim}.

(** [torch.rand(r, c)] on the global generator. *)
Definition rand (r c : nat) : M matrix :=
  fun f => let (m, g) := torch_rand r c (Frame.torch_rng f) in
           (Frame.set_torch_rng g f, Ok m).

(** [for data_batch in dataloader]: the batches of one pass. *)
Definition iter_dataloader (dataset : matrix) (batch_size : nat)
  : M (list matrix) :=
  fun f => let (bs, g) := DataLoader_iter dataset batch_size (Frame.torch_rng f) in
           (Frame.set_torch_rng g f, Ok bs).

Definition record (c : call) : M unit :=
  modify (fun f => Frame.set_calls (Frame.calls f ++ [c]) f).

(** [criterion = nn.BCELoss()]; [criterion(input, target)]:
    [F.binary_cross_entropy] compares the sizes and raises [ValueError] when
    they differ; then the kernel raises [RuntimeError] unless every element
    of the input lies in [0, 1]. *)
Definition criterion (input target : matrix) : result num :=
  rbind (check_target_size input target) (fun _ =>
  rbind (check_input_range input) (fun _ =>
  Ok (binary_cross_entropy input target))).

(** [self.train_history[key].append(v)] on a [defaultdict(list)] *)
Definition history_append (key : string) (v : num) : M unit :=
  modify (fun f =>
    let h := Frame.train_history f in
    Frame.set_train_history (<[key := default [] (h !! key) ++ [v]]> h) f).

(** [optimizer_d.zero_grad(); d_loss.backward(); optimizer_d.step()] *)
Definition step_d (data_batch generated_data : matrix) : M unit :=
  modify (fun f =>
    let (D, o) := backward_step_d (Frame.optimizer_d f) (Frame.discriminator f)
                    data_batch generated_data in
    Frame.set_optimizer_d o (Frame.set_discriminator D f)) ;;
  record optimizer_d_step.

(** [optimizer_g.zero_grad(); g_loss.backward(); optimizer_g.step()] *)
Definition step_g (noise trick_labels : matrix) : M unit :=
  modify (fun f =>
    let (G, o) := backward_step_g (Frame.optimizer_g f) (Frame.generator f)
                    (Frame.discriminator f) noise trick_labels in
    Frame.set_optimizer_g o (Frame.set_generator G f)) ;;
  record optimizer_g_step.

(** [self.discriminator(self.generator(noise))] *)
Definition discriminate_generated (noise : matrix) : M matrix :=
  G <- gets Frame.generator ;;
  D <- gets Frame.discriminator ;;
  generated <- lift (Generator.forward G noise) ;;
  lift (Discriminator.forward D generated).

(** Reading the local [trick_labels]. *)
Definition read_trick_labels : M matrix :=
  fun f => match Frame.trick_labels f with
           | Some t => (f, Ok t)
           | None => (f, Err (UnboundLocalError "trick_labels"))
           end.

(** The body of [for data_batch in dataloader] (lines 153-193). *)
Definition train_batch (latent_size : nat) (data_batch : matrix) : M unit :=
  let batch_size := length data_batch in
  (* Train Discriminator *)
  noise <- rand batch_size latent_size ;;
  G <- gets Frame.generator ;;
  generated_data <- lift (Generator.forward G noise) ;;
  let real_labels := torch_ones batch_size 1 in
  let fake_labels := torch_zeros batch_size 1 in
  D <- gets Frame.discriminator ;;
  outputs_real <- lift (Discriminator.forward D data_batch) ;;
  outputs_fake <- lift (Discriminator.forward D generated_data) ;;
  d_loss_real <- lift (criterion outputs_real real_labels) ;;
  d_loss_fake <- lift (criterion outputs_fake fake_labels) ;;
  let d_loss := add d_loss_real d_loss_fake in
  step_d data_batch generated_data ;;
  history_append "discriminator_loss" d_loss ;;
  stop <- gets Frame.stop ;;
  if stop =? 0 then
    (* Train Generator *)
    let trick_labels := torch_ones batch_size 1 in
    modify (Frame.set_trick_labels (Some trick_labels)) ;;
    outputs <- discriminate_generated noise ;;
    g_loss <- lift (criterion outputs trick_labels) ;;
    step_g noise trick_labels ;;
    history_append "generator_loss" g_loss
  else
    outputs <- discriminate_generated noise ;;
    trick_labels <- read_trick_labels ;;
    g_loss <- lift (criterion outputs trick_labels) ;;
    history_append "generator_loss" g_loss.

(** The body of [for epoch in range(epochs)] (lines 150-196). *)
Definition train_epoch (dataset : matrix) (batch_size latent_size : nat)
    (epochs stop_epochs : nat) (epoch : nat) : M unit :=
  record (print_epoch (epoch + 1) epochs) ;;
  batches <- iter_dataloader dataset batch_size ;;
  for_each (train_batch latent_size) batches ;;
  if stop_epochs <? epoch + 1 then modify (Frame.set_stop 1) else ret tt.
End Loop.

(* ================================================================== *)
(** ** class SO_GAAL(BaseDetector) *)

Module SO_GAAL.
Section Def.
Context `{!Scalar} `{!Rng} `{!Optim}.

(** The attributes of a detector; the ones that [fit] creates are
    absent ([None]) until it assigns them.  [stop_epochs] is a number
    of epochs. *)
Record t : Type := {
  stop_epochs : nat;
  lr_d : num;
  lr_g : num;
  momentum : num;
  contamination : num;
  train_history : option (gmap string (list num));
  discriminator : option Discriminator.t;
  generator : option Generator.t;
  decision_scores_ : option (list num);
  threshold_ : option num;
  labels_ : option (list nat)
}.

(** [__init__(self, stop_epochs, lr_d, lr_g, momentum, contamination)] *)
Definition __init__ (stop_epochs : nat) (lr_d lr_g momentum contamination : num)
  : t :=
  {| stop_epochs := stop_epochs; lr_d := lr_d; lr_g := lr_g;
     momentum := momentum; contamination := contamination;
     train_history := None; discriminator := None; generator := None;
     decision_scores_ := None; threshold_ := None; labels_ := None |}.

(** What a call of [fit] leaves behind: the detector, torch's
    generator, the calls made, and whether [fit] returned or raised. *)
Record run : Type := {
  self_after : t;
  rng_after : rng;
  calls : list call;
  outcome : result unit
}.

(** The detector once the frame's objects are those its attributes
    refer to.  They are assigned before the loop (lines 133-136) and
    mutated in place by it, so this is the detector whether the loop
    ends normally or raises. *)
Definition with_frame (self : t) (f : Frame.t) : t :=
  {| stop_epochs := stop_epochs self; lr_d := lr_d self; lr_g := lr_g self;
     momentum := momentum self; contamination := contamination self;
     train_history := Some (Frame.train_history f);
     discriminator := Some (Frame.discriminator f);
     generator := Some (Frame.generator f);
     decision_scores_ := decision_scores_ self;
     threshold_ := threshold_ self; labels_ := labels_ self |}.

(** Lines 198-200: [self.decision_scores_ = ...] and
    [self._process_decision_scores()]. *)
Definition with_scores (self : t) (scores : list num) : t :=
  let (th, lab) := set_threshold_and_labels scores (contamination self) in
  {| stop_epochs := stop_epochs self; lr_d := lr_d self; lr_g := lr_g self;
     momentum := momentum self; contamination := contamination self;
     train_history := train_history self;
     discriminator := discriminator self;
     generator := generator self;
     decision_scores_ := Some scores;
     threshold_ := Some th; labels_ := Some lab |}.

(** The frame at line 149, before the first epoch. *)
Definition initial_frame (self : t) (latent_size data_size : nat) (g : rng)
  : Frame.t :=
  let (D, g1) := Discriminator.__init__ latent_size data_size g in
  let (G, g2) := Generator.__init__ latent_size g1 in
  {| Frame.discriminator := D;
     Frame.generator := G;
     Frame.train_history := ∅;
     Frame.optimizer_d := optim_SGD (lr_d self) (momentum self);
     Frame.optimizer_g := optim_SGD (lr_g self) (momentum self);
     Frame.stop := 0;
     Frame.trick_labels := None;
     Frame.torch_rng := g2;
     Frame.calls := [] |}.

(** The first [k] rounds of [for epoch in range(epochs)], on the
    validated input. *)
Definition training_loop (self : t) (X : matrix) (k : nat) : M unit :=
  let latent_size := (size X).2 in
  let data_size := (size X).1 in
  let epochs := stop_epochs self * 3 in
  for_each
    (train_epoch (torch_tensor X) (min 500 data_size) latent_size
       epochs (stop_epochs self))
    (seq 0 k).

(** [fit(self, X, y=None)].  [self._set_n_classes(y)] (line 128) belongs
    to the base class and touches none of the attributes modelled here. *)
Definition fit (self : t) (X : matrix) (g : rng) : run :=
  match check_array X with
  | Err e =>
      {| self_after := self; rng_after := g; calls := []; outcome := Err e |}
  | Ok X =>
      let latent_size := (size X).2 in
      let data_size := (size X).1 in
      let epochs := stop_epochs self * 3 in
      let frame := initial_frame self latent_size data_size g in
      let (f, r) := training_loop self X epochs frame in
      let self := with_frame self f in
      match rbind r (fun _ =>
              Discriminator.forward (Frame.discriminator f) (torch_tensor X))
      with
      | Err e =>
          {| self_after := self; rng_after := Frame.torch_rng f;
             calls := Frame.calls f; outcome := Err e |}
      | Ok out =>
          {| self_after := with_scores self (ravel out);
             rng_after := Frame.torch_rng f;
             calls := Frame.calls f; outcome := Ok tt |}
      end
  end.

(** [decision_function(self, X)] *)
Definition decision_function (self : t) (X : matrix) : result (list num) :=
  match discriminator self with
  | None => Err NotFittedError                 (* check_is_fitted *)
  | Some D =>
      rbind (check_array X) (fun X =>
      rbind (Discriminator.forward D (torch_tensor X)) (fun out =>
      let pred_scores := ravel out in
      Ok pred_scores))
  end.
End Def.
End SO_GAAL.

(* ================================================================== *)
(** ** Vocabulary of the statements *)

Section Shapes.
Context `{!Scalar}.

(** [m] has [r] rows of [c] entries. *)
Definition rect (m : matrix) (r c : nat) : Prop :=
  length m = r ∧ Forall (fun row => length row = c) m.

(** The shape of a layer with [out_f] output features over [in_f] input
    features. *)
Definition dims (in_f out_f : nat) : list nat * nat := (repeat in_f out_f, out_f).

(** The shapes [Generator(d)] and [Discriminator(d, n)] are built with,
    [h] being the hidden width. *)
Definition Generator_dims (d : nat) := (dims d d, dims d d).
Definition Discriminator_dims (d h : nat) := (dims d h, dims h 1).

(** A batch the loop can be given: not empty, rows of [d] features. *)
Definition batch_ok (d : nat) (b : matrix) : Prop :=
  0 < length b ∧ Forall (fun r => length r = d) b.

Definition zero_or_one (v : num) : Prop := v = zero ∨ v = one.

(** [len(history[key])], the history being a [defaultdict(list)]. *)
Definition hist_len (key : string) (h : gmap string (list num)) : nat :=
  length (default [] (h !! key)).

(** An arithmetic in which no value of the sigmoid fails the check of
    [BCELoss]: one without NaN. *)
Definition sigmoid_in_unit : Prop := forall z, in_unit (sigmoid z) = true.

(** A rectified finite number: [relu (0.0 + x)] for a finite [x]. *)
Definition rectified (v : num) : Prop :=
  exists x, isfinite x = true ∧ v = relu (add zero x).
End Shapes.

(** A rectified finite number is a finite number that is not negative:
    its products with [0.0] and [1.0] and its sums with [0.0] are exact.
    These are facts of IEEE arithmetic as well as of exact arithmetic. *)
Class RectifiedExact `{!Scalar} : Prop := {
  rectified_mul_zero : forall v, rectified v -> mul v zero = zero;
  rectified_mul_one : forall v, rectified v -> mul v one = v;
  rectified_add_zero_l : forall v, rectified v -> add zero v = v;
  rectified_add_zero_r : forall v, rectified v -> add v zero = v
}.

(** A statement ends normally, or [BCELoss] has met an input outside
    [0, 1]. *)
Definition ok_or_range (r : result unit) : Prop :=
  r = Ok tt ∨ r = Err RuntimeError_input_range.

(** [ceil(n / b)] *)
Definition ceil_div (n b : nat) : nat := n / b + (if n mod b =? 0 then 0 else 1).

(** The sizes of the batches of one pass over [n] rows: full batches, then
    the rest. *)
Definition batch_sizes (n bs : nat) : list nat :=
  repeat bs (n / bs) ++ (if n mod bs =? 0 then [] else [n mod bs]).

(** The size of the last batch of a pass. *)
Definition last_batch_size (n bsz : nat) : nat :=
  if n mod bsz =? 0 then bsz else n mod bsz.

(** The optimiser steps of one batch, given the value of [stop]. *)
Definition batch_calls (stop : nat) : list call :=
  if stop =? 0 then [optimizer_d_step; optimizer_g_step] else [optimizer_d_step].

(** The value of [stop] during the epoch of index [e]. *)
Definition stop_in_epoch (stop_epochs e : nat) : nat :=
  if e <=? stop_epochs then 0 else 1.

(** The calls of the epoch of index [e], over [nb] batches, and of the
    first [k] epochs. *)
Definition epoch_calls (stop_epochs epochs nb e : nat) : list call :=
  print_epoch (e + 1) epochs
    :: concat (repeat (batch_calls (stop_in_epoch stop_epochs e)) nb).

Definition expected_calls (stop_epochs epochs nb k : nat) : list call :=
  flat_map (epoch_calls stop_epochs epochs nb) (seq 0 k).

Definition is_print (c : call) : bool :=
  match c with print_epoch _ _ => true | _ => false end.

Definition starts_with_print (cs : list call) : Prop :=
  match cs with [] => True | c :: _ => is_print c = true end.

(** The calls up to the next [print]. *)
Fixpoint until_print (cs : list call) : list call :=
  match cs with
  | [] => []
  | c :: cs' => if is_print c then [] else c :: until_print cs'
  end.

(** The calls made during the epoch of index [e]: those between
    [print('Epoch e+1 of ...')] and the next [print]. *)
Fixpoint calls_of_epoch (e : nat) (cs : list call) : list call :=
  match cs with
  | [] => []
  | print_epoch k _ :: cs' =>
      if k =? e + 1 then until_print cs' else calls_of_epoch e cs'
  | _ :: cs' => calls_of_epoch e cs'
  end.

Section Detectors.
Context `{!Scalar} `{!Rng} `{!Optim}.

(** The two networks of a frame have the shapes they were built with. *)
Definition wf_frame (d h : nat) (f : Frame.t) : Prop :=
  Discriminator.shape (Frame.discriminator f) = Discriminator_dims d h
  ∧ Generator.shape (Frame.generator f) = Generator_dims d.

(** A detector on which no call of [fit] went further than the
    validation of its input. *)
Inductive never_trained : SO_GAAL.t -> Prop :=
  | never_trained_init se lr_d lr_g momentum contamination :
      never_trained (SO_GAAL.__init__ se lr_d lr_g momentum contamination)
  | never_trained_rejected self X g e :
      never_trained self -> check_array X = Err e ->
      never_trained (SO_GAAL.self_after (SO_GAAL.fit self X g)).

(** A detector on which no call of [fit] has returned. *)
Inductive not_fitted : SO_GAAL.t -> Prop :=
  | not_fitted_init se lr_d lr_g momentum contamination :
      not_fitted (SO_GAAL.__init__ se lr_d lr_g momentum contamination)
  | not_fitted_raised self X g e :
      not_fitted self -> SO_GAAL.outcome (SO_GAAL.fit self X g) = Err e ->
      not_fitted (SO_GAAL.self_after (SO_GAAL.fit self X g)).
End Detectors.

Definition is_d_step (c : call) : bool :=
  match c with optimizer_d_step => true | _ => false end.

Definition is_g_step (c : call) : bool :=
  match c with optimizer_g_step => true | _ => false end.

(** The number of calls that satisfy [p]. *)
Fixpoint count_calls (p : call -> bool) (cs : list call) : nat :=
  match cs with
  | [] => 0
  | c :: cs' => (if p c then 1 else 0) + count_calls p cs'
  end.

Section Histories.
Context `{!Scalar} `{!Rng} `{!Optim}.

(** The two loss sequences have the same length. *)
Definition balanced (f : Frame.t) : Prop :=
  hist_len "discriminator_loss" (Frame.train_history f)
  = hist_len "generator_loss" (Frame.train_history f).

(** The discriminator's sequence is as long as the generator's, or longer
    by one entry. *)
Definition ahead_by_one (f : Frame.t) : Prop :=
  hist_len "generator_loss" (Frame.train_history f)
    <= hist_len "discriminator_loss" (Frame.train_history f)
    <= S (hist_len "generator_loss" (Frame.train_history f)).

(** What holds of the history when a statement ends: balanced when it
    ends normally, at most one entry ahead when it raises. *)
Definition lockstep (f' : Frame.t) (r : result unit) : Prop :=
  match r with Ok _ => balanced f' | Err _ => ahead_by_one f' end.
End Histories.

(* ================================================================== *)
(** ** An instance that computes

    Exact rational scalars, a tape of predetermined draws in place of
    torch's generator, and an optimiser that moves every parameter by the
    learning rate.  The properties below are proved for every instance of
    the interfaces; this one evaluates the definitions on concrete
    inputs. *)

Module Sample.
Definition Qrelu (x : Q) : Q := if Qle_bool x 0 then 0%Q else x.

(** A rational map into (0, 1) standing for the logistic function. *)
Definition Qsquash (x : Q) : Q :=
  Qred ((1 + x / (1 + (if Qle_bool 0 x then x else - x))) / 2)%Q.

#[export] Instance scalar : Scalar := {|
  num := Q; zero := 0%Q; one := 1%Q;
  add := fun x y => Qred (x + y)%Q;
  mul := fun x y => Qred (x * y)%Q;
  relu := Qrelu; sigmoid := Qsquash;
  isfinite := fun _ => true; float32 := fun x => x;
  leb := Qle_bool; ltb := fun x y => negb (Qle_bool y x);
  add_zero_zero := eq_refl; mul_zero_zero := eq_refl;
  mul_zero_one := eq_refl; relu_zero := eq_refl
|}.

(** The next value on the tape, [0] once it is used up. *)
Definition next (g : list Q) : Q * list Q :=
  match g with [] => (0%Q, []) | v :: g' => (v, g') end.

#[export] Instance tape : Rng := {|
  rng := list Q;
  rand1 := next;
  linear_init1 := fun _ => next;
  kaiming_normal1 := fun _ _ => next;
  shuffle := fun g X => (rev X, g);
  shuffle_perm := fun g X => Permutation_sym (Permutation_rev X);
  linear_init1_finite := fun _ _ => eq_refl
|}.

Definition move (lr : Q) (l : Linear) : Linear :=
  {| weight := map (map (fun p => Qred (p - lr)%Q)) (weight l);
     bias := map (fun p => Qred (p - lr)%Q) (bias l) |}.

Definition move_d (lr : Q) (D : Discriminator.t) : Discriminator.t :=
  {| Discriminator.layer1 := move lr (Discriminator.layer1 D);
     Discriminator.layer2 := move lr (Discriminator.layer2 D) |}.

Definition move_g (lr : Q) (G : Generator.t) : Generator.t :=
  {| Generator.layer1 := move lr (Generator.layer1 G);
     Generator.layer2 := move lr (Generator.layer2 G) |}.

(** The mean distance between input and target. *)
Definition distance (input target : list (list Q)) : Q :=
  let d := zip_with (fun i t => Qabs (i - t)%Q) (concat input) (concat target) in
  Qred (fold_right Qplus 0%Q d / inject_Z (Z.of_nat (length d)))%Q.

Lemma move_shape lr l : Linear_shape (move lr l) = Linear_shape l.
Proof.
  unfold Linear_shape, row_lengths, move; simpl.
  rewrite length_map, map_map. f_equal.
  apply map_ext; intros r; apply length_map.
Qed.

#[export] Instance sgd : Optim := {|
  optimizer := Q;
  optim_SGD := fun lr _ => lr;
  binary_cross_entropy := distance;
  backward_step_d := fun o D _ _ => (move_d o D, o);
  backward_step_g := fun o G _ _ _ => (move_g o G, o);
  set_threshold_and_labels := fun scores _ => (0%Q, map (fun _ => 0) scores);
  backward_step_d_shape := fun o D _ _ =>
    f_equal2 pair (move_shape o _) (move_shape o _);
  backward_step_g_shape := fun o G _ _ _ =>
    f_equal2 pair (move_shape o _) (move_shape o _)
|}.

(** [SO_GAAL(stop_epochs=se, lr_d=1/100, lr_g=1/10000, momentum=9/10,
    contamination=1/10)] *)
Definition detector (se : nat) : SO_GAAL.t :=
  SO_GAAL.__init__ se (1 # 100)%Q (1 # 10000)%Q (9 # 10)%Q (1 # 10)%Q.

(** [n] samples with one feature, all zero. *)
Definition zeros_data (n : nat) : matrix := repeat [0%Q] n.

(** Two samples with one feature: [[0.0], [10.0]]. *)
Definition two_samples : matrix := [[0%Q]; [10%Q]].

(** The tape holding the draws [l], and the tape of zeros. *)
Definition draws (l : list Q) : rng := l.
Definition no_draws : rng := draws [].

(** The frame before the first epoch of [fit] on [two_samples], and the
    same frame as a frozen epoch would find it. *)
Definition first_frame : Frame.t := SO_GAAL.initial_frame (detector 2) 1 2 no_draws.
Definition frozen_frame : Frame.t :=
  Frame.set_trick_labels (Some (torch_ones 2 1)) (Frame.set_stop 1 first_frame).
End Sample.

(* ================================================================== *)
(** ** An instance in binary32

    The numbers torch computes with: binary32 as [SpecFloat] specifies it
    ([prec = 24], [emax = 128]), with the addition, multiplication and
    division of IEEE 754, rounding to nearest, ties to even.  The sigmoid
    is [1 / (1 + exp(-x))] evaluated in binary32, as the kernel of
    [torch.sigmoid] evaluates it, over an exponential that is accurate to
    the last place.  The arrays of this instance hold binary32 numbers
    only. *)

Module Float32.
Definition prec : Z := 24.
Definition emax : Z := 128.

Definition Fzero : spec_float := S754_zero false.
Definition Fone : spec_float := S754_finite false 8388608 (-23).
Definition Fadd : spec_float -> spec_float -> spec_float := SFadd prec emax.
Definition Fmul : spec_float -> spec_float -> spec_float := SFmul prec emax.
Definition Fdiv : spec_float -> spec_float -> spec_float := SFdiv prec emax.

(** [max(x, 0)], a NaN being kept. *)
Definition Frelu (x : spec_float) : spec_float :=
  match x with
  | S754_nan => S754_nan
  | _ => if SFltb Fzero x then x else Fzero
  end.

(** The sum of the series of [exp (r / 2^256)], in units of [2^-256]. *)
Fixpoint exp_series (fuel : nat) (i r term acc : Z) : Z :=
  match fuel with
  | O => acc
  | S fuel' =>
      let term' := (term * r / (i * 2 ^ 256))%Z in
      exp_series fuel' (i + 1)%Z r term' (acc + term')%Z
  end.

(** [exp (q / 2^256)] for [|q / 2^256| < 128], in units of [2^-256]:
    the series at [q / 2^8], squared eight times. *)
Definition exp_fixed (q : Z) : Z :=
  let y := exp_series 80 1 (q / 2 ^ 8)%Z (2 ^ 256)%Z (2 ^ 256)%Z in
  Nat.iter 8 (fun y => (y * y / 2 ^ 256)%Z) y.

(** [exp(x)] in binary32: it overflows above 88.7 and underflows to
    [0.0] below -103.9. *)
Definition Fexp (x : spec_float) : spec_float :=
  match x with
  | S754_nan => S754_nan
  | S754_infinity false => x
  | S754_infinity true => Fzero
  | S754_zero _ => Fone
  | S754_finite s m e =>
      if (7 <? Zpos (digits2_pos m) + e)%Z
      then if s then Fzero else S754_infinity false
      else
        let q := Z.shiftl (if s then Zneg m else Zpos m) (e + 256) in
        binary_normalize prec emax (exp_fixed q) (- 256) false
  end.

(** [torch.sigmoid], one element: [1 / (1 + exp(-x))]. *)
Definition Fsigmoid (x : spec_float) : spec_float :=
  Fdiv Fone (Fadd Fone (Fexp (SFopp x))).

(** A finite binary32 number. *)
Definition Fisfinite (x : spec_float) : bool :=
  match x with
  | S754_zero _ => true
  | S754_finite _ m e => bounded prec emax m e
  | _ => false
  end.

(** Rounding to binary32. *)
Definition Fround (x : spec_float) : spec_float :=
  match x with
  | S754_finite s m e => binary_round prec emax s m e
  | _ => x
  end.

#[export] Instance scalar : Scalar := {|
  num := spec_float; zero := Fzero; one := Fone;
  add := Fadd; mul := Fmul; relu := Frelu; sigmoid := Fsigmoid;
  isfinite := Fisfinite; float32 := Fround;
  leb := SFleb; ltb := SFltb;
  add_zero_zero := eq_refl; mul_zero_zero := eq_refl;
  mul_zero_one := eq_refl; relu_zero := eq_refl
|}.

(** The binary32 number nearest to an integer. *)
Definition of_Z (n : Z) : num := binary_normalize prec emax n 0 false.

(** A discriminator of the shape of [Discriminator(1, 1)], with the
    weights [w1] and [w2] and biases [0.0]. *)
Definition discriminator (w1 w2 : Z) : Discriminator.t :=
  {| Discriminator.layer1 := {| weight := [[of_Z w1]]; bias := [Fzero] |};
     Discriminator.layer2 := {| weight := [[of_Z w2]]; bias := [Fzero] |} |}.
End Float32.

(* ================================================================== *)
(** * Properties *)

#[local] Arguments Nat.min : simpl never.
#[local] Arguments Nat.modulo : simpl never.
#[local] Arguments Nat.div : simpl never.

(* ------------------------------------------------------------------ *)
(** ** The hidden width: [math.ceil(math.sqrt(n))] in binary64 *)

Section Binary64.
Local Open Scope Z_scope.

Lemma iter_pos_nat {A} (f : A -> A) p x :
  SpecFloat.iter_pos f p x = Nat.iter (Pos.to_nat p) f x.
Proof.
  revert x. induction p as [p IH|p IH|]; intros x; cbn [SpecFloat.iter_pos].
  - rewrite !IH, Pos2Nat.inj_xI.
    replace (S (2 * Pos.to_nat p))%nat with (Pos.to_nat p + S (Pos.to_nat p))%nat by lia.
    by rewrite Nat.iter_add, Nat.iter_succ_r.
  - rewrite !IH, Pos2Nat.inj_xO.
    replace (2 * Pos.to_nat p)%nat with (Pos.to_nat p + Pos.to_nat p)%nat by lia.
    by rewrite Nat.iter_add.
  - done.
Qed.

Lemma shr_1_m mrs : 0 <= shr_m mrs -> shr_m (shr_1 mrs) = shr_m mrs / 2.
Proof.
  destruct mrs as [m r s]. intros Hm. rewrite <- Z.div2_div.
  destruct m as [|[p|p|]|p]; done.
Qed.

Lemma shr_iter_m k mrs :
  0 <= shr_m mrs -> shr_m (Nat.iter k shr_1 mrs) = shr_m mrs / 2 ^ Z.of_nat k.
Proof.
  intros Hm. induction k as [|k IH].
  - simpl. by rewrite Z.div_1_r.
  - pose proof (Z.pow_pos_nonneg 2 (Z.of_nat k) ltac:(lia) ltac:(lia)) as Hp.
    rewrite Nat2Z.inj_succ, Z.pow_succ_r by lia.
    change (Nat.iter (S k) shr_1 mrs) with (shr_1 (Nat.iter k shr_1 mrs)).
    rewrite shr_1_m, IH.
    + rewrite Z.div_div by lia. f_equal. lia.
    + rewrite IH. apply Z.div_pos; lia.
Qed.

Lemma shr_m_shift mrs e n :
  0 <= shr_m mrs -> 0 <= n -> shr_m (shr mrs e n).1 = shr_m mrs / 2 ^ n.
Proof.
  intros Hm Hn. unfold shr. destruct n as [|p|p]; simpl; try lia.
  - by rewrite Z.div_1_r.
  - by rewrite iter_pos_nat, shr_iter_m, positive_nat_Z.
Qed.

Lemma digits2_pos_bounds p :
  2 ^ (Zpos (digits2_pos p) - 1) <= Zpos p < 2 ^ Zpos (digits2_pos p).
Proof.
  induction p as [p IH|p IH|]; cbn [digits2_pos]; [| |done].
  - rewrite Pos2Z.inj_succ, (Pos2Z.inj_xI p).
    replace (Z.succ (Zpos (digits2_pos p)) - 1) with (Z.succ (Zpos (digits2_pos p) - 1)) by lia.
    rewrite !Z.pow_succ_r by lia.
    generalize dependent (2 ^ (Zpos (digits2_pos p) - 1)).
    generalize dependent (2 ^ Zpos (digits2_pos p)). intros; lia.
  - rewrite Pos2Z.inj_succ, (Pos2Z.inj_xO p).
    replace (Z.succ (Zpos (digits2_pos p)) - 1) with (Z.succ (Zpos (digits2_pos p) - 1)) by lia.
    rewrite !Z.pow_succ_r by lia.
    generalize dependent (2 ^ (Zpos (digits2_pos p) - 1)).
    generalize dependent (2 ^ Zpos (digits2_pos p)). intros; lia.
Qed.

Lemma Zdigits2_bounds m :
  0 < m -> 2 ^ (Zdigits2 m - 1) <= m < 2 ^ Zdigits2 m.
Proof. destruct m as [|p|p]; try done. intros _. apply digits2_pos_bounds. Qed.

Lemma Zdigits2_pos m : 0 < m -> 0 < Zdigits2 m.
Proof. destruct m; done. Qed.

Lemma Zdigits2_unique m k :
  2 ^ (k - 1) <= m < 2 ^ k -> 0 < m -> Zdigits2 m = k.
Proof.
  intros [Hlo Hhi] Hm. pose proof (Zdigits2_bounds m Hm) as [Hlo' Hhi'].
  pose proof (Zdigits2_pos m Hm) as Hd.
  assert (0 < k) as Hk.
  { destruct (Z.lt_ge_cases 0 k) as [|Hle]; [done|].
    assert (2 ^ k <= 1); [|lia].
    destruct (Z.eq_dec k 0) as [->|]; [done|]. rewrite Z.pow_neg_r; lia. }
  assert (Zdigits2 m - 1 < k).
  { apply (Z.pow_lt_mono_r_iff 2); lia. }
  assert (k - 1 < Zdigits2 m).
  { apply (Z.pow_lt_mono_r_iff 2); lia. }
  lia.
Qed.

Lemma Zdigits2_mono a b : 0 < a -> a <= b -> Zdigits2 a <= Zdigits2 b.
Proof.
  intros Ha Hab. pose proof (Zdigits2_bounds a Ha) as [Hlo _].
  pose proof (Zdigits2_bounds b ltac:(lia)) as [_ Hhi].
  pose proof (Zdigits2_pos b ltac:(lia)).
  assert (Zdigits2 a - 1 < Zdigits2 b); [|lia].
  apply (Z.pow_lt_mono_r_iff 2); lia.
Qed.

Lemma Zdigits2_div m k :
  0 < m -> 0 <= k < Zdigits2 m -> Zdigits2 (m / 2 ^ k) = Zdigits2 m - k.
Proof.
  intros Hm Hk. pose proof (Zdigits2_bounds m Hm) as [Hlo Hhi].
  pose proof (Z.pow_pos_nonneg 2 k ltac:(lia) ltac:(lia)) as Hp.
  assert (2 ^ (Zdigits2 m - 1) = 2 ^ (Zdigits2 m - k - 1) * 2 ^ k) as E1.
  { rewrite <- Z.pow_add_r by lia. f_equal. lia. }
  assert (2 ^ Zdigits2 m = 2 ^ (Zdigits2 m - k) * 2 ^ k) as E2.
  { rewrite <- Z.pow_add_r by lia. f_equal. lia. }
  assert (2 ^ (Zdigits2 m - k - 1) <= m / 2 ^ k) as Hlo'.
  { apply Z.div_le_lower_bound; lia. }
  assert (m / 2 ^ k < 2 ^ (Zdigits2 m - k)) as Hhi'.
  { apply Z.div_lt_upper_bound; lia. }
  apply Zdigits2_unique; [done|].
  pose proof (Z.pow_pos_nonneg 2 (Zdigits2 m - k - 1) ltac:(lia) ltac:(lia)). lia.
Qed.

Lemma Zdigits2_mul m k :
  0 < m -> 0 <= k -> Zdigits2 (m * 2 ^ k) = Zdigits2 m + k.
Proof.
  intros Hm Hk. pose proof (Zdigits2_bounds m Hm) as [Hlo Hhi].
  pose proof (Zdigits2_pos m Hm).
  pose proof (Z.pow_pos_nonneg 2 k ltac:(lia) ltac:(lia)) as Hp.
  apply Zdigits2_unique; [|lia].
  replace (Zdigits2 m + k - 1) with (Zdigits2 m - 1 + k) by lia.
  rewrite !Z.pow_add_r by lia. nia.
Qed.

Section Rounding.
Variables prec emax : Z.
Hypothesis prec_pos : 0 < prec.

Local Abbreviation fexp := (fexp prec emax).
Local Abbreviation emin := (emin prec emax).

Lemma fexp_sub d e : fexp (d + e) - e = Z.max (d - prec) (emin - e).
Proof. unfold SpecFloat.fexp. lia. Qed.

Lemma round_nearest_even_bounds m l :
  m <= round_nearest_even m l <= m + 1.
Proof. destruct l as [|[]]; simpl; try lia. destruct (Z.even m); lia. Qed.

Lemma shr_record_of_loc_m m l : shr_m (shr_record_of_loc m l) = m.
Proof. by destruct l as [|[]]. Qed.

Lemma loc_of_shr_record_of_loc m l :
  loc_of_shr_record (shr_record_of_loc m l) = l.
Proof. by destruct l as [|[]]. Qed.

(** The mantissa and exponent after the shift that brings a number above
    the subnormal floor to at most [prec] digits. *)
Lemma shr_fexp_spec m e l :
  0 < m -> emin < Zdigits2 m + e ->
  let sh := Z.max 0 (fexp (Zdigits2 m + e) - e) in
  shr_m (shr_fexp prec emax m e l).1 = m / 2 ^ sh
  /\ (shr_fexp prec emax m e l).2 = e + sh
  /\ sh < Zdigits2 m.
Proof.
  intros Hm Hd sh. unfold shr_fexp.
  pose proof (fexp_sub (Zdigits2 m) e) as Hf.
  pose proof (Zdigits2_pos m Hm) as Hdp.
  assert (sh < Zdigits2 m) as Hsh by (unfold sh; lia).
  split; [|split; [|done]].
  - unfold sh. destruct (Z.max_spec 0 (fexp (Zdigits2 m + e) - e)) as [[Hlt ->]|[Hle ->]].
    + rewrite shr_m_shift, shr_record_of_loc_m; [done| |lia].
      rewrite shr_record_of_loc_m. lia.
    + rewrite Z.div_1_r. unfold shr.
      destruct (fexp (Zdigits2 m + e) - e) as [|p|p]; simpl;
        try apply shr_record_of_loc_m. lia.
  - unfold sh, shr.
    destruct (fexp (Zdigits2 m + e) - e) as [|p|p]; simpl; lia.
Qed.

Lemma shr_fexp_pos m e l :
  0 < m -> emin < Zdigits2 m + e ->
  0 < shr_m (shr_fexp prec emax m e l).1
  /\ e <= (shr_fexp prec emax m e l).2
  /\ Zdigits2 m + e
     = Zdigits2 (shr_m (shr_fexp prec emax m e l).1) + (shr_fexp prec emax m e l).2.
Proof.
  intros Hm Hd. destruct (shr_fexp_spec m e l Hm Hd) as (-> & -> & Hsh).
  set (sh := Z.max 0 _) in *.
  pose proof (Zdigits2_bounds m Hm) as [Hlo _].
  assert (0 <= sh) as Hsh0 by (unfold sh; lia).
  assert (2 ^ sh <= m) as Hle.
  { etrans; [|exact Hlo]. apply Z.pow_le_mono_r; lia. }
  pose proof (Z.pow_pos_nonneg 2 sh ltac:(lia) Hsh0) as Hp.
  split; [|split; [lia|]].
  - apply Z.div_str_pos. lia.
  - rewrite Zdigits2_div by lia. lia.
Qed.

(** Rounding a positive number above the subnormal floor gives a
    positive number or overflows. *)
Lemma binary_round_aux_positive s m e l :
  0 < m -> emin < Zdigits2 m + e ->
  binary_round_aux prec emax s m e l = S754_infinity s
  \/ exists m' e', binary_round_aux prec emax s m e l = S754_finite s m' e'
                   /\ e <= e'.
Proof.
  intros Hm Hd. unfold binary_round_aux.
  destruct (shr_fexp_pos m e l Hm Hd) as (Hm1 & He1 & Hd1).
  destruct (shr_fexp prec emax m e l) as [mrs1 e1]. simpl in *.
  pose proof (round_nearest_even_bounds (shr_m mrs1) (loc_of_shr_record mrs1)) as Hr.
  set (m1 := round_nearest_even _ _) in *.
  assert (0 < m1) as Hm1' by lia.
  assert (emin < Zdigits2 m1 + e1) as Hd1'.
  { pose proof (Zdigits2_mono (shr_m mrs1) m1 Hm1 ltac:(lia)). lia. }
  destruct (shr_fexp_pos m1 e1 loc_Exact Hm1' Hd1') as (Hm2 & He2 & _).
  destruct (shr_fexp prec emax m1 e1 loc_Exact) as [mrs2 e2]. simpl in *.
  destruct (shr_m mrs2) as [|m2|m2]; try done.
  destruct (e2 <=? emax - prec); [right|by left].
  exists m2, e2. split; [done|lia].
Qed.

Lemma shl_align_spec mx ex ex' :
  let '(m, e) := shl_align mx ex ex' in
  e = Z.min ex ex' /\ Zpos m = Zpos mx * 2 ^ (ex - e).
Proof.
  unfold shl_align. destruct (ex' - ex) as [|d|d] eqn:E.
  - split; [lia|]. replace (ex - ex) with 0 by lia. lia.
  - split; [lia|]. replace (ex - ex) with 0 by lia. lia.
  - split; [lia|]. replace (ex - ex') with (Zpos d) by lia.
    rewrite Z.mul_comm. exact (Zpower.shift_pos_correct d mx).
Qed.

Lemma binary_round_positive s mx ex :
  emin < Zpos (digits2_pos mx) + ex ->
  binary_round prec emax s mx ex = S754_infinity s
  \/ exists m' e', binary_round prec emax s mx ex = S754_finite s m' e'
                   /\ Z.min ex emin <= e'.
Proof.
  intros Hd. unfold binary_round.
  pose proof (shl_align_spec mx ex (fexp (Zpos (digits2_pos mx) + ex))) as Hs.
  destruct (shl_align mx ex _) as [mz ez]. destruct Hs as [He Hm].
  assert (0 <= ex - ez) as Hsh by lia.
  assert (Zdigits2 (Zpos mz) + ez = Zpos (digits2_pos mx) + ex) as Hdz.
  { rewrite Hm, Zdigits2_mul by lia. cbn [Zdigits2]. lia. }
  destruct (binary_round_aux_positive s (Zpos mz) ez loc_Exact) as [->|(m' & e' & -> & He')];
    [done|lia|by left|right].
  exists m', e'. split; [done|]. unfold SpecFloat.fexp in He. lia.
Qed.

Lemma SFsqrt_positive mx ex :
  2 * emin <= ex ->
  SFsqrt prec emax (S754_finite false mx ex) = S754_infinity false
  \/ exists m' e', SFsqrt prec emax (S754_finite false mx ex) = S754_finite false m' e'.
Proof.
  intros He. unfold SFsqrt, SFsqrt_core_binary.
  set (e' := Z.min _ _).
  assert (2 * e' <= ex /\ emin <= e') as [He1 He2].
  { unfold e', SpecFloat.fexp. rewrite !Z.div2_div.
    pose proof (Z.mul_div_le ex 2 ltac:(lia)).
    pose proof (Z.div_le_lower_bound ex 2 emin ltac:(lia) ltac:(lia)). lia. }
  set (m' := match ex - 2 * e' with Z0 => _ | Zpos _ => _ | Zneg _ => _ end).
  assert (0 < m') as Hm'.
  { unfold m'. destruct (ex - 2 * e') as [|p|p] eqn:E; [done| |lia].
    rewrite Z.shiftl_mul_pow2 by lia.
    pose proof (Z.pow_pos_nonneg 2 (Zpos p) ltac:(lia) ltac:(lia)). lia. }
  pose proof (Z.sqrtrem_sqrt m') as Hq.
  destruct (Z.sqrtrem m') as [q r]. simpl in Hq. subst q.
  pose proof (proj2 (Z.sqrt_pos m') Hm') as Hq.
  destruct (binary_round_aux_positive false (Z.sqrt m') e'
              (if r =? 0 then loc_Exact
               else loc_Inexact (if r <=? Z.sqrt m' then Lt else Gt)))
    as [->|(m'' & e'' & -> & _)]; [done| |by left|right; by eexists _, _].
  pose proof (Zdigits2_pos _ Hq). lia.
Qed.
End Rounding.

Lemma math_ceil_positive m e : exists h, math_ceil (S754_finite false m e) = Some h /\ 0 < h.
Proof.
  unfold math_ceil. eexists. split; [done|]. destruct e as [|p|p].
  - rewrite Z.pow_0_r. lia.
  - pose proof (Z.pow_pos_nonneg 2 (Zpos p) ltac:(lia) ltac:(lia)). nia.
  - pose proof (Z.pow_pos_nonneg 2 (Zpos p) ltac:(lia) ltac:(lia)).
    assert (- Zpos m / 2 ^ Zpos p < 0); [|lia].
    apply Z.div_lt_upper_bound; lia.
Qed.

Lemma ceil_sqrt_pos n : (0 < n)%nat -> (0 < ceil_sqrt n)%nat.
Proof.
  intros Hn. unfold ceil_sqrt, ceil_sqrt_Z, float_of_Z, binary_normalize.
  destruct (Z.of_nat n) as [|p|p] eqn:E; try lia.
  destruct (binary_round_positive 53 1024 ltac:(lia) false p 0) as [->|(m & e & -> & He)].
  { unfold emin. lia. }
  { simpl. lia. }
  destruct (SFsqrt_positive 53 1024 ltac:(lia) m e) as [->|(m' & e' & ->)].
  { unfold emin in *. lia. }
  { simpl. lia. }
  destruct (math_ceil_positive m' e') as (h & -> & Hh). lia.
Qed.

Section Canonical.
Variables prec emax : Z.
Hypothesis prec_pos : 0 < prec.

(** A mantissa that has the digits its exponent asks for, before and
    after rounding, is only rounded. *)
Lemma binary_round_aux_canonical s m e l :
  0 < m ->
  fexp prec emax (Zdigits2 m + e) = e ->
  Zdigits2 (round_nearest_even m l) = Zdigits2 m ->
  e <= emax - prec ->
  binary_round_aux prec emax s m e l
  = S754_finite s (Z.to_pos (round_nearest_even m l)) e.
Proof.
  intros Hm Hc Hd He. unfold binary_round_aux, shr_fexp.
  rewrite Hc, Z.sub_diag. cbn [shr].
  rewrite shr_record_of_loc_m, loc_of_shr_record_of_loc.
  rewrite Hd, Hc, Z.sub_diag. cbn [shr shr_record_of_loc shr_m].
  pose proof (round_nearest_even_bounds m l) as Hr.
  destruct (round_nearest_even m l) as [|m1|m1]; try lia.
  apply Z.leb_le in He. by rewrite He.
Qed.

(** Shifting out [k] zero digits loses nothing. *)
Lemma shr_iter_exact k m :
  0 <= m ->
  Nat.iter k shr_1 {| shr_m := m * 2 ^ Z.of_nat k; shr_r := false; shr_s := false |}
  = {| shr_m := m; shr_r := false; shr_s := false |}.
Proof.
  intros Hm. induction k as [|k IH].
  - cbn [Nat.iter]. change (Z.of_nat 0) with 0. by rewrite Z.pow_0_r, Z.mul_1_r.
  - rewrite Nat.iter_succ_r, <- IH. f_equal.
    rewrite Nat2Z.inj_succ, Z.pow_succ_r by lia.
    pose proof (Z.pow_pos_nonneg 2 (Z.of_nat k) ltac:(lia) ltac:(lia)) as Hp.
    replace (m * (2 * 2 ^ Z.of_nat k)) with (2 * (m * 2 ^ Z.of_nat k)) by lia.
    destruct (m * 2 ^ Z.of_nat k) as [|p|p] eqn:E; [done|done|lia].
Qed.

(** A number of the format written with [k] more digits rounds to
    itself. *)
Lemma binary_round_aux_shifted s m e k :
  bounded prec emax m e = true ->
  binary_round_aux prec emax s (Zpos m * 2 ^ Zpos k) (e - Zpos k) loc_Exact
  = S754_finite s m e.
Proof.
  unfold bounded, canonical_mantissa. intros [Hc He]%andb_prop.
  apply Z.eqb_eq in Hc.
  assert (Zdigits2 (Zpos m * 2 ^ Zpos k) = Zpos (digits2_pos m) + Zpos k) as Hd.
  { by rewrite Zdigits2_mul. }
  unfold binary_round_aux, shr_fexp. rewrite Hd.
  replace (Zpos (digits2_pos m) + Zpos k + (e - Zpos k))
    with (Zpos (digits2_pos m) + e) by lia.
  rewrite Hc. replace (e - (e - Zpos k)) with (Zpos k) by lia.
  cbn [shr shr_record_of_loc]. rewrite iter_pos_nat.
  pose proof (shr_iter_exact (Pos.to_nat k) (Zpos m) ltac:(lia)) as Hi.
  rewrite positive_nat_Z in Hi. rewrite Hi.
  cbn [shr_m loc_of_shr_record round_nearest_even Zdigits2].
  replace (e - Zpos k + Zpos k) with e by lia.
  rewrite Hc, Z.sub_diag. cbn [shr shr_record_of_loc shr_m]. by rewrite He.
Qed.
End Canonical.

Lemma float_of_Z_exact n :
  0 < n < 2 ^ 53 ->
  float_of_Z n
  = S754_finite false (Z.to_pos (n * 2 ^ (53 - Zdigits2 n))) (Zdigits2 n - 53).
Proof.
  intros [Hn Hlt]. destruct n as [|p|p]; try lia.
  unfold float_of_Z, binary_normalize, binary_round.
  pose proof (Zdigits2_bounds (Zpos p) Hn) as [Hlo Hhi].
  pose proof (Zdigits2_pos (Zpos p) Hn) as Hd0.
  assert (Zdigits2 (Zpos p) <= 53) as Hd.
  { assert (Zdigits2 (Zpos p) - 1 < 53); [|lia].
    apply (Z.pow_lt_mono_r_iff 2); lia. }
  cbn [Zdigits2] in *. set (d := Zpos (digits2_pos p)) in *.
  assert (fexp 53 1024 (d + 0) = d - 53) as -> by (unfold fexp, emin; lia).
  pose proof (shl_align_spec p 0 (d - 53)) as Hs.
  destruct (shl_align p 0 (d - 53)) as [mz ez]. destruct Hs as [He Hm].
  assert (ez = d - 53) as -> by lia.
  replace (0 - (d - 53)) with (53 - d) in Hm by lia.
  assert (Zdigits2 (Zpos mz) = 53) as Hdz.
  { rewrite Hm, Zdigits2_mul by lia. cbn [Zdigits2]. fold d. lia. }
  rewrite binary_round_aux_canonical; cbn [round_nearest_even]; try done.
  - by rewrite <- Hm.
  - rewrite Hdz. unfold fexp, emin. lia.
  - lia.
Qed.

Lemma SFsqrt_exact m e :
  Zdigits2 (Zpos m) = 53 -> -52 <= e <= 0 -> Zpos m <= 2 ^ 53 - 2 ->
  let e' := e / 2 - 26 in
  let m' := Zpos m * 2 ^ (e - 2 * e') in
  exists M,
    SFsqrt 53 1024 (S754_finite false m e) = S754_finite false (Z.to_pos M) e'
    /\ Z.sqrt m' <= M <= Z.sqrt m' + 1
    /\ (m' = Z.sqrt m' * Z.sqrt m' -> M = Z.sqrt m').
Proof.
  intros Hd He Hm e' m'. unfold SFsqrt, SFsqrt_core_binary. rewrite Hd.
  pose proof (Zdigits2_bounds (Zpos m) ltac:(lia)) as [Hlo _]. rewrite Hd in Hlo.
  assert (Z.min (fexp 53 1024 (Z.div2 (53 + e + 1))) (Z.div2 e) = e') as ->.
  { unfold e', fexp, emin. rewrite !Z.div2_div.
    replace (53 + e + 1) with (e + 27 * 2) by lia.
    rewrite Z.div_add by lia.
    pose proof (Z.div_le_lower_bound e 2 (-26) ltac:(lia) ltac:(lia)). lia. }
  assert (e - 2 * e' = 52 \/ e - 2 * e' = 53) as Hs.
  { unfold e'. pose proof (Z.div_mod e 2 ltac:(lia)).
    pose proof (Z.mod_pos_bound e 2 ltac:(lia)). lia. }
  assert (match e - 2 * e' with
          | 0 => Zpos m | Zpos _ => Z.shiftl (Zpos m) (e - 2 * e') | Zneg _ => 0
          end = m') as ->.
  { unfold m'. destruct (e - 2 * e') as [|p|p] eqn:E; try lia.
    by rewrite Z.shiftl_mul_pow2. }
  assert (2 ^ 104 <= m' <= 2 ^ 106 - 2 ^ 54) as Hm'.
  { unfold m'. destruct Hs as [-> | ->]; lia. }
  pose proof (Z.sqrtrem_spec m' ltac:(lia)) as Hspec.
  pose proof (Z.sqrtrem_sqrt m') as Hq.
  destruct (Z.sqrtrem m') as [q r]. simpl in Hq. subst q.
  destruct Hspec as [Hmq Hr].
  set (q := Z.sqrt m') in *.
  assert (2 ^ 52 <= q < 2 ^ 53 - 1) as Hq.
  { split.
    - apply Z.sqrt_le_square; lia.
    - apply Z.sqrt_lt_square; lia. }
  set (l := if r =? 0 then loc_Exact else loc_Inexact (if r <=? q then Lt else Gt)).
  pose proof (round_nearest_even_bounds q l) as HM.
  exists (round_nearest_even q l).
  assert (Zdigits2 q = 53) as Hdq by (apply Zdigits2_unique; lia).
  split; [|split; [done|]].
  - apply binary_round_aux_canonical; try lia.
    + rewrite Hdq. unfold fexp, emin, e'.
      pose proof (Z.div_le_lower_bound e 2 (-26) ltac:(lia) ltac:(lia)). lia.
    + rewrite Hdq. apply Zdigits2_unique; lia.
  - intros Hsq. assert (r = 0) as -> by lia. done.
Qed.

Lemma ceil_div_exact k J : 0 < J -> - (- (k * J) / J) = k.
Proof. intros HJ. rewrite <- Z.mul_opp_l, Z.div_mul by lia. lia. Qed.

Lemma ceil_div_inexact M k J : 0 < J -> k * J < M <= (k + 1) * J -> - (- M / J) = k + 1.
Proof.
  intros HJ HM. assert (- M / J = - (k + 1)) as ->; [|lia].
  symmetry. apply Z.div_unique with ((k + 1) * J - M); lia.
Qed.

(** Below [2^52] the float computation is exact: the result is the least
    [h] with [h * h >= n]. *)
Theorem ceil_sqrt_Z_least n :
  0 <= n <= 2 ^ 52 ->
  0 <= ceil_sqrt_Z n /\ n <= ceil_sqrt_Z n * ceil_sqrt_Z n
  /\ forall h, 0 <= h -> n <= h * h -> ceil_sqrt_Z n <= h.
Proof.
  intros [Hn0 Hn].
  destruct (Z.eq_dec n 0) as [->|Hne0].
  { assert (ceil_sqrt_Z 0 = 0) as -> by (vm_compute; reflexivity).
    repeat split; intros; lia. }
  destruct (Z.eq_dec n (2 ^ 52)) as [->|Hne].
  { assert (ceil_sqrt_Z (2 ^ 52) = 2 ^ 26) as -> by (vm_compute; reflexivity).
    split; [lia|]. split; [lia|]. intros h Hh Hle.
    destruct (Z.le_gt_cases (2 ^ 26) h) as [|Hgt]; [done|].
    assert (h * h <= (2 ^ 26 - 1) * (2 ^ 26 - 1)) by (apply Z.mul_le_mono_nonneg; lia).
    lia. }
  assert (0 < n < 2 ^ 52) as [Hpos Hlt] by lia. clear Hn0 Hn Hne0 Hne.
  pose proof (Zdigits2_bounds n Hpos) as [Hlo Hhi].
  pose proof (Zdigits2_pos n Hpos) as Hd0.
  assert (Zdigits2 n <= 52) as Hd.
  { assert (Zdigits2 n - 1 < 52); [|lia]. apply (Z.pow_lt_mono_r_iff 2); lia. }
  set (d := Zdigits2 n) in *.
  unfold ceil_sqrt_Z. rewrite float_of_Z_exact by lia. fold d.
  pose proof (Z.pow_pos_nonneg 2 (53 - d) ltac:(lia) ltac:(lia)) as Hp.
  assert (2 ^ d * 2 ^ (53 - d) = 2 ^ 53) as Hpow.
  { rewrite <- Z.pow_add_r by lia. f_equal. lia. }
  assert (2 * 2 ^ (53 - d - 1) = 2 ^ (53 - d)) as Hpow2.
  { rewrite <- Z.pow_succ_r by lia. f_equal. lia. }
  pose proof (Z.pow_pos_nonneg 2 (53 - d - 1) ltac:(lia) ltac:(lia)) as Hp2.
  set (mp := Z.to_pos (n * 2 ^ (53 - d))).
  assert (Zpos mp = n * 2 ^ (53 - d)) as Hmp by (unfold mp; rewrite Z2Pos.id; nia).
  destruct (SFsqrt_exact mp (d - 53)) as (M & -> & HM & Hex).
  { rewrite Hmp, Zdigits2_mul by lia. fold d. lia. }
  { lia. }
  { rewrite Hmp. nia. }
  set (e' := (d - 53) / 2 - 26) in *.
  assert (- 53 <= e' <= -27) as He'.
  { unfold e'. pose proof (Z.div_lt_upper_bound (d - 53) 2 0 ltac:(lia) ltac:(lia)).
    pose proof (Z.div_le_lower_bound (d - 53) 2 (-27) ltac:(lia) ltac:(lia)). lia. }
  set (J := 2 ^ (- e')).
  assert (2 ^ 27 <= J) as HJ by (apply (Z.pow_le_mono_r 2 27); lia).
  assert (Zpos mp * 2 ^ (d - 53 - 2 * e') = n * (J * J)) as Hm'.
  { rewrite Hmp, <- Z.mul_assoc. f_equal. unfold J.
    rewrite <- !Z.pow_add_r by lia. f_equal. lia. }
  rewrite Hm' in HM, Hex. clear Hm'.
  set (Q := Z.sqrt (n * (J * J))) in *.
  set (k := Z.sqrt n).
  pose proof (Z.sqrt_spec n ltac:(lia)) as Hk. fold k in Hk. cbv zeta in Hk.
  pose proof (Z.sqrt_nonneg n) as Hk0. fold k in Hk0.
  assert (k < 2 ^ 26) as Hk26 by (apply Z.sqrt_lt_square; lia).
  assert (k * J <= Q < (k + 1) * J) as HQ.
  { split.
    - apply Z.sqrt_le_square; nia.
    - apply Z.sqrt_lt_square; nia. }
  cbn [math_ceil]. assert (0 < M) as HM0 by nia.
  rewrite Z2Pos.id by done.
  destruct e' as [|p|p] eqn:Ee; try lia.
  change (2 ^ Zpos p) with (2 ^ (- Zneg p)). fold J.
  destruct (Z.eq_dec n (k * k)) as [Hsq|Hnsq].
  - assert (Q = k * J) as HQe.
    { unfold Q. rewrite Hsq.
      replace (k * k * (J * J)) with ((k * J) * (k * J)) by lia.
      apply Z.sqrt_square. nia. }
    rewrite Hex by (rewrite HQe, Hsq at 1; lia). rewrite HQe.
    rewrite ceil_div_exact by lia.
    split; [lia|]. split; [lia|]. intros h Hh Hle. nia.
  - assert (k * J + 1 <= Q) as HQ1.
    { apply Z.sqrt_le_square; nia. }
    rewrite (ceil_div_inexact M k J) by lia.
    split; [lia|]. split; [lia|]. intros h Hh Hle. nia.
Qed.

Theorem ceil_sqrt_least n :
  Z.of_nat n <= 2 ^ 52 ->
  (n <= ceil_sqrt n * ceil_sqrt n)%nat
  /\ forall h, (n <= h * h)%nat -> (ceil_sqrt n <= h)%nat.
Proof.
  intros Hn. destruct (ceil_sqrt_Z_least (Z.of_nat n)) as (H0 & Hle & Hleast); [lia|].
  unfold ceil_sqrt. split; [nia|].
  intros h Hh. specialize (Hleast (Z.of_nat h)). nia.
Qed.

Lemma ceil_sqrt_too_small :
  ceil_sqrt_Z (2 ^ 52 + 1) = 2 ^ 26 /\ 2 ^ 26 * 2 ^ 26 < 2 ^ 52 + 1.
Proof. split; [vm_compute; reflexivity|lia]. Qed.
End Binary64.

(* ------------------------------------------------------------------ *)
(** ** Shapes of tensors and of [nn.Linear] *)

Section TensorFacts.
Context `{!Scalar}.

Lemma rect_size m r c : rect m r c -> 0 < r -> size m = (r, c).
Proof.
  intros [Hr Hc] Hpos. unfold size. rewrite Hr. f_equal.
  destruct m as [|row m]; simpl in *; [lia|]. by inversion Hc.
Qed.

Lemma rect_full v r c : rect (torch_full v r c) r c.
Proof.
  split; unfold torch_full.
  - apply repeat_length.
  - apply Forall_forall. intros x Hx. apply list_elem_of_In, repeat_spec in Hx. subst.
    apply repeat_length.
Qed.

Lemma rect_ones r c : rect (torch_ones r c) r c.
Proof. apply rect_full. Qed.

Lemma rect_zeros r c : rect (torch_zeros r c) r c.
Proof. apply rect_full. Qed.

Lemma rect_map (f : num -> num) m r c : rect m r c -> rect (map (map f) m) r c.
Proof.
  intros [Hr Hc]. split; [by rewrite length_map|].
  apply Forall_map. eapply Forall_impl; [exact Hc|].
  intros row Hrow; simpl. by rewrite length_map.
Qed.

Lemma rect_row_lengths m r c : rect m r c <-> row_lengths m = repeat c r.
Proof.
  unfold rect, row_lengths. revert r. induction m as [|row m IH]; intros r; simpl.
  - split.
    + intros [<- _]. done.
    + destruct r; [|done]. split; [done|constructor].
  - split.
    + intros [<- Hc]. inversion Hc; subst. simpl. f_equal. by apply IH.
    + destruct r as [|r]; [done|]. simpl. intros [= Hrow Hm].
      apply IH in Hm as [Hl Hc]. split; [by rewrite Hl|by constructor].
Qed.

Lemma Linear_forward_rows l x y :
  Linear_forward l x = Ok y ->
  rect y (length x) (min (length (weight l)) (length (bias l))).
Proof.
  unfold Linear_forward. destruct (forallb _ x); [|done].
  intros [= <-]. split; [by rewrite length_map|].
  apply Forall_map, Forall_forall. intros r _. simpl.
  by rewrite length_zip_with, length_map.
Qed.

Lemma Linear_forward_ok l x :
  Forall (fun r => length r = in_features l) x ->
  Linear_forward l x
  = Ok (map (fun r => zip_with add (map (dot r) (weight l)) (bias l)) x).
Proof.
  intros Hall. unfold Linear_forward.
  assert (forallb (fun r => length r =? in_features l) x = true) as ->; [|done].
  apply forallb_forall. intros r Hr. apply Nat.eqb_eq.
  rewrite Forall_forall in Hall. apply Hall. by apply list_elem_of_In.
Qed.

Lemma Linear_forward_err l x b c :
  rect x b c -> 0 < b -> c ≠ in_features l ->
  Linear_forward l x = Err (RuntimeError_mat_shapes c (in_features l)).
Proof.
  intros Hx Hb Hc. unfold Linear_forward.
  rewrite (rect_size _ _ _ Hx Hb). simpl.
  destruct Hx as [Hl Hx].
  destruct x as [|r x]; simpl in *; [lia|].
  inversion Hx; subst.
  by apply Nat.eqb_neq in Hc as ->.
Qed.

Lemma Linear_forward_kind l x e :
  Linear_forward l x = Err e -> exists a b, e = RuntimeError_mat_shapes a b.
Proof.
  unfold Linear_forward. destruct (forallb _ x); [done|].
  intros [= <-]. by eexists _, _.
Qed.

Lemma check_target_size_err (x y : matrix) e :
  check_target_size x y = Err e -> e = ValueError_target_size (size y) (size x).
Proof. unfold check_target_size. destruct (decide _); [done|]. by intros [= <-]. Qed.

Lemma check_input_range_err (x : matrix) e :
  check_input_range x = Err e -> e = RuntimeError_input_range.
Proof. unfold check_input_range. destruct (forallb _ x); [done|]. by intros [= <-]. Qed.

Lemma check_input_range_sigmoid (x : matrix) :
  sigmoid_in_unit -> check_input_range (map (map sigmoid) x) = Ok tt.
Proof.
  intros Hs. unfold check_input_range.
  assert (forallb (forallb in_unit) (map (map sigmoid) x) = true) as ->; [|done].
  apply forallb_forall. intros r Hr. apply in_map_iff in Hr as (r' & <- & _).
  apply forallb_forall. intros v Hv. apply in_map_iff in Hv as (z & <- & _).
  apply Hs.
Qed.

Lemma dims_in_features l in_f out_f :
  Linear_shape l = dims in_f out_f -> 0 < out_f -> in_features l = in_f.
Proof.
  unfold Linear_shape, dims, in_features, size, row_lengths.
  intros [= Hw Hb] Hpos. simpl.
  destruct (weight l) as [|r w]; destruct out_f; simpl in *; try done; try lia.
  by inversion Hw.
Qed.

Lemma dims_out l in_f out_f :
  Linear_shape l = dims in_f out_f ->
  length (weight l) = out_f ∧ length (bias l) = out_f.
Proof.
  unfold Linear_shape, dims, row_lengths. intros [= Hw Hb]. split; [|done].
  apply (f_equal length) in Hw. by rewrite length_map, repeat_length in Hw.
Qed.

Lemma Linear_forward_dims l in_f out_f x b :
  Linear_shape l = dims in_f out_f -> 0 < out_f -> rect x b in_f ->
  exists y, Linear_forward l x = Ok y ∧ rect y b out_f.
Proof.
  intros Hl Hpos Hx. eexists. split.
  - apply Linear_forward_ok. rewrite (dims_in_features _ _ _ Hl Hpos). apply Hx.
  - destruct (dims_out _ _ _ Hl) as [Hw Hb]. destruct Hx as [Hn Hx].
    split; [by rewrite length_map|].
    apply Forall_map, Forall_forall. intros r _. simpl.
    rewrite length_zip_with, length_map. lia.
Qed.
End TensorFacts.

(* ------------------------------------------------------------------ *)
(** ** Shapes of the networks as constructed, and their forward passes *)

Section DrawFacts.
Context `{!Scalar} `{!Rng}.

Lemma fill_row_length draw r g : length (fill_row draw r g).1 = length r.
Proof.
  revert g. induction r as [|x r IH]; intros g; simpl; [done|].
  destruct (draw g) as [v g1]. specialize (IH g1).
  destruct (fill_row draw r g1) as [vs g2]. simpl in *. by rewrite IH.
Qed.

Lemma fill_row_lengths draw w g : row_lengths (fill_ draw w g).1 = row_lengths w.
Proof.
  revert g. induction w as [|r w IH]; intros g; simpl; [done|].
  pose proof (fill_row_length draw r g) as Hr.
  destruct (fill_row draw r g) as [r1 g1]. specialize (IH g1).
  destruct (fill_ draw w g1) as [w1 g2]. simpl in *. by rewrite Hr, IH.
Qed.

Lemma imap_row_lengths (f : nat -> list num -> list num) w :
  (forall i r, length (f i r) = length r) ->
  row_lengths (imap f w) = row_lengths w.
Proof.
  unfold row_lengths. revert f. induction w as [|r w IH]; intros f Hf; simpl; [done|].
  rewrite Hf. f_equal. apply IH. intros i r'. apply Hf.
Qed.

Lemma eye_row_lengths w : row_lengths (eye_ w) = row_lengths w.
Proof. apply imap_row_lengths. intros i r. apply length_imap. Qed.

Lemma torch_rand_rect r c g : rect (torch_rand r c g).1 r c.
Proof.
  apply rect_row_lengths. unfold torch_rand. rewrite fill_row_lengths.
  apply rect_row_lengths, rect_full.
Qed.

Lemma nn_Linear_shape in_f out_f g :
  Linear_shape (nn_Linear in_f out_f g).1 = dims in_f out_f.
Proof.
  unfold nn_Linear, Linear_shape, dims.
  pose proof (fill_row_lengths (linear_init1 in_f) (torch_zeros out_f in_f) g) as Hw.
  destruct (fill_ _ _ g) as [w g1].
  pose proof (fill_row_length (linear_init1 in_f) (repeat zero out_f) g1) as Hb.
  destruct (fill_row _ _ g1) as [b g2]. simpl in *.
  rewrite Hw, Hb, repeat_length. f_equal.
  apply rect_row_lengths, rect_full.
Qed.

Lemma Generator_init_shape d g :
  Generator.shape (Generator.__init__ d g).1 = Generator_dims d.
Proof.
  unfold Generator.__init__, Generator.shape, Generator_dims.
  pose proof (nn_Linear_shape d d g) as H1.
  destruct (nn_Linear d d g) as [l1 g1].
  pose proof (nn_Linear_shape d d g1) as H2.
  destruct (nn_Linear d d g1) as [l2 g2]. simpl in *.
  unfold Linear_shape in *. simpl. rewrite !eye_row_lengths. by rewrite H1, H2.
Qed.

Lemma Discriminator_init_shape d n g :
  Discriminator.shape (Discriminator.__init__ d n g).1
  = Discriminator_dims d (ceil_sqrt n).
Proof.
  unfold Discriminator.__init__, Discriminator.shape, Discriminator_dims.
  pose proof (nn_Linear_shape d (ceil_sqrt n) g) as H1.
  destruct (nn_Linear d (ceil_sqrt n) g) as [l1 g1].
  pose proof (nn_Linear_shape (ceil_sqrt n) 1 g1) as H2.
  destruct (nn_Linear (ceil_sqrt n) 1 g1) as [l2 g2].
  unfold kaiming_normal_.
  pose proof (fill_row_lengths (kaiming_normal1 (size (weight l1)).2 "relu")
                (weight l1) g2) as H3.
  destruct (fill_ _ (weight l1) g2) as [w1 g3].
  pose proof (fill_row_lengths (kaiming_normal1 (size (weight l2)).2 "sigmoid")
                (weight l2) g3) as H4.
  destruct (fill_ _ (weight l2) g3) as [w2 g4]. simpl in *.
  unfold Linear_shape in *. simpl. rewrite H3, H4. by rewrite H1, H2.
Qed.

Lemma Generator_forward_dims G d x b :
  Generator.shape G = Generator_dims d -> 0 < d -> rect x b d ->
  exists y, Generator.forward G x = Ok y ∧ rect y b d.
Proof.
  intros [= H1 H2 H3 H4] Hd Hx. unfold Generator.forward.
  destruct (Linear_forward_dims (Generator.layer1 G) d d x b) as (x1 & -> & Hx1);
    [by unfold Linear_shape, dims; f_equal| done | done |].
  simpl.
  destruct (Linear_forward_dims (Generator.layer2 G) d d (map (map relu) x1) b)
    as (x2 & -> & Hx2);
    [by unfold Linear_shape, dims; f_equal| done | by apply rect_map |].
  simpl. eexists; split; [done|]. by apply rect_map.
Qed.

Lemma Discriminator_forward_dims D d h x b :
  Discriminator.shape D = Discriminator_dims d h -> 0 < h -> rect x b d ->
  exists y, Discriminator.forward D x = Ok y ∧ rect y b 1.
Proof.
  intros [= H1 H2 H3 H4] Hh Hx. unfold Discriminator.forward.
  destruct (Linear_forward_dims (Discriminator.layer1 D) d h x b) as (x1 & -> & Hx1);
    [by unfold Linear_shape, dims; f_equal| done | done |].
  simpl.
  destruct (Linear_forward_dims (Discriminator.layer2 D) h 1 (map (map relu) x1) b)
    as (x2 & -> & Hx2);
    [by unfold Linear_shape, dims; f_equal| lia | by apply rect_map |].
  simpl. eexists; split; [done|]. by apply rect_map.
Qed.

Lemma Discriminator_forward_rows D d h x y :
  Discriminator.shape D = Discriminator_dims d h ->
  Discriminator.forward D x = Ok y -> rect y (length x) 1.
Proof.
  intros [= H1 H2 H3 H4]. unfold Discriminator.forward.
  destruct (Linear_forward _ x) as [x1|] eqn:E1; [|done]. simpl.
  destruct (Linear_forward _ (map _ x1)) as [x2|] eqn:E2; [|done]. simpl.
  intros [= <-]. apply rect_map.
  apply Linear_forward_rows in E1 as [E1 _], E2.
  rewrite length_map, E1 in E2.
  destruct (dims_out (Discriminator.layer2 D) h 1) as [Hw Hb];
    [by unfold Linear_shape, dims; f_equal|].
  rewrite Hw, Hb in E2. done.
Qed.

Lemma Generator_forward_kind G x e :
  Generator.forward G x = Err e -> exists a b, e = RuntimeError_mat_shapes a b.
Proof.
  unfold Generator.forward.
  destruct (Linear_forward _ x) as [x1|e1] eqn:E1; simpl;
    [|intros [= <-]; by eapply Linear_forward_kind].
  destruct (Linear_forward _ (map _ x1)) as [x2|e2] eqn:E2; simpl; [done|].
  intros [= <-]. by eapply Linear_forward_kind.
Qed.

Lemma Discriminator_forward_kind D x e :
  Discriminator.forward D x = Err e -> exists a b, e = RuntimeError_mat_shapes a b.
Proof.
  unfold Discriminator.forward.
  destruct (Linear_forward _ x) as [x1|e1] eqn:E1; simpl;
    [|intros [= <-]; by eapply Linear_forward_kind].
  destruct (Linear_forward _ (map _ x1)) as [x2|e2] eqn:E2; simpl; [done|].
  intros [= <-]. by eapply Linear_forward_kind.
Qed.

(** Every entry of an output of the discriminator is a value of the
    sigmoid: that of the corresponding entry of the second layer's
    output. *)
Lemma Discriminator_forward_sigmoid D x y :
  Discriminator.forward D x = Ok y ->
  exists x1 x2,
    Linear_forward (Discriminator.layer1 D) x = Ok x1
    ∧ Linear_forward (Discriminator.layer2 D) (map (map relu) x1) = Ok x2
    ∧ y = map (map sigmoid) x2.
Proof.
  unfold Discriminator.forward.
  destruct (Linear_forward _ x) as [x1|e1] eqn:E1; simpl; [|done].
  destruct (Linear_forward _ (map _ x1)) as [x2|e2] eqn:E2; simpl; [|done].
  intros [= <-]. by exists x1, x2.
Qed.

Lemma Discriminator_forward_in_unit D x y :
  sigmoid_in_unit -> Discriminator.forward D x = Ok y -> check_input_range y = Ok tt.
Proof.
  intros Hs E. apply Discriminator_forward_sigmoid in E as (x1 & x2 & _ & _ & ->).
  by apply check_input_range_sigmoid.
Qed.

Lemma Discriminator_forward_err D d h x b c :
  Discriminator.shape D = Discriminator_dims d h -> 0 < h ->
  rect x b c -> 0 < b -> c ≠ d ->
  Discriminator.forward D x = Err (RuntimeError_mat_shapes c d).
Proof.
  intros [= H1 H2 H3 H4] Hh Hx Hb Hc. unfold Discriminator.forward.
  assert (in_features (Discriminator.layer1 D) = d) as Hin.
  { apply (dims_in_features _ d h); [by unfold Linear_shape, dims; f_equal|done]. }
  rewrite (Linear_forward_err _ x b c); [by rewrite Hin|done|done|by rewrite Hin].
Qed.
End DrawFacts.

(* ------------------------------------------------------------------ *)
(** ** The batches of a pass *)

Section BatchFacts.
Context {A : Type}.

Lemma batch_sampler_lengths bs (acc l : list A) :
  length acc < bs ->
  map length (batch_sampler bs acc l) = batch_sizes (length acc + length l) bs.
Proof.
  revert acc. induction l as [|x l IH]; intros acc Hacc; simpl.
  - unfold batch_sizes. rewrite Nat.add_0_r, Nat.div_small, Nat.mod_small by done.
    destruct acc; simpl; done.
  - rewrite length_app. simpl.
    destruct (Nat.eqb_spec (length acc + 1) bs) as [E|E]; simpl.
    + rewrite IH by (simpl; lia). simpl. rewrite length_app. simpl.
      unfold batch_sizes.
      replace (length acc + S (length l)) with (1 * bs + length l) by lia.
      rewrite Nat.div_add_l by lia.
      rewrite (Nat.add_comm (1 * bs)), Nat.Div0.mod_add. simpl. by rewrite E.
    + rewrite IH by (rewrite length_app; simpl; lia).
      rewrite length_app. simpl. f_equal. lia.
Qed.

Lemma batch_sampler_Forall (P : A -> Prop) bs (acc l : list A) :
  Forall P acc -> Forall P l -> Forall (Forall P) (batch_sampler bs acc l).
Proof.
  revert acc. induction l as [|x l IH]; intros acc Hacc Hl; simpl.
  - destruct acc; constructor; [done|constructor].
  - inversion Hl; subst.
    assert (Forall P (acc ++ [x])) by (apply Forall_app; split; [done|by constructor]).
    destruct (_ =? _); [constructor; [done|]|]; apply IH; done.
Qed.
End BatchFacts.

(* ------------------------------------------------------------------ *)
(** ** One batch *)

Section LoopFacts.
Context `{!Scalar} `{!Rng} `{!Optim}.

Ltac unfold_batch :=
  unfold train_batch, discriminate_generated, read_trick_labels, step_d, step_g,
    history_append, record, rand, criterion, bind, gets, modify, lift, ret,
    Frame.set_discriminator, Frame.set_generator, Frame.set_train_history,
    Frame.set_optimizer_d, Frame.set_optimizer_g, Frame.set_trick_labels,
    Frame.set_torch_rng, Frame.set_calls.

Ltac run_all :=
  repeat match goal with
  | E : context [match ?x with _ => _ end] |- _ =>
      let Hx := fresh "E" in destruct x eqn:Hx; simpl in E
  end.

Lemma hist_len_append_eq key v (h : gmap string (list num)) :
  hist_len key (<[key := default [] (h !! key) ++ [v]]> h) = S (hist_len key h).
Proof. unfold hist_len. rewrite lookup_insert_eq. simpl. rewrite length_app. simpl. lia. Qed.

Lemma hist_len_append_ne key key' v (h : gmap string (list num)) :
  key ≠ key' ->
  hist_len key' (<[key := default [] (h !! key) ++ [v]]> h) = hist_len key' h.
Proof. intros Hne. unfold hist_len. by rewrite lookup_insert_ne. Qed.

(** A batch never assigns [stop], and keeps the shapes of the networks,
    whatever its outcome. *)
Lemma train_batch_stop d b f f' r :
  train_batch d b f = (f', r) -> Frame.stop f' = Frame.stop f.
Proof. unfold_batch. intros E. simpl in E. run_all; simplify_eq; done. Qed.

Lemma train_batch_wf d h b f f' r :
  train_batch d b f = (f', r) -> wf_frame d h f -> wf_frame d h f'.
Proof.
  unfold_batch. intros E [HD HG]. simpl in E.
  run_all; simplify_eq; split; simpl; try done;
    repeat match goal with
    | E : backward_step_d ?o ?D ?x ?y = _ |- _ =>
        pose proof (backward_step_d_shape o D x y) as ?; rewrite E in *; clear E
    | E : backward_step_g ?o ?G ?D ?x ?y = _ |- _ =>
        pose proof (backward_step_g_shape o G D x y) as ?; rewrite E in *; clear E
    end; simpl in *; congruence.
Qed.

(** With [stop] set, a batch leaves the generator, its optimiser and
    the local [trick_labels] as they were, whatever its outcome. *)
Lemma train_batch_frozen d b f f' r :
  train_batch d b f = (f', r) -> Frame.stop f ≠ 0 ->
  Frame.generator f' = Frame.generator f
  ∧ Frame.optimizer_g f' = Frame.optimizer_g f
  ∧ Frame.trick_labels f' = Frame.trick_labels f.
Proof.
  unfold_batch. intros E Hstop. simpl in E.
  run_all; simplify_eq; simpl; try done;
    match goal with E : (_ =? 0) = true |- _ => apply Nat.eqb_eq in E; done end.
Qed.

(** With [stop] at 0, a completed batch leaves [trick_labels] bound to
    the labels of its own size. *)
Lemma train_batch_growing_labels d b f f' :
  train_batch d b f = (f', Ok tt) -> Frame.stop f = 0 ->
  Frame.trick_labels f' = Some (torch_ones (length b) 1).
Proof.
  unfold_batch. intros E Hstop. simpl in E.
  run_all; simplify_eq; simpl; try done;
    match goal with E : (_ =? 0) = false |- _ => apply Nat.eqb_neq in E; done end.
Qed.

(** A completed batch has stepped the optimisers as [stop] says and has
    appended one entry to each loss sequence. *)
Lemma train_batch_calls d b f f' :
  train_batch d b f = (f', Ok tt) ->
  Frame.calls f' = Frame.calls f ++ batch_calls (Frame.stop f).
Proof.
  unfold_batch. unfold batch_calls. intros E. simpl in E.
  run_all; simplify_eq; simpl in *; rewrite <- ?app_assoc;
    by destruct (Frame.stop f =? 0).
Qed.

Lemma train_batch_history d b f f' :
  train_batch d b f = (f', Ok tt) ->
  hist_len "discriminator_loss" (Frame.train_history f')
    = S (hist_len "discriminator_loss" (Frame.train_history f))
  ∧ hist_len "generator_loss" (Frame.train_history f')
    = S (hist_len "generator_loss" (Frame.train_history f)).
Proof.
  unfold_batch. intros E. simpl in E.
  run_all; simplify_eq; simpl;
    rewrite ?hist_len_append_eq;
    rewrite ?(hist_len_append_ne "generator_loss" "discriminator_loss") by discriminate;
    rewrite ?(hist_len_append_ne "discriminator_loss" "generator_loss") by discriminate;
    rewrite ?hist_len_append_eq; done.
Qed.

(** What a completed batch has done to the two networks: the
    discriminator and its optimiser are the result of one step on this
    batch and the generated data; the generator and its optimiser are the
    result of one step, taken against the discriminator as this batch has
    already updated it, when [stop] is 0, and are untouched otherwise. *)
Lemma train_batch_updates d b f f' :
  train_batch d b f = (f', Ok tt) ->
  exists noise g1 generated_data,
    torch_rand (length b) d (Frame.torch_rng f) = (noise, g1)
    ∧ Generator.forward (Frame.generator f) noise = Ok generated_data
    ∧ (Frame.discriminator f', Frame.optimizer_d f')
      = backward_step_d (Frame.optimizer_d f) (Frame.discriminator f)
          b generated_data
    ∧ (Frame.generator f', Frame.optimizer_g f')
      = if Frame.stop f =? 0
        then backward_step_g (Frame.optimizer_g f) (Frame.generator f)
               (Frame.discriminator f') noise (torch_ones (length b) 1)
        else (Frame.generator f, Frame.optimizer_g f).
Proof.
  unfold_batch. intros E. simpl in E.
  run_all; simplify_eq; simpl in *;
    (do 3 eexists; split; [done|]; split; [done|]);
    destruct (Frame.stop f =? 0); simplify_eq; split; congruence.
Qed.

Lemma check_target_size_ok (x y : matrix) b c :
  rect x b c -> rect y b c -> 0 < b -> check_target_size x y = Ok tt.
Proof.
  intros Hx Hy Hb. unfold check_target_size.
  rewrite (rect_size _ _ _ Hx Hb), (rect_size _ _ _ Hy Hb).
  by destruct (decide _).
Qed.

(** A raising batch has not appended a generator loss. *)
Lemma train_batch_err_history d b f f' e :
  train_batch d b f = (f', Err e) ->
  hist_len "generator_loss" (Frame.train_history f')
  = hist_len "generator_loss" (Frame.train_history f).
Proof.
  unfold_batch. intros E. simpl in E.
  run_all; simplify_eq; simpl;
    rewrite ?(hist_len_append_ne "discriminator_loss" "generator_loss") by discriminate;
    done.
Qed.

(** In an arithmetic without NaN no batch raises the range error of
    [BCELoss]. *)
Lemma train_batch_in_unit d b f f' e :
  sigmoid_in_unit -> train_batch d b f = (f', Err e) -> e ≠ RuntimeError_input_range.
Proof.
  intros Hs. unfold_batch. unfold rbind. intros E. simpl in E.
  run_all; simplify_eq; intros Heq; simplify_eq;
    repeat match goal with
    | E : Generator.forward _ _ = Err _ |- _ =>
        apply Generator_forward_kind in E as (? & ? & ?); simplify_eq
    | E : Discriminator.forward _ _ = Err _ |- _ =>
        apply Discriminator_forward_kind in E as (? & ? & ?); simplify_eq
    | E : check_target_size _ _ = Err _ |- _ =>
        apply check_target_size_err in E; simplify_eq
    | E1 : Discriminator.forward _ _ = Ok ?y,
      E2 : check_input_range ?y = Err _ |- _ =>
        rewrite (Discriminator_forward_in_unit _ _ _ Hs E1) in E2; simplify_eq
    end.
Qed.

Ltac range_step side :=
  match goal with
  | |- context [check_input_range ?o] =>
      let R := fresh "R" in
      destruct (check_input_range o) as [[]|?] eqn:R; simpl;
      [|intros [= <- <-]; side; f_equal; by eapply check_input_range_err]
  end.

(** When [stop] is 0, and when the labels left in [trick_labels] have
    the size of the batch, a batch completes unless [BCELoss] meets an input
    outside [0, 1]: the shapes fit. *)
Lemma train_batch_ok d h b f f' r :
  wf_frame d h f -> 0 < d -> 0 < h -> 0 < length b ->
  Forall (fun r => length r = d) b ->
  (Frame.stop f = 0
   ∨ exists L, Frame.trick_labels f = Some L ∧ size L = (length b, 1)) ->
  train_batch d b f = (f', r) -> ok_or_range r.
Proof.
  intros [HD HG] Hd Hh Hb Hrows Hlab.
  unfold_batch. unfold ok_or_range. simpl.
  pose proof (torch_rand_rect (length b) d (Frame.torch_rng f)) as Hnoise.
  destruct (torch_rand (length b) d (Frame.torch_rng f)) as [noise g1]. simpl in *.
  destruct (Generator_forward_dims _ d noise _ HG Hd Hnoise) as (gen & Egen & Hgen).
  rewrite Egen. simpl.
  destruct (Discriminator_forward_dims _ d h b (length b) HD Hh) as (o_real & -> & Hreal);
    [by split|]. simpl.
  destruct (Discriminator_forward_dims _ d h gen (length b) HD Hh Hgen)
    as (o_fake & -> & Hfake). simpl.
  rewrite (check_target_size_ok o_real _ (length b) 1 Hreal (rect_ones _ _) Hb).
  simpl. range_step ltac:(right).
  rewrite (check_target_size_ok o_fake _ (length b) 1 Hfake (rect_zeros _ _) Hb).
  simpl. range_step ltac:(right).
  pose proof (backward_step_d_shape (Frame.optimizer_d f) (Frame.discriminator f)
                b gen) as HD'.
  destruct (backward_step_d _ _ b gen) as [D' od]. simpl in *.
  rewrite HD in HD'.
  destruct (Discriminator_forward_dims _ d h gen (length b) HD' Hh Hgen)
    as (o_gen & Eo & Hout).
  destruct (Nat.eqb_spec (Frame.stop f) 0) as [E|E]; simpl.
  - rewrite Egen. simpl. rewrite Eo. simpl.
    rewrite (check_target_size_ok o_gen _ (length b) 1 Hout (rect_ones _ _) Hb).
    simpl. range_step ltac:(right). destruct (backward_step_g _ _ _ _ _). simpl.
    intros [= <- <-]. by left.
  - destruct Hlab as [?|(L & HL & Hsize)]; [done|].
    rewrite Egen. simpl. rewrite Eo. simpl. rewrite HL. simpl.
    unfold check_target_size. rewrite Hsize, (rect_size _ _ _ Hout Hb).
    destruct (decide _); [|done]. simpl. range_step ltac:(right).
    intros [= <- <-]. by left.
Qed.

(** With [stop] set and labels of another size left in [trick_labels],
    a batch steps the discriminator, records its loss, and raises on the
    generator loss, unless [BCELoss] has met an input outside [0, 1]
    before. *)
Lemma train_batch_stale d h b f L f' r :
  wf_frame d h f -> 0 < d -> 0 < h -> 0 < length b ->
  Forall (fun r => length r = d) b ->
  Frame.stop f ≠ 0 -> Frame.trick_labels f = Some L -> size L ≠ (length b, 1) ->
  train_batch d b f = (f', r) ->
  r = Err RuntimeError_input_range
  ∨ r = Err (ValueError_target_size (size L) (length b, 1))
    ∧ hist_len "discriminator_loss" (Frame.train_history f')
      = S (hist_len "discriminator_loss" (Frame.train_history f))
    ∧ Frame.calls f' = Frame.calls f ++ [optimizer_d_step].
Proof.
  intros [HD HG] Hd Hh Hb Hrows Hstop HL Hsize.
  unfold_batch. simpl.
  pose proof (torch_rand_rect (length b) d (Frame.torch_rng f)) as Hnoise.
  destruct (torch_rand (length b) d (Frame.torch_rng f)) as [noise g1]. simpl in *.
  destruct (Generator_forward_dims _ d noise _ HG Hd Hnoise) as (gen & Egen & Hgen).
  rewrite Egen. simpl.
  destruct (Discriminator_forward_dims _ d h b (length b) HD Hh) as (o_real & -> & Hreal);
    [by split|]. simpl.
  destruct (Discriminator_forward_dims _ d h gen (length b) HD Hh Hgen)
    as (o_fake & -> & Hfake). simpl.
  rewrite (check_target_size_ok o_real _ (length b) 1 Hreal (rect_ones _ _) Hb).
  simpl. range_step ltac:(left).
  rewrite (check_target_size_ok o_fake _ (length b) 1 Hfake (rect_zeros _ _) Hb).
  simpl. range_step ltac:(left).
  pose proof (backward_step_d_shape (Frame.optimizer_d f) (Frame.discriminator f)
                b gen) as HD'.
  destruct (backward_step_d _ _ b gen) as [D' od]. simpl in *.
  rewrite HD in HD'.
  destruct (Discriminator_forward_dims _ d h gen (length b) HD' Hh Hgen)
    as (o_gen & Eo & Hout).
  apply Nat.eqb_neq in Hstop. rewrite Hstop. simpl.
  rewrite Egen. simpl. rewrite Eo. simpl. rewrite HL. simpl.
  unfold check_target_size. rewrite (rect_size _ _ _ Hout Hb).
  destruct (decide _); [done|]. simpl. intros [= <- <-]. right.
  split; [done|]. simpl.
  rewrite hist_len_append_eq. done.
Qed.
End LoopFacts.

(* ------------------------------------------------------------------ *)
(** ** One epoch *)

Section EpochFacts.
Context `{!Scalar} `{!Rng} `{!Optim}.

Lemma for_each_app {A} (body : A -> M unit) l1 l2 f :
  for_each body (l1 ++ l2) f
  = match for_each body l1 f with
    | (f1, Ok _) => for_each body l2 f1
    | (f1, Err e) => (f1, Err e)
    end.
Proof.
  revert f. induction l1 as [|x l1 IH]; intros f; simpl; [done|].
  unfold bind. destruct (body x f) as [f1 [[]|e]]; [apply IH|done].
Qed.

(** What holds of a frame after a loop over batches, whatever the
    outcome. *)
Lemma batches_frame d h bs f f' r :
  for_each (train_batch d) bs f = (f', r) ->
  Frame.stop f' = Frame.stop f
  ∧ (wf_frame d h f -> wf_frame d h f')
  ∧ (Frame.stop f ≠ 0 ->
     Frame.generator f' = Frame.generator f
     ∧ Frame.optimizer_g f' = Frame.optimizer_g f
     ∧ Frame.trick_labels f' = Frame.trick_labels f).
Proof.
  revert f. induction bs as [|b bs IH]; intros f; simpl.
  - intros [= <- <-]. done.
  - unfold bind. destruct (train_batch d b f) as [f1 r1] eqn:E1.
    pose proof (train_batch_stop _ _ _ _ _ E1) as Hs.
    pose proof (train_batch_wf _ h _ _ _ _ E1) as Hw.
    pose proof (train_batch_frozen _ _ _ _ _ E1) as Hf.
    destruct r1 as [[]|e].
    + intros E. apply IH in E as (Hs' & Hw' & Hf').
      split; [congruence|]. split; [auto|].
      intros Hne. destruct (Hf Hne) as (Hg1 & Hg2 & Hg3).
      destruct Hf' as (Hg1' & Hg2' & Hg3'); [congruence|].
      repeat split; congruence.
    + intros [= <- <-]. done.
Qed.

(** What a completed loop over batches has done. *)
Lemma batches_done d bs f f' :
  for_each (train_batch d) bs f = (f', Ok tt) ->
  Frame.calls f'
    = Frame.calls f ++ concat (repeat (batch_calls (Frame.stop f)) (length bs))
  ∧ hist_len "discriminator_loss" (Frame.train_history f')
    = hist_len "discriminator_loss" (Frame.train_history f) + length bs
  ∧ hist_len "generator_loss" (Frame.train_history f')
    = hist_len "generator_loss" (Frame.train_history f) + length bs.
Proof.
  revert f. induction bs as [|b bs IH]; intros f; simpl.
  - intros [= <-]. rewrite app_nil_r. repeat split; lia.
  - unfold bind. destruct (train_batch d b f) as [f1 [[]|e]] eqn:E1; [|done].
    intros E. apply IH in E as (-> & -> & ->).
    rewrite (train_batch_calls _ _ _ _ E1), (train_batch_stop _ _ _ _ _ E1).
    destruct (train_batch_history _ _ _ _ E1) as [-> ->].
    rewrite <- app_assoc. repeat split; lia.
Qed.

(** However a loop over batches ends, it has appended at most one
    generator loss per batch. *)
Lemma batches_history_bound d bs f f' r :
  for_each (train_batch d) bs f = (f', r) ->
  hist_len "generator_loss" (Frame.train_history f')
  <= hist_len "generator_loss" (Frame.train_history f) + length bs.
Proof.
  revert f. induction bs as [|b bs IH]; intros f; simpl.
  - intros [= <- <-]. lia.
  - unfold bind. destruct (train_batch d b f) as [f1 [[]|e]] eqn:E1.
    + intros E. apply IH in E.
      destruct (train_batch_history _ _ _ _ E1) as [_ Hg]. lia.
    + intros [= <- <-]. rewrite (train_batch_err_history _ _ _ _ _ E1). lia.
Qed.

Lemma batches_in_unit d bs f f' e :
  sigmoid_in_unit -> for_each (train_batch d) bs f = (f', Err e) ->
  e ≠ RuntimeError_input_range.
Proof.
  intros Hs. revert f. induction bs as [|b bs IH]; intros f; simpl; [done|].
  unfold bind. destruct (train_batch d b f) as [f1 [[]|e1]] eqn:E1.
  - apply IH.
  - intros [= <- <-]. by eapply train_batch_in_unit.
Qed.

Lemma ceil_div_spec n b :
  0 < b -> n <= ceil_div n b * b ∧ forall q, n <= q * b -> ceil_div n b <= q.
Proof.
  intros Hb. unfold ceil_div.
  pose proof (Nat.div_mod_eq n b) as Hn.
  pose proof (Nat.mod_upper_bound n b ltac:(lia)) as Hr.
  destruct (Nat.eqb_spec (n mod b) 0) as [E|E]; split; nia.
Qed.

Lemma length_batch_sizes n b : length (batch_sizes n b) = ceil_div n b.
Proof.
  unfold batch_sizes, ceil_div. rewrite length_app, repeat_length.
  by destruct (_ =? _).
Qed.

Lemma DataLoader_iter_sizes ds bsz g :
  0 < bsz ->
  map length (DataLoader_iter ds bsz g).1 = batch_sizes (length ds) bsz.
Proof.
  intros Hb. unfold DataLoader_iter.
  pose proof (shuffle_perm g ds) as Hp. destruct (shuffle g ds) as [rows g1].
  simpl in *. rewrite batch_sampler_lengths by (simpl; lia). simpl.
  by rewrite (Permutation_length Hp).
Qed.

Lemma DataLoader_iter_length ds bsz g :
  0 < bsz -> length (DataLoader_iter ds bsz g).1 = ceil_div (length ds) bsz.
Proof.
  intros Hb. rewrite <- length_batch_sizes, <- (DataLoader_iter_sizes ds bsz g Hb).
  by rewrite length_map.
Qed.

Lemma DataLoader_iter_rows ds bsz g d :
  Forall (fun r => length r = d) ds ->
  Forall (Forall (fun r => length r = d)) (DataLoader_iter ds bsz g).1.
Proof.
  intros Hds. unfold DataLoader_iter.
  pose proof (shuffle_perm g ds) as Hp. destruct (shuffle g ds) as [rows g1].
  simpl in *. apply batch_sampler_Forall; [constructor|].
  by rewrite Hp.
Qed.

Ltac unfold_epoch :=
  unfold train_epoch, iter_dataloader, record, bind, modify, ret,
    Frame.set_calls, Frame.set_torch_rng, Frame.set_stop.

(** What holds of a frame after an epoch, whatever the outcome. *)
Lemma epoch_frame ds bsz d h epochs se e f f' r :
  train_epoch ds bsz d epochs se e f = (f', r) ->
  (wf_frame d h f -> wf_frame d h f')
  ∧ (Frame.stop f ≠ 0 ->
     Frame.stop f' ≠ 0
     ∧ Frame.generator f' = Frame.generator f
     ∧ Frame.optimizer_g f' = Frame.optimizer_g f
     ∧ Frame.trick_labels f' = Frame.trick_labels f).
Proof.
  unfold_epoch. simpl.
  destruct (DataLoader_iter ds bsz (Frame.torch_rng f)) as [bs g1]. simpl.
  match goal with |- context [for_each _ bs ?f0] =>
    destruct (for_each (train_batch d) bs f0) as [f1 r1] eqn:E1 end.
  apply (batches_frame d h) in E1 as (Hs & Hw & Hf). simpl in *.
  destruct r1 as [[]|err].
  - destruct (se <? e + 1); intros [= <- <-]; simpl;
      (split; [done|]); intros Hne; destruct (Hf Hne) as (? & ? & ?);
      repeat split; try done; congruence.
  - intros [= <- <-]. split; [done|]. intros Hne. destruct (Hf Hne) as (? & ? & ?).
    repeat split; try done; congruence.
Qed.

Lemma epoch_history_bound ds bsz d epochs se e f f' r :
  0 < bsz ->
  train_epoch ds bsz d epochs se e f = (f', r) ->
  hist_len "generator_loss" (Frame.train_history f')
  <= hist_len "generator_loss" (Frame.train_history f) + ceil_div (length ds) bsz.
Proof.
  intros Hb. unfold_epoch. simpl.
  pose proof (DataLoader_iter_length ds bsz (Frame.torch_rng f) Hb) as Hn.
  destruct (DataLoader_iter ds bsz (Frame.torch_rng f)) as [bs g1]. simpl in *.
  match goal with |- context [for_each _ bs ?f0] =>
    destruct (for_each (train_batch d) bs f0) as [f1 r1] eqn:E1 end.
  apply batches_history_bound in E1. simpl in E1. rewrite Hn in E1.
  destruct r1 as [[]|err].
  - destruct (se <? e + 1); intros [= <- <-]; done.
  - by intros [= <- <-].
Qed.

Lemma epoch_in_unit ds bsz d epochs se e f f' err :
  sigmoid_in_unit -> train_epoch ds bsz d epochs se e f = (f', Err err) ->
  err ≠ RuntimeError_input_range.
Proof.
  intros Hs. unfold_epoch. simpl.
  destruct (DataLoader_iter ds bsz (Frame.torch_rng f)) as [bs g1]. simpl.
  match goal with |- context [for_each _ bs ?f0] =>
    destruct (for_each (train_batch d) bs f0) as [f1 [[]|e1]] eqn:E1 end.
  - by destruct (se <? e + 1).
  - intros [= <- <-]. by eapply batches_in_unit.
Qed.

(** What a completed epoch has done. *)
Lemma epoch_done ds bsz d epochs se e f f' :
  0 < bsz ->
  train_epoch ds bsz d epochs se e f = (f', Ok tt) ->
  Frame.calls f'
    = Frame.calls f ++ print_epoch (e + 1) epochs
        :: concat (repeat (batch_calls (Frame.stop f)) (ceil_div (length ds) bsz))
  ∧ hist_len "discriminator_loss" (Frame.train_history f')
    = hist_len "discriminator_loss" (Frame.train_history f) + ceil_div (length ds) bsz
  ∧ hist_len "generator_loss" (Frame.train_history f')
    = hist_len "generator_loss" (Frame.train_history f) + ceil_div (length ds) bsz
  ∧ Frame.stop f' = (if se <? e + 1 then 1 else Frame.stop f).
Proof.
  intros Hb. unfold_epoch. simpl.
  pose proof (DataLoader_iter_length ds bsz (Frame.torch_rng f) Hb) as Hn.
  destruct (DataLoader_iter ds bsz (Frame.torch_rng f)) as [bs g1]. simpl in *.
  match goal with |- context [for_each _ bs ?f0] =>
    destruct (for_each (train_batch d) bs f0) as [f1 [[]|err]] eqn:E1 end; [|done].
  pose proof (batches_frame d 0 _ _ _ _ E1) as (Hs & _ & _).
  apply batches_done in E1 as (Hc & Hd & Hg). simpl in *. rewrite Hn in *.
  destruct (se <? e + 1); intros [= <-]; simpl; rewrite Hc, Hd, Hg, <- ?app_assoc;
    done.
Qed.
End EpochFacts.


(* ------------------------------------------------------------------ *)
(** ** The loop over epochs *)

Section LoopRun.
Context `{!Scalar} `{!Rng} `{!Optim}.

Lemma training_loop_S self X k f0 :
  SO_GAAL.training_loop self X (S k) f0
  = match SO_GAAL.training_loop self X k f0 with
    | (f1, Ok _) =>
        train_epoch (torch_tensor X) (min 500 (size X).1) (size X).2
          (SO_GAAL.stop_epochs self * 3) (SO_GAAL.stop_epochs self) k f1
    | (f1, Err e) => (f1, Err e)
    end.
Proof.
  unfold SO_GAAL.training_loop. rewrite seq_S, for_each_app. simpl.
  destruct (for_each _ (seq 0 k) f0) as [f1 [[]|e]]; [|done].
  unfold bind. by destruct (train_epoch _ _ _ _ _ k f1) as [f2 [[]|e]].
Qed.

Lemma training_loop_frame self X k f0 f r h :
  SO_GAAL.training_loop self X k f0 = (f, r) ->
  wf_frame (size X).2 h f0 -> wf_frame (size X).2 h f.
Proof.
  revert f r. induction k as [|k IH]; intros f r.
  - intros [= <- <-]. done.
  - rewrite training_loop_S.
    destruct (SO_GAAL.training_loop self X k f0) as [f1 [[]|e]].
    + intros E Hw. apply (epoch_frame _ _ _ h) in E as [Hw' _].
      apply Hw'. by eapply IH.
    + intros [= <- <-] Hw. by eapply IH.
Qed.

Lemma training_loop_done self X k f0 f :
  0 < length X -> Frame.stop f0 = 0 ->
  SO_GAAL.training_loop self X k f0 = (f, Ok tt) ->
  let se := SO_GAAL.stop_epochs self in
  let nb := ceil_div (length X) (min 500 (length X)) in
  Frame.calls f = Frame.calls f0 ++ expected_calls se (se * 3) nb k
  ∧ hist_len "discriminator_loss" (Frame.train_history f)
    = hist_len "discriminator_loss" (Frame.train_history f0) + k * nb
  ∧ hist_len "generator_loss" (Frame.train_history f)
    = hist_len "generator_loss" (Frame.train_history f0) + k * nb
  ∧ Frame.stop f = stop_in_epoch se k.
Proof.
  intros Hn Hs0. revert f. induction k as [|k IH]; intros f.
  - intros [= <-]. simpl. rewrite app_nil_r. unfold stop_in_epoch. simpl.
    repeat split; lia.
  - rewrite training_loop_S.
    destruct (SO_GAAL.training_loop self X k f0) as [f1 [[]|e]]; [|done].
    destruct (IH f1 eq_refl) as (Hc & Hd & Hg & Hs). intros E.
    apply epoch_done in E as (Hc' & Hd' & Hg' & Hs'); [|simpl; lia].
    simpl in *. unfold torch_tensor in *. rewrite length_map in *.
    rewrite Hc', Hd', Hg', Hs', Hc, Hd, Hg, Hs.
    unfold expected_calls. rewrite seq_S, flat_map_app. simpl.
    rewrite app_nil_r, <- app_assoc.
    repeat split; try lia.
    unfold stop_in_epoch.
    destruct (Nat.ltb_spec (SO_GAAL.stop_epochs self) (k + 1));
      destruct (Nat.leb_spec (S k) (SO_GAAL.stop_epochs self));
      destruct (Nat.leb_spec k (SO_GAAL.stop_epochs self)); lia.
Qed.

Lemma training_loop_history_bound self X k f0 f r :
  0 < length X ->
  SO_GAAL.training_loop self X k f0 = (f, r) ->
  hist_len "generator_loss" (Frame.train_history f)
  <= hist_len "generator_loss" (Frame.train_history f0)
     + k * ceil_div (length X) (min 500 (length X)).
Proof.
  intros Hn. revert f r. induction k as [|k IH]; intros f r.
  - intros [= <- <-]. lia.
  - rewrite training_loop_S.
    destruct (SO_GAAL.training_loop self X k f0) as [f1 [[]|e]] eqn:E1.
    + intros E. apply epoch_history_bound in E; [|simpl; lia].
      specialize (IH f1 (Ok tt) eq_refl).
      unfold torch_tensor in E. rewrite length_map in E. simpl in *. lia.
    + intros [= <- <-]. specialize (IH f1 (Err e) eq_refl). lia.
Qed.

Lemma training_loop_in_unit self X k f0 f e :
  sigmoid_in_unit -> SO_GAAL.training_loop self X k f0 = (f, Err e) ->
  e ≠ RuntimeError_input_range.
Proof.
  intros Hs. revert f e. induction k as [|k IH]; intros f e; [done|].
  rewrite training_loop_S.
  destruct (SO_GAAL.training_loop self X k f0) as [f1 [[]|e1]] eqn:E1.
  - by apply epoch_in_unit.
  - intros [= <- <-]. by eapply IH.
Qed.
End LoopRun.

(* ------------------------------------------------------------------ *)
(** ** [fit], taken apart *)

Section FitFacts.
Context `{!Scalar} `{!Rng} `{!Optim}.

Lemma check_array_ok X X' :
  check_array X = Ok X' ->
  X' = X ∧ 0 < length X ∧ 0 < (size X).2 ∧ rect X (length X) (size X).2.
Proof.
  unfold check_array. destruct X as [|r X]; [done|].
  destruct (_ && _) eqn:E; [|done]. intros [= <-].
  apply andb_prop in E as [E _]. apply andb_prop in E as [Hd Hrows].
  apply Nat.ltb_lt in Hd. split; [done|]. split; [simpl; lia|]. split; [done|].
  split; [done|]. apply Forall_forall. intros r' Hr'.
  rewrite forallb_forall in Hrows. apply Nat.eqb_eq, Hrows.
  by apply list_elem_of_In.
Qed.

Lemma rect_ravel (m : matrix) r c : rect m r c -> length (ravel m) = r * c.
Proof.
  intros [<- Hc]. unfold ravel. induction Hc as [|row m Hrow Hc IH]; simpl; [done|].
  rewrite length_app, IH, Hrow. done.
Qed.

Lemma initial_frame_wf self d n g :
  wf_frame d (ceil_sqrt n) (SO_GAAL.initial_frame self d n g).
Proof.
  unfold SO_GAAL.initial_frame, wf_frame.
  pose proof (Discriminator_init_shape d n g) as HD.
  destruct (Discriminator.__init__ d n g) as [D g1].
  pose proof (Generator_init_shape d g1) as HG.
  destruct (Generator.__init__ d g1) as [G g2]. done.
Qed.

Lemma initial_frame_start self d n g :
  let f := SO_GAAL.initial_frame self d n g in
  Frame.stop f = 0 ∧ Frame.calls f = [] ∧ Frame.train_history f = ∅
  ∧ Frame.trick_labels f = None.
Proof.
  unfold SO_GAAL.initial_frame.
  destruct (Discriminator.__init__ d n g) as [D g1].
  destruct (Generator.__init__ d g1) as [G g2]. done.
Qed.

Lemma decision_scores_with_scores self scores :
  SO_GAAL.decision_scores_ (SO_GAAL.with_scores self scores) = Some scores
  ∧ SO_GAAL.discriminator (SO_GAAL.with_scores self scores)
    = SO_GAAL.discriminator self
  ∧ SO_GAAL.train_history (SO_GAAL.with_scores self scores)
    = SO_GAAL.train_history self.
Proof. unfold SO_GAAL.with_scores. by destruct (set_threshold_and_labels _ _). Qed.

(** A completed [fit], taken apart: the input was valid, the loop ran
    all its epochs, and the scores are one forward pass of the final
    discriminator over the whole input. *)
Lemma fit_completed self X g :
  SO_GAAL.outcome (SO_GAAL.fit self X g) = Ok tt ->
  check_array X = Ok X
  ∧ exists f out,
      SO_GAAL.training_loop self X (SO_GAAL.stop_epochs self * 3)
        (SO_GAAL.initial_frame self (size X).2 (size X).1 g) = (f, Ok tt)
      ∧ Discriminator.forward (Frame.discriminator f) (torch_tensor X) = Ok out
      ∧ SO_GAAL.self_after (SO_GAAL.fit self X g)
        = SO_GAAL.with_scores (SO_GAAL.with_frame self f) (ravel out)
      ∧ SO_GAAL.calls (SO_GAAL.fit self X g) = Frame.calls f.
Proof.
  unfold SO_GAAL.fit.
  destruct (check_array X) as [X'|e] eqn:EX; [|done].
  apply check_array_ok in EX as (-> & _).
  destruct (SO_GAAL.training_loop _ _ _ _) as [f r] eqn:Eloop.
  destruct r as [[]|e]; simpl; [|done].
  destruct (Discriminator.forward _ _) as [out|e] eqn:Eout; simpl; [|done].
  intros _. split; [done|]. by exists f, out.
Qed.
End FitFacts.

(* ------------------------------------------------------------------ *)
(** ** When a pass completes and when it raises *)

Section Outcomes.
Context `{!Scalar} `{!Rng} `{!Optim}.

Lemma size_ones r : 0 < r -> size (torch_ones r 1) = (r, 1).
Proof. intros Hr. apply rect_size; [apply rect_ones|done]. Qed.

Lemma batches_growing_ok d h bs f f' r :
  wf_frame d h f -> 0 < d -> 0 < h -> Frame.stop f = 0 ->
  Forall (batch_ok d) bs ->
  for_each (train_batch d) bs f = (f', r) ->
  ok_or_range r
  ∧ (r = Ok tt -> forall b, last bs = Some b ->
       Frame.trick_labels f' = Some (torch_ones (length b) 1)).
Proof.
  intros Hw Hd Hh Hs Hbs. revert f Hw Hs.
  induction Hbs as [|b bs [Hb Hrows] Hbs IH]; intros f Hw Hs; simpl.
  - intros [= <- <-]. split; [by left|done].
  - unfold bind. destruct (train_batch d b f) as [f1 r1] eqn:E1.
    destruct (train_batch_ok d h b f f1 r1 Hw Hd Hh Hb Hrows (or_introl Hs) E1)
      as [-> | ->].
    + intros E. destruct (IH f1) as [Hr Hlast]; [| |exact E|].
      * by eapply train_batch_wf.
      * by rewrite (train_batch_stop _ _ _ _ _ E1).
      * split; [done|]. intros Hok b'.
        destruct bs as [|b2 bs]; simpl.
        -- intros [= <-]. simpl in E. injection E as <- _.
           by apply (train_batch_growing_labels _ _ _ _ E1).
        -- by apply Hlast.
    + intros [= <- <-]. split; [by right|done].
Qed.

Lemma batches_frozen_ok d h bs f L c f' r :
  wf_frame d h f -> 0 < d -> 0 < h -> Frame.stop f ≠ 0 ->
  Frame.trick_labels f = Some L -> size L = (c, 1) ->
  Forall (batch_ok d) bs -> Forall (fun b => length b = c) bs ->
  for_each (train_batch d) bs f = (f', r) -> ok_or_range r.
Proof.
  intros Hw Hd Hh Hs HL Hsize Hbs. revert f Hw Hs HL.
  induction Hbs as [|b bs [Hb Hrows] Hbs IH]; intros f Hw Hs HL Hc; simpl.
  - intros [= <- <-]. by left.
  - inversion Hc as [|? ? Hbc Hc']; subst. unfold bind.
    destruct (train_batch d b f) as [f1 r1] eqn:E1.
    destruct (train_batch_ok d h b f f1 r1 Hw Hd Hh Hb Hrows) as [-> | ->];
      [right; by exists L|exact E1| |].
    + destruct (train_batch_frozen _ _ _ _ _ E1 Hs) as (_ & _ & HL').
      apply IH; [by eapply train_batch_wf| |congruence|done].
      by rewrite (train_batch_stop _ _ _ _ _ E1).
    + intros [= <- <-]. by right.
Qed.

Lemma batches_stale d h b bs f L f' r :
  wf_frame d h f -> 0 < d -> 0 < h -> Frame.stop f ≠ 0 ->
  Frame.trick_labels f = Some L -> size L ≠ (length b, 1) -> batch_ok d b ->
  for_each (train_batch d) (b :: bs) f = (f', r) ->
  hist_len "generator_loss" (Frame.train_history f')
  = hist_len "generator_loss" (Frame.train_history f)
  ∧ (r = Err RuntimeError_input_range
     ∨ r = Err (ValueError_target_size (size L) (length b, 1))
       ∧ hist_len "discriminator_loss" (Frame.train_history f')
         = S (hist_len "discriminator_loss" (Frame.train_history f))).
Proof.
  intros Hw Hd Hh Hs HL Hsize [Hb Hrows]. simpl. unfold bind.
  destruct (train_batch d b f) as [f1 r1] eqn:E1.
  destruct (train_batch_stale d h b f L f1 r1 Hw Hd Hh Hb Hrows Hs HL Hsize E1)
    as [-> | (-> & HD & _)]; intros [= <- <-];
    (split; [by eapply train_batch_err_history|]); [by left|by right].
Qed.

(** The batches of one pass over a data set of [n > 0] rows of [d]
    features. *)
Lemma DataLoader_iter_ok ds bsz g d :
  0 < bsz -> Forall (fun r => length r = d) ds ->
  Forall (batch_ok d) (DataLoader_iter ds bsz g).1.
Proof.
  intros Hb Hds.
  pose proof (DataLoader_iter_sizes ds bsz g Hb) as Hsz.
  pose proof (DataLoader_iter_rows ds bsz g d Hds) as Hrows.
  assert (Forall (fun n => 0 < n) (batch_sizes (length ds) bsz)) as Hpos.
  { unfold batch_sizes. apply Forall_app. split.
    - apply Forall_forall. intros x Hx.
      apply list_elem_of_In, repeat_spec in Hx. lia.
    - destruct (Nat.eqb_spec (length ds mod bsz) 0); constructor; [lia|constructor]. }
  rewrite <- Hsz in Hpos. clear Hsz.
  induction Hrows as [|b bs Hb' Hrows IH]; [constructor|].
  simpl in Hpos. inversion Hpos; subst. constructor; [by split|by apply IH].
Qed.

Lemma last_map {A B} (f : A -> B) (l : list A) : last (map f l) = f <$> last l.
Proof. induction l as [|x [|y l] IH]; simpl in *; done. Qed.

Lemma last_batch_sizes n bsz :
  0 < bsz -> 0 < n -> last (batch_sizes n bsz) = Some (last_batch_size n bsz).
Proof.
  intros Hb Hn. unfold batch_sizes, last_batch_size.
  destruct (Nat.eqb_spec (n mod bsz) 0) as [E|E].
  - rewrite app_nil_r.
    assert (0 < n / bsz) as Hq.
    { pose proof (Nat.div_mod_eq n bsz). destruct (n / bsz); [lia|lia]. }
    destruct (n / bsz) as [|q]; [lia|].
    replace (S q) with (q + 1) by lia. rewrite repeat_app. simpl.
    by rewrite last_snoc.
  - by rewrite last_snoc.
Qed.

Lemma epoch_growing_ok ds bsz d h epochs se e f f' r :
  wf_frame d h f -> 0 < d -> 0 < h -> 0 < bsz -> 0 < length ds ->
  Forall (fun r => length r = d) ds -> Frame.stop f = 0 ->
  train_epoch ds bsz d epochs se e f = (f', r) ->
  ok_or_range r
  ∧ (r = Ok tt ->
     Frame.trick_labels f'
     = Some (torch_ones (last_batch_size (length ds) bsz) 1)).
Proof.
  intros Hw Hd Hh Hb Hn Hds Hs.
  unfold train_epoch, iter_dataloader, record, bind, modify, ret,
    Frame.set_calls, Frame.set_torch_rng, Frame.set_stop. simpl.
  pose proof (DataLoader_iter_ok ds bsz (Frame.torch_rng f) d Hb Hds) as Hok.
  pose proof (DataLoader_iter_sizes ds bsz (Frame.torch_rng f) Hb) as Hsz.
  destruct (DataLoader_iter ds bsz (Frame.torch_rng f)) as [bs g1]. simpl in *.
  match goal with |- context [for_each _ bs ?f0] =>
    destruct (for_each (train_batch d) bs f0) as [f1 r1] eqn:E1 end.
  apply (batches_growing_ok d h) in E1 as [[-> | ->] Hlast]; try done.
  - assert (Frame.trick_labels f1
            = Some (torch_ones (last_batch_size (length ds) bsz) 1)) as HL.
    { pose proof (last_batch_sizes (length ds) bsz Hb Hn) as Hl.
      rewrite <- Hsz, last_map in Hl.
      apply fmap_Some in Hl as (b & Eb & ->). by apply Hlast. }
    destruct (se <? e + 1); intros [= <- <-]; (split; [by left|]); done.
  - intros [= <- <-]. split; [by right|done].
Qed.
End Outcomes.

(* ------------------------------------------------------------------ *)
(** ** When the loop completes and when it raises *)

Section Runs.
Context `{!Scalar} `{!Rng} `{!Optim}.

Lemma batch_sizes_even n bsz :
  n mod bsz = 0 -> Forall (fun s => s = bsz) (batch_sizes n bsz).
Proof.
  intros E. unfold batch_sizes. rewrite E. simpl. rewrite app_nil_r.
  apply Forall_forall. intros x Hx. by apply list_elem_of_In, repeat_spec in Hx.
Qed.

Lemma epoch_frozen_ok ds bsz d h epochs se e f f' r :
  wf_frame d h f -> 0 < d -> 0 < h -> 0 < bsz ->
  Forall (fun r => length r = d) ds -> Frame.stop f ≠ 0 ->
  length ds mod bsz = 0 ->
  Frame.trick_labels f = Some (torch_ones bsz 1) ->
  train_epoch ds bsz d epochs se e f = (f', r) -> ok_or_range r.
Proof.
  intros Hw Hd Hh Hb Hds Hs Hmod HL.
  unfold train_epoch, iter_dataloader, record, bind, modify, ret,
    Frame.set_calls, Frame.set_torch_rng, Frame.set_stop. simpl.
  pose proof (DataLoader_iter_ok ds bsz (Frame.torch_rng f) d Hb Hds) as Hok.
  pose proof (DataLoader_iter_sizes ds bsz (Frame.torch_rng f) Hb) as Hsz.
  destruct (DataLoader_iter ds bsz (Frame.torch_rng f)) as [bs g1]. simpl in *.
  match goal with |- context [for_each _ bs ?f0] =>
    destruct (for_each (train_batch d) bs f0) as [f1 r1] eqn:E1 end.
  apply (batches_frozen_ok d h bs _ (torch_ones bsz 1) bsz) in E1 as [-> | ->];
    try done.
  - destruct (se <? e + 1); intros [= <- <-]; by left.
  - intros [= <- <-]. by right.
  - by apply size_ones.
  - pose proof (batch_sizes_even _ _ Hmod) as Hall. rewrite <- Hsz in Hall.
    by apply Forall_map in Hall.
Qed.

Lemma epoch_stale ds bsz d h epochs se e f c f' r :
  wf_frame d h f -> 0 < d -> 0 < h -> 0 < bsz -> bsz <= length ds ->
  Forall (fun r => length r = d) ds -> Frame.stop f ≠ 0 ->
  Frame.trick_labels f = Some (torch_ones c 1) -> 0 < c -> c ≠ bsz ->
  train_epoch ds bsz d epochs se e f = (f', r) ->
  hist_len "generator_loss" (Frame.train_history f')
  = hist_len "generator_loss" (Frame.train_history f)
  ∧ (r = Err RuntimeError_input_range
     ∨ r = Err (ValueError_target_size (c, 1) (bsz, 1))
       ∧ hist_len "discriminator_loss" (Frame.train_history f')
         = S (hist_len "discriminator_loss" (Frame.train_history f))).
Proof.
  intros Hw Hd Hh Hb Hn Hds Hs HL Hc Hne.
  unfold train_epoch, iter_dataloader, record, bind, modify, ret,
    Frame.set_calls, Frame.set_torch_rng, Frame.set_stop. simpl.
  pose proof (DataLoader_iter_ok ds bsz (Frame.torch_rng f) d Hb Hds) as Hok.
  pose proof (DataLoader_iter_sizes ds bsz (Frame.torch_rng f) Hb) as Hsz.
  destruct (DataLoader_iter ds bsz (Frame.torch_rng f)) as [bs g1]. simpl in *.
  assert (exists q, length ds / bsz = S q) as [q Hq].
  { pose proof (Nat.div_mod_eq (length ds) bsz).
    pose proof (Nat.mod_upper_bound (length ds) bsz ltac:(lia)).
    destruct (length ds / bsz); [lia|by eexists]. }
  unfold batch_sizes in Hsz. rewrite Hq in Hsz. simpl in Hsz.
  destruct bs as [|b bs]; [done|]. simpl in Hsz. injection Hsz as Hb0 _.
  inversion Hok as [|? ? Hbok _]; subst.
  match goal with |- context [for_each _ _ ?f0] =>
    destruct (for_each (train_batch d) (b :: bs) f0) as [f1 r1] eqn:E1 end.
  apply (batches_stale d h b bs _ (torch_ones c 1)) in E1 as [HG Hr]; try done.
  - rewrite size_ones in Hr by done. simpl in HG.
    destruct Hr as [-> | (-> & HD)]; intros [= <- <-];
      (split; [done|]); [by left|by right].
  - rewrite size_ones by done. intros [=]. lia.
Qed.

Section Loop.
Variables (self : SO_GAAL.t) (X : matrix) (g : rng).
Hypothesis valid : check_array X = Ok X.

Let n := length X.
Let d := (size X).2.
Let bsz := min 500 n.
Let se := SO_GAAL.stop_epochs self.
Let f0 := SO_GAAL.initial_frame self d (size X).1 g.

(** The first [k] epochs complete, if they are all growing epochs or
    if all batches have the same size, unless [BCELoss] meets an input
    outside [0, 1]. *)
Lemma training_loop_ok k f r :
  k <= se + 1 ∨ n mod bsz = 0 ->
  SO_GAAL.training_loop self X k f0 = (f, r) ->
  ok_or_range r
  ∧ (r = Ok tt -> 0 < k ->
     Frame.trick_labels f = Some (torch_ones (last_batch_size n bsz) 1)).
Proof.
  destruct (check_array_ok _ _ valid) as (_ & Hn & Hd & _ & Hrows).
  destruct (initial_frame_start self d (size X).1 g) as (Hs0 & _).
  pose proof (initial_frame_wf self d (size X).1 g) as Hw0.
  pose proof (ceil_sqrt_pos (size X).1 Hn) as Hh.
  assert (Forall (fun r => length r = d) (torch_tensor X)) as Hds.
  { apply (rect_map float32 X n d). by split. }
  assert (length (torch_tensor X) = n) as Hlen by apply length_map.
  revert f r. induction k as [|k IH]; intros f r Hk.
  - intros [= <- <-]. split; [by left|lia].
  - rewrite training_loop_S. fold f0.
    destruct (SO_GAAL.training_loop self X k f0) as [f1 r1] eqn:E.
    destruct (IH f1 r1) as [[-> | ->] HL]; [lia|done| |].
    + pose proof (training_loop_frame self X k f0 f1 (Ok tt) (ceil_sqrt (size X).1)
                    E Hw0) as Hw.
      destruct (training_loop_done _ _ _ _ _ Hn Hs0 E) as (_ & _ & _ & Hs).
      simpl in Hs. fold se in Hs. unfold stop_in_epoch in Hs.
      destruct (Nat.leb_spec k se) as [Hle|Hgt].
      * intros E'.
        destruct (epoch_growing_ok (torch_tensor X) bsz d (ceil_sqrt (size X).1)
                    (se * 3) se k f1 f r)
          as [Hr HL']; try done; try (subst bsz; lia).
        split; [done|]. intros Hok _. rewrite Hlen in HL'. by apply HL'.
      * destruct Hk as [Hk|Hmod]; [lia|]. intros E'.
        pose proof (epoch_frozen_ok (torch_tensor X) bsz d (ceil_sqrt (size X).1)
                      (se * 3) se k f1 f r) as Hr.
        split.
        -- apply Hr; try done; try (subst bsz; lia).
           ++ by rewrite Hlen.
           ++ rewrite HL by (done || lia). unfold last_batch_size. by rewrite Hmod.
        -- intros -> _.
           destruct (epoch_frame _ _ _ (ceil_sqrt (size X).1) _ _ _ _ _ _ E')
             as [_ Hfz].
           destruct Hfz as (_ & _ & _ & ->); [by rewrite Hs|]. apply HL; [done|lia].
    + intros [= <- <-]. split; [by right|done].
Qed.

Lemma training_loop_err k k' f e :
  SO_GAAL.training_loop self X k f0 = (f, Err e) -> k <= k' ->
  SO_GAAL.training_loop self X k' f0 = (f, Err e).
Proof.
  intros E Hk. induction Hk as [|k' Hk IH]; [done|].
  by rewrite training_loop_S, IH.
Qed.
End Loop.
End Runs.

(* ------------------------------------------------------------------ *)
(** ** [fit] and [decision_function] *)

Section FitTheorems.
Context `{!Scalar} `{!Rng} `{!Optim}.

Lemma hist_len_empty key : hist_len key (∅ : gmap string (list num)) = 0.
Proof. unfold hist_len. by rewrite lookup_empty. Qed.

Lemma fit_unfold self X g f r :
  check_array X = Ok X ->
  SO_GAAL.training_loop self X (SO_GAAL.stop_epochs self * 3)
    (SO_GAAL.initial_frame self (size X).2 (size X).1 g) = (f, r) ->
  SO_GAAL.fit self X g
  = match rbind r (fun _ =>
            Discriminator.forward (Frame.discriminator f) (torch_tensor X)) with
    | Err e =>
        {| SO_GAAL.self_after := SO_GAAL.with_frame self f;
           SO_GAAL.rng_after := Frame.torch_rng f;
           SO_GAAL.calls := Frame.calls f; SO_GAAL.outcome := Err e |}
    | Ok out =>
        {| SO_GAAL.self_after :=
             SO_GAAL.with_scores (SO_GAAL.with_frame self f) (ravel out);
           SO_GAAL.rng_after := Frame.torch_rng f;
           SO_GAAL.calls := Frame.calls f; SO_GAAL.outcome := Ok tt |}
    end.
Proof. intros HX E. unfold SO_GAAL.fit. by rewrite HX, E. Qed.

Lemma check_array_err (X : matrix) e :
  check_array X = Err e -> e = ValueError_check_array.
Proof.
  unfold check_array. destruct X as [|r X]; [by intros [= <-]|].
  destruct (_ && _); [done|]. by intros [= <-].
Qed.

(** In an arithmetic without NaN, [fit] does not raise the range error
    of [BCELoss]. *)
Lemma fit_in_unit self X g :
  sigmoid_in_unit ->
  SO_GAAL.outcome (SO_GAAL.fit self X g) ≠ Err RuntimeError_input_range.
Proof.
  intros Hs. unfold SO_GAAL.fit.
  destruct (check_array X) as [X'|e] eqn:EX; simpl.
  - destruct (SO_GAAL.training_loop _ _ _ _) as [f [[]|e]] eqn:E; simpl.
    + destruct (Discriminator.forward _ _) as [out|e] eqn:Eout; simpl; [done|].
      apply Discriminator_forward_kind in Eout as (a & b & ->). done.
    + intros [= ->]. by eapply training_loop_in_unit.
  - apply check_array_err in EX as ->. done.
Qed.

(** The loop raises when there is a frozen epoch and the batches have
    two sizes: in the first frozen batch at the latest, and before any
    generator loss of a frozen batch is recorded. *)
Lemma training_loop_stale self X g f r :
  check_array X = Ok X ->
  500 < length X -> length X mod 500 ≠ 0 -> 1 <= SO_GAAL.stop_epochs self ->
  SO_GAAL.training_loop self X (SO_GAAL.stop_epochs self * 3)
    (SO_GAAL.initial_frame self (size X).2 (size X).1 g) = (f, r) ->
  let frozen_from := (SO_GAAL.stop_epochs self + 1) * ceil_div (length X) 500 in
  hist_len "generator_loss" (Frame.train_history f) <= frozen_from
  ∧ (r = Err RuntimeError_input_range
     ∨ r = Err (ValueError_target_size (length X mod 500, 1) (500, 1))
       ∧ hist_len "generator_loss" (Frame.train_history f) = frozen_from
       ∧ hist_len "discriminator_loss" (Frame.train_history f) = S frozen_from).
Proof.
  intros HX Hn Hmod Hse Eall. simpl.
  destruct (check_array_ok _ _ HX) as (_ & Hn0 & Hd & _ & Hrows).
  set (se := SO_GAAL.stop_epochs self) in *.
  set (f0 := SO_GAAL.initial_frame self (size X).2 (size X).1 g) in *.
  destruct (initial_frame_start self (size X).2 (size X).1 g) as (Hs0 & _ & Hh0 & _).
  pose proof (initial_frame_wf self (size X).2 (size X).1 g) as Hw0.
  fold f0 in Hs0, Hh0, Hw0.
  assert (min 500 (length X) = 500) as Hbsz by lia.
  destruct (SO_GAAL.training_loop self X (se + 1) f0) as [f1 r1] eqn:E.
  pose proof (training_loop_history_bound self X _ f0 f1 r1 Hn0 E) as Hbound.
  rewrite Hh0, hist_len_empty, Hbsz in Hbound. simpl in Hbound.
  destruct (training_loop_ok self X g HX (se + 1) f1 r1) as [[-> | ->] HL];
    [lia|exact E| |].
  - rewrite Hbsz in HL. specialize (HL eq_refl ltac:(lia)).
    unfold last_batch_size in HL.
    apply Nat.eqb_neq in Hmod as Hmod'. rewrite Hmod' in HL.
    destruct (training_loop_done _ _ _ _ _ Hn0 Hs0 E) as (_ & HhD & HhG & Hs).
    simpl in HhD, HhG, Hs. fold se in HhD, HhG, Hs.
    rewrite Hh0, hist_len_empty, Hbsz in HhD, HhG. simpl in HhD, HhG.
    unfold stop_in_epoch in Hs.
    destruct (Nat.leb_spec (se + 1) se) as [?|_]; [lia|].
    pose proof (training_loop_frame self X _ f0 f1 (Ok tt) (ceil_sqrt (size X).1)
                  E Hw0) as Hw.
    destruct (train_epoch (torch_tensor X) 500 (size X).2 (se * 3) se (se + 1) f1)
      as [f2 r2] eqn:E2.
    destruct (epoch_stale (torch_tensor X) 500 (size X).2 (ceil_sqrt (size X).1)
                (se * 3) se (se + 1) f1 (length X mod 500) f2 r2)
      as (HG' & Hr2); try done; try lia.
    { by apply ceil_sqrt_pos. }
    { unfold torch_tensor. rewrite length_map. lia. }
    { apply (rect_map float32 X (length X) (size X).2). by split. }
    { pose proof (Nat.mod_upper_bound (length X) 500). lia. }
    assert (exists e2, r2 = Err e2) as [e2 ->].
    { destruct Hr2 as [-> | [-> _]]; by eexists. }
    assert (SO_GAAL.training_loop self X (S (se + 1)) f0 = (f2, Err e2)) as Efail.
    { rewrite training_loop_S. fold f0. rewrite E. simpl. by rewrite Hbsz. }
    apply (training_loop_err self X g _ (se * 3)) in Efail; [|lia].
    fold f0 in Efail. rewrite Efail in Eall. injection Eall as <- <-.
    split; [lia|].
    destruct Hr2 as [-> | (-> & HD')]; [by left|right].
    split; [done|]. split; lia.
  - apply (training_loop_err self X g _ (se * 3)) in E; [|lia].
    fold f0 in E. rewrite E in Eall. injection Eall as <- <-.
    split; [lia|by left].
Qed.

(** C3 (amended).  The frozen branch reads the [trick_labels] left by
    the last growing batch.  When [stop_epochs >= 1] and the number of
    samples exceeds 500 and is not a multiple of 500, that tensor has
    [n mod 500] rows while the first frozen batch has 500, and [fit] does not
    return: it raises, without a generator loss of any frozen batch in the
    history.  What it raises at the generator loss of the first frozen batch
    is the size error of [BCELoss], the discriminator loss of that batch
    being in the history already; it is the range error of [BCELoss] if one
    of the discriminator's outputs, up to there, was not in [0, 1], which
    does not happen in an arithmetic without NaN. *)
Theorem fit_stale_labels self X g :
  check_array X = Ok X ->
  500 < length X -> length X mod 500 ≠ 0 -> 1 <= SO_GAAL.stop_epochs self ->
  let r := SO_GAAL.fit self X g in
  let frozen_from := (SO_GAAL.stop_epochs self + 1) * ceil_div (length X) 500 in
  exists e h,
    SO_GAAL.outcome r = Err e
    ∧ SO_GAAL.train_history (SO_GAAL.self_after r) = Some h
    ∧ hist_len "generator_loss" h <= frozen_from
    ∧ (e = RuntimeError_input_range
       ∨ e = ValueError_target_size (length X mod 500, 1) (500, 1)
         ∧ hist_len "generator_loss" h = frozen_from
         ∧ hist_len "discriminator_loss" h = S frozen_from)
    ∧ (sigmoid_in_unit -> e ≠ RuntimeError_input_range).
Proof.
  intros HX Hn Hmod Hse. simpl.
  destruct (SO_GAAL.training_loop self X (SO_GAAL.stop_epochs self * 3)
              (SO_GAAL.initial_frame self (size X).2 (size X).1 g))
    as [f r] eqn:E.
  destruct (training_loop_stale self X g f r HX Hn Hmod Hse E) as [Hle Hr].
  assert (exists e, r = Err e) as [e ->].
  { destruct Hr as [-> | [-> _]]; by eexists. }
  exists e, (Frame.train_history f).
  rewrite (fit_unfold self X g _ _ HX E). simpl.
  split; [done|]. split; [done|]. split; [done|]. split.
  - destruct Hr as [[= ->] | ([= ->] & HG & HD)]; [by left|by right].
  - intros Hs. by eapply training_loop_in_unit.
Qed.

(** The converse: [fit] returns on every valid input when there is no
    frozen epoch or when all batches have the same size, unless [BCELoss]
    meets an input outside [0, 1]. *)
Lemma fit_completes self X g :
  check_array X = Ok X ->
  SO_GAAL.stop_epochs self = 0 ∨ length X <= 500 ∨ length X mod 500 = 0 ->
  ok_or_range (SO_GAAL.outcome (SO_GAAL.fit self X g)).
Proof.
  intros HX Hcase.
  destruct (check_array_ok _ _ HX) as (_ & Hn0 & Hd & _ & Hrows).
  destruct (SO_GAAL.training_loop self X (SO_GAAL.stop_epochs self * 3)
              (SO_GAAL.initial_frame self (size X).2 (size X).1 g))
    as [f r] eqn:E.
  rewrite (fit_unfold self X g _ _ HX E).
  destruct (training_loop_ok self X g HX (SO_GAAL.stop_epochs self * 3) f r)
    as [[-> | ->] _]; [|exact E| |by right].
  { destruct Hcase as [->|[Hle|Hmod]]; [left; lia|right|right].
    - rewrite Nat.min_r by lia. apply Nat.Div0.mod_same.
    - destruct (Nat.le_gt_cases (length X) 500).
      + rewrite Nat.min_r by lia. apply Nat.Div0.mod_same.
      + rewrite Nat.min_l by lia. done. }
  pose proof (initial_frame_wf self (size X).2 (size X).1 g) as Hw0.
  pose proof (training_loop_frame self X _ _ f (Ok tt) (ceil_sqrt (size X).1)
                E Hw0) as [HD _].
  destruct (Discriminator_forward_dims (Frame.discriminator f) (size X).2
              (ceil_sqrt (size X).1) (torch_tensor X) (length X) HD)
    as (out & Eout & _).
  { by apply ceil_sqrt_pos. }
  { apply rect_map. by split. }
  simpl. rewrite Eout. by left.
Qed.

(** C5.  When [fit] returns, both loss sequences of the history have
    [(3 * stop_epochs) * ceil(n / min(500, n))] entries. *)
Theorem fit_history_length self X g :
  SO_GAAL.outcome (SO_GAAL.fit self X g) = Ok tt ->
  exists h,
    SO_GAAL.train_history (SO_GAAL.self_after (SO_GAAL.fit self X g)) = Some h
    ∧ hist_len "discriminator_loss" h
      = (3 * SO_GAAL.stop_epochs self) * ceil_div (length X) (min 500 (length X))
    ∧ hist_len "generator_loss" h
      = (3 * SO_GAAL.stop_epochs self) * ceil_div (length X) (min 500 (length X)).
Proof.
  intros Hok. destruct (fit_completed _ _ _ Hok) as (HX & f & out & E & _ & -> & _).
  destruct (check_array_ok _ _ HX) as (_ & Hn0 & _).
  destruct (initial_frame_start self (size X).2 (size X).1 g) as (Hs0 & _ & Hh0 & _).
  destruct (training_loop_done _ _ _ _ _ Hn0 Hs0 E) as (_ & HhD & HhG & _).
  cbv zeta in HhD, HhG. rewrite Hh0, hist_len_empty in HhD, HhG.
  destruct (decision_scores_with_scores (SO_GAAL.with_frame self f) (ravel out))
    as (_ & _ & ->).
  eexists. split; [done|]. rewrite HhD, HhG. split; lia.
Qed.

(** C8.  When [fit] returns, [decision_scores_] is the flattened output
    of one forward pass of the discriminator, as it is after all epochs, over
    the whole input, and it has one entry per sample. *)
Theorem fit_decision_scores self X g :
  SO_GAAL.outcome (SO_GAAL.fit self X g) = Ok tt ->
  exists f out,
    SO_GAAL.training_loop self X (SO_GAAL.stop_epochs self * 3)
      (SO_GAAL.initial_frame self (size X).2 (size X).1 g) = (f, Ok tt)
    ∧ Discriminator.forward (Frame.discriminator f) (torch_tensor X) = Ok out
    ∧ SO_GAAL.decision_scores_ (SO_GAAL.self_after (SO_GAAL.fit self X g))
      = Some (ravel out)
    ∧ length (ravel out) = length X.
Proof.
  intros Hok. destruct (fit_completed _ _ _ Hok) as (HX & f & out & E & Eout & -> & _).
  exists f, out. split; [done|]. split; [done|].
  destruct (decision_scores_with_scores (SO_GAAL.with_frame self f) (ravel out))
    as (-> & _). split; [done|].
  pose proof (initial_frame_wf self (size X).2 (size X).1 g) as Hw0.
  pose proof (training_loop_frame self X _ _ f (Ok tt) (ceil_sqrt (size X).1)
                E Hw0) as [HD _].
  pose proof (Discriminator_forward_rows _ _ _ _ _ HD Eout) as Hout.
  rewrite (rect_ravel _ _ _ Hout). unfold torch_tensor. rewrite length_map. lia.
Qed.

(** C10.  After a [fit] that returned, [decision_function] on the
    training data returns the stored score vector: the same forward pass of
    the same discriminator over the same tensor. *)
Theorem decision_function_after_fit self X g :
  SO_GAAL.outcome (SO_GAAL.fit self X g) = Ok tt ->
  exists scores,
    SO_GAAL.decision_scores_ (SO_GAAL.self_after (SO_GAAL.fit self X g))
      = Some scores
    ∧ SO_GAAL.decision_function (SO_GAAL.self_after (SO_GAAL.fit self X g)) X
      = Ok scores.
Proof.
  intros Hok. destruct (fit_completed _ _ _ Hok) as (HX & f & out & E & Eout & -> & _).
  destruct (decision_scores_with_scores (SO_GAAL.with_frame self f) (ravel out))
    as (Hsc & HD & _).
  exists (ravel out). split; [done|].
  unfold SO_GAAL.decision_function. rewrite HD. simpl.
  rewrite HX. simpl. by rewrite Eout.
Qed.

(** C6 (amended).  [decision_function] does not compare the feature
    count of its input with that of the training data: an input that
    [check_array] accepts, with another feature count, reaches
    [Discriminator.forward], whose first linear layer raises the
    matrix-shape error; no score is returned. *)
Theorem decision_function_feature_mismatch self X g X' :
  SO_GAAL.outcome (SO_GAAL.fit self X g) = Ok tt ->
  check_array X' = Ok X' -> (size X').2 ≠ (size X).2 ->
  SO_GAAL.decision_function (SO_GAAL.self_after (SO_GAAL.fit self X g)) X'
  = Err (RuntimeError_mat_shapes (size X').2 (size X).2).
Proof.
  intros Hok HX' Hne.
  destruct (fit_completed _ _ _ Hok) as (HX & f & out & E & Eout & -> & _).
  destruct (check_array_ok _ _ HX) as (_ & Hn0 & _).
  destruct (check_array_ok _ _ HX') as (_ & Hn' & _ & Hrect').
  destruct (decision_scores_with_scores (SO_GAAL.with_frame self f) (ravel out))
    as (_ & HD & _).
  pose proof (initial_frame_wf self (size X).2 (size X).1 g) as Hw0.
  pose proof (training_loop_frame self X _ _ f (Ok tt) (ceil_sqrt (size X).1)
                E Hw0) as [HDs _].
  unfold SO_GAAL.decision_function. rewrite HD. simpl. rewrite HX'. simpl.
  rewrite (Discriminator_forward_err _ _ _ (torch_tensor X') (length X')
             (size X').2 HDs); [done|by apply ceil_sqrt_pos| |done|done].
  by apply rect_map.
Qed.
End FitTheorems.

(* ------------------------------------------------------------------ *)
(** ** The generator before training *)

Section GeneratorFacts.
Context `{!Scalar} `{!Rng}.

Lemma imap_Forall {A B} (P : B -> Prop) (f : nat -> A -> B) (l : list A) :
  (forall i x, P (f i x)) -> Forall P (imap f l).
Proof.
  revert f. induction l as [|x l IH]; intros f Hf; simpl; constructor; [done|].
  apply IH. intros i y. apply Hf.
Qed.

Lemma eye_entries w : Forall (Forall zero_or_one) (eye_ w).
Proof.
  apply imap_Forall. intros i r. apply imap_Forall. intros j _.
  destruct (i =? j); [by right|by left].
Qed.

Lemma dot_zeros_acc (x w : list num) :
  Forall (fun v => v = zero) x -> Forall zero_or_one w ->
  fold_left (fun s p => add s (mul p.1 p.2)) (combine x w) zero = zero.
Proof.
  intros Hx. revert w. induction Hx as [|v x -> Hx IH]; intros w Hw; [done|].
  destruct Hw as [|u w Hu Hw]; [done|]. simpl.
  destruct Hu as [-> | ->];
    rewrite ?mul_zero_zero, ?mul_zero_one, add_zero_zero; by apply IH.
Qed.

Lemma dot_zeros d w : Forall zero_or_one w -> dot (repeat zero d) w = zero.
Proof.
  intros Hw. apply dot_zeros_acc; [|done].
  apply Forall_forall. intros v Hv. by apply list_elem_of_In, repeat_spec in Hv.
Qed.

Lemma map_const_repeat {A B} (f : A -> B) (l : list A) (c : B) :
  Forall (fun x => f x = c) l -> map f l = repeat c (length l).
Proof. induction 1 as [|x l Hx Hl IH]; simpl; [done|]. by rewrite Hx, IH. Qed.

Lemma fill_row_Forall (P : num -> Prop) draw r g :
  (forall g', P (draw g').1) -> Forall P (fill_row draw r g).1.
Proof.
  intros Hdraw. revert g. induction r as [|x r IH]; intros g; simpl; [constructor|].
  pose proof (Hdraw g) as Hv. destruct (draw g) as [v g1].
  specialize (IH g1). destruct (fill_row draw r g1) as [vs g2].
  by constructor.
Qed.

Lemma nn_Linear_bias in_f out_f g :
  Forall (fun v => isfinite v = true) (bias (nn_Linear in_f out_f g).1).
Proof.
  unfold nn_Linear. destruct (fill_ _ _ g) as [w g1].
  pose proof (fill_row_Forall (fun v => isfinite v = true) (linear_init1 in_f)
                (repeat zero out_f) g1 (linear_init1_finite in_f)) as Hb.
  by destruct (fill_row _ _ g1) as [b g2].
Qed.

Lemma imap_zero (f : nat -> num -> num) (row : list num) :
  (forall j x, f j x = zero) -> imap f row = repeat zero (length row).
Proof.
  revert f. induction row as [|x row IH]; intros f Hf; simpl; [done|].
  rewrite Hf. f_equal. apply IH. intros j y. apply Hf.
Qed.

(** Row [i] of the identity. *)
Lemma eye_row i (row : list num) :
  i < length row ->
  imap (fun j _ => if i =? j then one else zero) row
  = repeat zero i ++ one :: repeat zero (length row - i - 1).
Proof.
  revert i. induction row as [|x row IH]; intros i Hi; simpl in *; [lia|].
  destruct i as [|i]; simpl.
  - f_equal. rewrite Nat.sub_0_r. by apply imap_zero.
  - f_equal. rewrite <- IH by lia. by apply imap_ext.
Qed.

Lemma Generator_init_weights d g :
  let G := (Generator.__init__ d g).1 in
  exists w1 w2,
    weight (Generator.layer1 G) = eye_ w1 ∧ row_lengths w1 = repeat d d
    ∧ weight (Generator.layer2 G) = eye_ w2 ∧ row_lengths w2 = repeat d d.
Proof.
  unfold Generator.__init__.
  pose proof (nn_Linear_shape d d g) as H1.
  destruct (nn_Linear d d g) as [l1 g1].
  pose proof (nn_Linear_shape d d g1) as H2.
  destruct (nn_Linear d d g1) as [l2 g2]. simpl in *.
  injection H1 as H1 _. injection H2 as H2 _.
  by exists (weight l1), (weight l2).
Qed.

Lemma Generator_init_biases d g :
  let G := (Generator.__init__ d g).1 in
  Forall (fun v => isfinite v = true) (bias (Generator.layer1 G))
  ∧ Forall (fun v => isfinite v = true) (bias (Generator.layer2 G)).
Proof.
  unfold Generator.__init__.
  pose proof (nn_Linear_bias d d g) as H1.
  destruct (nn_Linear d d g) as [l1 g1].
  pose proof (nn_Linear_bias d d g1) as H2.
  destruct (nn_Linear d d g1) as [l2 g2]. done.
Qed.
End GeneratorFacts.

Section ZeroInput.
Context `{!Scalar} `{!Rng} `{!RectifiedExact}.

Lemma combine_app {A B} (l1 l2 : list A) (k1 k2 : list B) :
  length l1 = length k1 ->
  combine (l1 ++ l2) (k1 ++ k2) = combine l1 k1 ++ combine l2 k2.
Proof.
  revert k1. induction l1 as [|x l1 IH]; intros [|y k1]; simpl; try done.
  intros [= Hl]. by rewrite IH.
Qed.

(** Entries of a row against weights that are all [0.0] add nothing. *)
Lemma fold_zero_weights (u w : list num) acc :
  Forall rectified u -> Forall (fun c => c = zero) w ->
  acc = zero ∨ rectified acc ->
  fold_left (fun s p => add s (mul p.1 p.2)) (combine u w) acc = acc.
Proof.
  intros Hu. revert w. induction Hu as [|v u Hv Hu IH]; intros w Hw Hacc; [done|].
  destruct Hw as [|c w -> Hw]; [done|]. simpl.
  rewrite (rectified_mul_zero v Hv).
  assert (add acc zero = acc) as ->.
  { destruct Hacc as [->|Hacc]; [apply add_zero_zero|by apply rectified_add_zero_r]. }
  by apply IH.
Qed.

Lemma Forall_repeat_eq (c : num) n : Forall (fun v => v = c) (repeat c n).
Proof. apply Forall_forall. intros v Hv. by apply list_elem_of_In, repeat_spec in Hv. Qed.

(** A row of rectified numbers against row [i] of the identity. *)
Lemma dot_unit_row (u : list num) i v :
  Forall rectified u -> u !! i = Some v ->
  dot u (repeat zero i ++ one :: repeat zero (length u - i - 1)) = v.
Proof.
  intros Hu Hv. apply list_elem_of_split_length in Hv as (u1 & u2 & -> & ->).
  apply Forall_app in Hu as [Hu1 Hu2]. inversion Hu2 as [|? ? Hv Hu2']; subst.
  unfold dot. rewrite combine_app by (by rewrite repeat_length).
  rewrite fold_left_app, (fold_zero_weights u1 (repeat zero (length u1)) zero);
    [|done|apply Forall_repeat_eq|by left].
  simpl. rewrite (rectified_mul_one v Hv), (rectified_add_zero_l v Hv).
  apply fold_zero_weights; [done|apply Forall_repeat_eq|by right].
Qed.

(** The identity weight leaves a row of rectified numbers as it is. *)
Lemma eye_dot (w : matrix) (u : list num) d :
  row_lengths w = repeat d d -> length u = d -> Forall rectified u ->
  map (dot u) (eye_ w) = u.
Proof.
  intros Hw Hlen Hu. apply rect_row_lengths in Hw as [Hwl Hrows].
  apply list_eq. intros i. rewrite list_lookup_fmap. unfold eye_.
  rewrite list_lookup_imap.
  destruct (w !! i) as [row|] eqn:Er; simpl.
  - assert (length row = d) as Hrow.
    { rewrite Forall_forall in Hrows. apply Hrows. by eapply list_elem_of_lookup_2. }
    assert (i < d) as Hi by (rewrite <- Hwl; by eapply lookup_lt_Some).
    destruct (lookup_lt_is_Some_2 u i) as [v Hv]; [lia|].
    rewrite eye_row by lia. rewrite Hrow, <- Hlen.
    by rewrite (dot_unit_row u i v Hu Hv), Hv.
  - apply lookup_ge_None in Er. symmetry. apply lookup_ge_None. lia.
Qed.

Lemma zip_add_zero (bs : list num) :
  zip_with add (repeat zero (length bs)) bs = map (add zero) bs.
Proof. induction bs as [|v bs IH]; simpl; [done|]. by rewrite IH. Qed.

(** The first layer of a fresh generator on the zero batch: [0.0 + b]
    for every bias [b]. *)
Lemma Linear_forward_zero_input l w d b :
  weight l = eye_ w -> row_lengths w = repeat d d -> length (bias l) = d ->
  Linear_forward l (torch_zeros b d) = Ok (repeat (map (add zero) (bias l)) b).
Proof.
  intros Hw Hshape Hb.
  assert (row_lengths (weight l) = repeat d d) as Hrl
    by (by rewrite Hw, eye_row_lengths).
  apply rect_row_lengths in Hrl as Hrect.
  assert (in_features l = d) as Hin.
  { unfold in_features, size. simpl. destruct Hrect as [Hlen Hrows].
    destruct (weight l) as [|r rs]; simpl in *; [done|]. by inversion Hrows. }
  rewrite Linear_forward_ok.
  - f_equal. unfold torch_zeros, torch_full. rewrite map_repeat. f_equal.
    rewrite (map_const_repeat _ (weight l) zero).
    + destruct Hrect as [-> _]. rewrite <- Hb. apply zip_add_zero.
    + rewrite Hw. eapply Forall_impl; [apply eye_entries|].
      intros r Hr. by apply dot_zeros.
  - rewrite Hin. apply rect_zeros.
Qed.

(** The second layer on rows of rectified numbers: the row plus the
    bias. *)
Lemma Linear_forward_identity l w d (u : list num) b :
  weight l = eye_ w -> row_lengths w = repeat d d -> length u = d ->
  Forall rectified u ->
  Linear_forward l (repeat u b) = Ok (repeat (zip_with add u (bias l)) b).
Proof.
  intros Hw Hshape Hlen Hu.
  assert (row_lengths (weight l) = repeat d d) as Hrl
    by (by rewrite Hw, eye_row_lengths).
  apply rect_row_lengths in Hrl as Hrect.
  assert (in_features l = d) as Hin.
  { unfold in_features, size. simpl. destruct Hrect as [Hl Hrows].
    destruct (weight l) as [|r rs]; simpl in *; [done|]. by inversion Hrows. }
  rewrite Linear_forward_ok.
  - f_equal. rewrite map_repeat. f_equal. by rewrite Hw, (eye_dot w u d).
  - rewrite Hin. apply Forall_forall. intros r Hr.
    by apply list_elem_of_In, repeat_spec in Hr as ->.
Qed.

Lemma relu_rows (b1 b2 : list num) :
  map relu (zip_with add (map (fun v => relu (add zero v)) b1) b2)
  = zip_with (fun x y => relu (add (relu (add zero x)) y)) b1 b2.
Proof.
  revert b2. induction b1 as [|x b1 IH]; intros [|y b2]; simpl; try done.
  by rewrite IH.
Qed.

Lemma Forall_eq_repeat (c : num) (l : list num) :
  Forall (fun v => v = c) l <-> l = repeat c (length l).
Proof.
  split.
  - induction 1 as [|v l -> Hl IH]; simpl; [done|]. by rewrite <- IH.
  - intros ->. apply Forall_repeat_eq.
Qed.

(** C4 (amended).  A freshly constructed generator has identity weights
    and the biases [b1], [b2] that [nn.Linear] drew.  [forward] maps every
    row of the all-zero batch to [relu (relu (0.0 + b1) + b2)], entry by
    entry; the output is the all-zero batch exactly when that row is zero. *)
Theorem Generator_forward_zeros d g b :
  let G := (Generator.__init__ d g).1 in
  let row := zip_with (fun b1 b2 => relu (add (relu (add zero b1)) b2))
               (bias (Generator.layer1 G)) (bias (Generator.layer2 G)) in
  Generator.forward G (torch_zeros b d) = Ok (repeat row b)
  ∧ (0 < b ->
     (Generator.forward G (torch_zeros b d) = Ok (torch_zeros b d)
      <-> Forall (fun v => v = zero) row)).
Proof.
  intros G row.
  destruct (Generator_init_weights d g) as (w1 & w2 & Hw1 & Hs1 & Hw2 & Hs2).
  destruct (Generator_init_biases d g) as [Hf1 Hf2].
  pose proof (Generator_init_shape d g) as Hshape.
  fold G in Hw1, Hw2, Hf1, Hf2, Hshape.
  injection Hshape as _ Hb1 _ Hb2.
  assert (Generator.forward G (torch_zeros b d) = Ok (repeat row b)) as Hout.
  { unfold Generator.forward.
    rewrite (Linear_forward_zero_input _ w1 d b Hw1 Hs1 Hb1). simpl.
    rewrite map_repeat, map_map.
    rewrite (Linear_forward_identity _ w2 d _ b Hw2 Hs2).
    - simpl. by rewrite map_repeat, relu_rows.
    - by rewrite length_map.
    - apply Forall_map. eapply Forall_impl; [exact Hf1|].
      intros v Hv. by exists v. }
  split; [done|]. intros Hb. rewrite Hout.
  assert (length row = d) as Hrow.
  { unfold row. rewrite length_zip_with. lia. }
  split.
  - intros [= Heq]. apply Forall_eq_repeat. rewrite Hrow.
    destruct b as [|b]; [lia|]. unfold torch_zeros, torch_full in Heq.
    simpl in Heq. by injection Heq as ->.
  - intros Hz. apply Forall_eq_repeat in Hz. rewrite Hrow in Hz. by rewrite Hz.
Qed.
End ZeroInput.

(* ------------------------------------------------------------------ *)
(** ** The range of the discriminator's output *)

Section OutputRange.
Context `{!Scalar} `{!Rng}.

End OutputRange.

(* ------------------------------------------------------------------ *)
(** ** Facts of the rational instance *)

Section SampleFacts.
Import Sample.

Lemma Qsquash_in_unit z :
  Qle_bool 0 (Qsquash z) && Qle_bool (Qsquash z) 1 = true.
Proof.
  unfold Qsquash.
  set (a := if Qle_bool 0 z then z else (- z)%Q).
  assert (0 <= a /\ z <= a /\ - z <= a)%Q as (Ha & Hza & Hnza).
  { unfold a. destruct (Qle_bool 0 z) eqn:E.
    - apply Qle_bool_iff in E. repeat split; lra.
    - assert (~ (0 <= z)%Q) as Hn by (rewrite <- Qle_bool_iff; congruence).
      apply Qnot_le_lt in Hn. repeat split; lra. }
  assert (-1 <= z / (1 + a) <= 1)%Q as [Hlo Hhi].
  { split.
    - apply Qle_shift_div_l; lra.
    - apply Qle_shift_div_r; lra. }
  apply andb_true_intro. split; apply Qle_bool_iff; rewrite Qred_correct.
  - apply Qle_shift_div_l; lra.
  - apply Qle_shift_div_r; lra.
Qed.

(** The rational instance has no NaN. *)
Lemma Sample_sigmoid_in_unit : sigmoid_in_unit.
Proof. intros z. apply Qsquash_in_unit. Qed.

Lemma Sample_rectified_canon (v : num) : rectified v -> Qred v = v.
Proof.
  intros (x & _ & ->). simpl. unfold Qrelu.
  destruct (Qle_bool _ _); [done|]. apply Qred_complete, Qred_correct.
Qed.

Lemma Sample_rectified_exact : RectifiedExact.
Proof.
  split; intros v Hv; simpl.
  - apply (Qred_complete (v * 0) 0). lra.
  - etrans; [|exact (Sample_rectified_canon v Hv)]. apply Qred_complete. lra.
  - etrans; [|exact (Sample_rectified_canon v Hv)]. apply Qred_complete. lra.
  - etrans; [|exact (Sample_rectified_canon v Hv)]. apply Qred_complete. lra.
Qed.
End SampleFacts.

(* ------------------------------------------------------------------ *)
(** ** Facts of the binary32 instance *)

Section Float32Facts.
Import Float32.

(** A rectified finite number is [0.0] or a positive number of the
    format. *)
Lemma Float32_rectified_canon (v : num) :
  rectified v ->
  v = Fzero ∨ exists m e, bounded prec emax m e = true ∧ v = S754_finite false m e.
Proof.
  intros (x & Hx & ->). destruct x as [s| | |s m e]; try done.
  - left. by destruct s.
  - destruct s; [by left|]. right. by exists m, e.
Qed.

(** The laws of [RectifiedExact] hold in binary32. *)
Lemma Float32_rectified_exact : RectifiedExact.
Proof.
  split; intros v [->|(m & e & Hb & ->)]%Float32_rectified_canon; try done.
  exact (binary_round_aux_shifted prec emax false m e 23 Hb).
Qed.
End Float32Facts.

(* ------------------------------------------------------------------ *)
(** ** The two phases of training, and detectors not yet trained *)

Section Phases.
Context `{!Scalar} `{!Rng} `{!Optim}.

Lemma batch_calls_no_print s nb :
  Forall (fun c => is_print c = false) (concat (repeat (batch_calls s) nb)).
Proof.
  induction nb as [|nb IH]; simpl; [constructor|].
  apply Forall_app. split; [|done].
  unfold batch_calls. destruct (s =? 0); repeat constructor.
Qed.

Lemma until_print_app l rest :
  Forall (fun c => is_print c = false) l -> starts_with_print rest ->
  until_print (l ++ rest) = l.
Proof.
  induction 1 as [|c l Hc Hl IH]; intros Hrest; simpl.
  - destruct rest as [|c rest]; simpl in *; [done|]. by rewrite Hrest.
  - rewrite Hc. f_equal. by apply IH.
Qed.

Lemma calls_of_epoch_app e l rest :
  Forall (fun c => is_print c = false) l ->
  calls_of_epoch e (l ++ rest) = calls_of_epoch e rest.
Proof.
  induction 1 as [|c l Hc Hl IH]; simpl; [done|]. by destruct c.
Qed.

Lemma expected_starts_with_print se epochs nb a k :
  starts_with_print (flat_map (epoch_calls se epochs nb) (seq a k)).
Proof. destruct k; simpl; done. Qed.

Lemma calls_of_epoch_seq se epochs nb e a k :
  a <= e < a + k ->
  calls_of_epoch e (flat_map (epoch_calls se epochs nb) (seq a k))
  = concat (repeat (batch_calls (stop_in_epoch se e)) nb).
Proof.
  revert a. induction k as [|k IH]; intros a Hk; [lia|]. simpl.
  destruct (Nat.eqb_spec (a + 1) (e + 1)) as [E|E].
  - assert (a = e) as -> by lia.
    apply until_print_app;
      [apply batch_calls_no_print|apply expected_starts_with_print].
  - rewrite calls_of_epoch_app by apply batch_calls_no_print.
    apply IH. lia.
Qed.

Lemma calls_of_epoch_expected se epochs nb e k :
  e < k ->
  calls_of_epoch e (expected_calls se epochs nb k)
  = concat (repeat (batch_calls (stop_in_epoch se e)) nb).
Proof. intros Hk. apply calls_of_epoch_seq. lia. Qed.

(** C1 (amended: the generator is stepped in the epochs of index
    [<= stop_epochs], not [< stop_epochs]).  After [k] completed epochs, the
    calls made are those of the two-phase schedule: in every epoch of index
    [e <= stop_epochs] each batch steps the discriminator and then the
    generator, in every epoch of index [e > stop_epochs] each batch steps
    the discriminator only; and the generator after [k + 1] epochs is the
    generator after [k] epochs as soon as [k > stop_epochs].  For
    [k <= 3 * stop_epochs] these are the states [fit] goes through; what a
    step does to the networks is [train_batch_updates]. *)
Theorem training_phases self X g k f :
  let se := SO_GAAL.stop_epochs self in
  let nb := ceil_div (length X) (min 500 (length X)) in
  let f0 := SO_GAAL.initial_frame self (size X).2 (size X).1 g in
  check_array X = Ok X ->
  SO_GAAL.training_loop self X k f0 = (f, Ok tt) ->
  Frame.calls f = expected_calls se (se * 3) nb k
  ∧ (forall e, e < k ->
       calls_of_epoch e (Frame.calls f)
       = concat (repeat (if e <=? se
                         then [optimizer_d_step; optimizer_g_step]
                         else [optimizer_d_step]) nb))
  ∧ (forall f', se < k ->
       SO_GAAL.training_loop self X (S k) f0 = (f', Ok tt) ->
       Frame.generator f' = Frame.generator f).
Proof.
  intros se nb f0 HX E.
  destruct (check_array_ok _ _ HX) as (_ & Hn0 & _).
  destruct (initial_frame_start self (size X).2 (size X).1 g) as (Hs0 & Hc0 & _).
  destruct (training_loop_done _ _ _ _ _ Hn0 Hs0 E) as (Hc & _ & _ & Hs).
  cbv zeta in Hc, Hs. rewrite Hc0 in Hc. simpl in Hc.
  fold se nb in Hc, Hs. split; [done|]. split.
  - intros e He. rewrite Hc, calls_of_epoch_expected by done.
    unfold batch_calls, stop_in_epoch. by destruct (e <=? se).
  - intros f' Hk E'. rewrite training_loop_S in E'. fold f0 in E'.
    rewrite E in E'.
    apply (epoch_frame _ _ _ 0) in E' as [_ Hfz].
    apply Hfz. rewrite Hs. unfold stop_in_epoch.
    destruct (Nat.leb_spec k se); [lia|done].
Qed.

Lemma never_trained_discriminator self :
  never_trained self -> SO_GAAL.discriminator self = None.
Proof.
  induction 1 as [|self X g e _ IH HX]; [done|].
  unfold SO_GAAL.fit. by rewrite HX.
Qed.

(** C7 (amended).  [check_is_fitted] looks for the attribute
    [discriminator], which [fit] assigns before training.  On a detector on
    which no [fit] went past the validation of its input,
    [decision_function] raises [NotFittedError]. *)
Theorem decision_function_never_trained self X :
  never_trained self -> SO_GAAL.decision_function self X = Err NotFittedError.
Proof.
  intros Hn. unfold SO_GAAL.decision_function.
  by rewrite (never_trained_discriminator _ Hn).
Qed.
End Phases.

(* ------------------------------------------------------------------ *)
(** ** The statements on concrete inputs *)

Section Concrete.
Import Sample.

(** C1, on two samples with [stop_epochs = 2] and four completed epochs:
    the epoch of index 2 still steps the generator, the epoch of index 3
    does not. *)
Lemma training_phases_witness :
  check_array two_samples = Ok two_samples
  ∧ exists f,
      SO_GAAL.training_loop (detector 2) two_samples 4
        (SO_GAAL.initial_frame (detector 2) 1 2 no_draws) = (f, Ok tt)
      ∧ calls_of_epoch 2 (Frame.calls f) = [optimizer_d_step; optimizer_g_step]
      ∧ calls_of_epoch 3 (Frame.calls f) = [optimizer_d_step].
Proof.
  assert (check_array two_samples = Ok two_samples) as HX by reflexivity.
  split; [exact HX|].
  assert ((SO_GAAL.training_loop (detector 2) two_samples 4
             (SO_GAAL.initial_frame (detector 2) 1 2 no_draws)).2 = Ok tt) as Hr
    by (vm_compute; reflexivity).
  destruct (SO_GAAL.training_loop (detector 2) two_samples 4
              (SO_GAAL.initial_frame (detector 2) 1 2 no_draws)) as [f r] eqn:E.
  cbn [snd] in Hr. subst r.
  exists f. split; [reflexivity|].
  destruct (training_phases (detector 2) two_samples no_draws 4 f HX E)
    as (_ & Hphase & _).
  split; [exact (Hphase 2 ltac:(lia))|exact (Hphase 3 ltac:(lia))].
Defined.

(** C1 as stated fails: with [stop_epochs = 1] and one sample, [fit]
    returns, and the epoch of index [1 >= stop_epochs] steps the generator. *)
Lemma generator_stepped_in_epoch_stop_epochs :
  SO_GAAL.outcome (SO_GAAL.fit (detector 1) [[0%Q]] no_draws) = Ok tt
  ∧ SO_GAAL.stop_epochs (detector 1) <= 1
  ∧ calls_of_epoch 1 (SO_GAAL.calls (SO_GAAL.fit (detector 1) [[0%Q]] no_draws))
    = [optimizer_d_step; optimizer_g_step].
Proof. vm_compute. repeat split; lia. Qed.

(** C3, on 501 samples with [stop_epochs = 1]; the rational instance
    has no NaN, so that the error is the size error. *)
Lemma fit_stale_labels_witness :
  check_array (zeros_data 501) = Ok (zeros_data 501)
  ∧ 500 < length (zeros_data 501)
  ∧ length (zeros_data 501) mod 500 ≠ 0
  ∧ 1 <= SO_GAAL.stop_epochs (detector 1)
  ∧ SO_GAAL.outcome (SO_GAAL.fit (detector 1) (zeros_data 501) no_draws)
    = Err (ValueError_target_size (1, 1) (500, 1)).
Proof.
  assert (check_array (zeros_data 501) = Ok (zeros_data 501)) as HX
    by (vm_compute; reflexivity).
  assert (500 < length (zeros_data 501)) as Hn by (vm_compute; lia).
  assert (length (zeros_data 501) mod 500 ≠ 0) as Hmod by (vm_compute; lia).
  assert (1 <= SO_GAAL.stop_epochs (detector 1)) as Hse by (vm_compute; lia).
  repeat (split; [assumption|]).
  destruct (fit_stale_labels (detector 1) (zeros_data 501) no_draws
              HX Hn Hmod Hse) as (e & h & He & _ & _ & [->|[-> _]] & Hsafe).
  - destruct (Hsafe Sample_sigmoid_in_unit eq_refl).
  - exact He.
Defined.

(** C3 as stated fails: with [stop_epochs = 0] there is no epoch, and
    [fit] returns on 501 samples. *)
Lemma fit_without_epochs_completes :
  500 < length (zeros_data 501) ∧ length (zeros_data 501) mod 500 ≠ 0
  ∧ SO_GAAL.outcome (SO_GAAL.fit (detector 0) (zeros_data 501) no_draws) = Ok tt.
Proof. vm_compute. repeat split; [lia|discriminate]. Qed.

(** C2.  [fit] with [stop_epochs = 1] on 501 samples: the first batch of
    the first frozen epoch (500 rows) steps the discriminator and records
    its loss, then raises on the generator loss, whose labels are the one-row
    tensor left by the last growing batch; no generator loss is recorded for
    that batch. *)
Lemma frozen_batch_raises :
  SO_GAAL.outcome (SO_GAAL.fit (detector 1) (zeros_data 501) no_draws)
    = Err (ValueError_target_size (1, 1) (500, 1))
  ∧ SO_GAAL.calls (SO_GAAL.fit (detector 1) (zeros_data 501) no_draws)
    = [print_epoch 1 3; optimizer_d_step; optimizer_g_step;
       optimizer_d_step; optimizer_g_step;
       print_epoch 2 3; optimizer_d_step; optimizer_g_step;
       optimizer_d_step; optimizer_g_step;
       print_epoch 3 3; optimizer_d_step]
  ∧ (hist_len "discriminator_loss"
       <$> SO_GAAL.train_history
             (SO_GAAL.self_after (SO_GAAL.fit (detector 1) (zeros_data 501) no_draws)))
    = Some 5
  ∧ (hist_len "generator_loss"
       <$> SO_GAAL.train_history
             (SO_GAAL.self_after (SO_GAAL.fit (detector 1) (zeros_data 501) no_draws)))
    = Some 4.
Proof. vm_compute. done. Qed.

(** C7 as stated fails: after a [fit] that raised during training,
    [decision_function] returns scores. *)
Lemma scores_after_raised_fit :
  not_fitted (SO_GAAL.self_after (SO_GAAL.fit (detector 1) (zeros_data 501) no_draws))
  ∧ is_ok (SO_GAAL.decision_function
             (SO_GAAL.self_after (SO_GAAL.fit (detector 1) (zeros_data 501) no_draws))
             (zeros_data 501)) = true.
Proof.
  split.
  - eapply not_fitted_raised; [apply not_fitted_init|].
    vm_compute; reflexivity.
  - vm_compute; reflexivity.
Qed.

(** C4 as stated fails: a generator constructed with a first bias of
    [1/2] maps the zero input to [1/2]. *)
Lemma Generator_nonzero_bias :
  Generator.forward (Generator.__init__ 1 (draws [0%Q; (1 # 2)%Q])).1 (torch_zeros 1 1)
    = Ok [[(1 # 2)%Q]]
  ∧ Generator.forward (Generator.__init__ 1 (draws [0%Q; (1 # 2)%Q])).1 (torch_zeros 1 1)
    ≠ Ok (torch_zeros 1 1).
Proof. vm_compute. split; [reflexivity|discriminate]. Qed.

(** C4, on a generator that maps the zero input to zero although its
    first bias, [1/2], is positive: the second is [-7/10]. *)
Lemma Generator_forward_zeros_witness :
  RectifiedExact
  ∧ Generator.forward
      (Generator.__init__ 1 (draws [0%Q; (1 # 2)%Q; 0%Q; (-7 # 10)%Q])).1
      (torch_zeros 3 1)
    = Ok (torch_zeros 3 1).
Proof.
  split; [exact Sample_rectified_exact|].
  destruct (@Generator_forward_zeros scalar tape Sample_rectified_exact 1
              (draws [0%Q; (1 # 2)%Q; 0%Q; (-7 # 10)%Q]) 3) as [_ Hiff].
  apply Hiff; [lia|]. vm_compute. repeat constructor.
Defined.


(** C6 as stated fails: after [fit] on one feature, an input with two
    features passes [check_array] and is rejected by the forward pass. *)
Lemma feature_mismatch_reaches_forward :
  SO_GAAL.outcome (SO_GAAL.fit (detector 2) two_samples no_draws) = Ok tt
  ∧ check_array [[0%Q; 0%Q]] = Ok [[0%Q; 0%Q]]
  ∧ SO_GAAL.decision_function
      (SO_GAAL.self_after (SO_GAAL.fit (detector 2) two_samples no_draws))
      [[0%Q; 0%Q]]
    = Err (RuntimeError_mat_shapes 2 1).
Proof. vm_compute. done. Qed.

(** C6, on the same input. *)
Lemma decision_function_feature_mismatch_witness :
  SO_GAAL.outcome (SO_GAAL.fit (detector 2) two_samples no_draws) = Ok tt
  ∧ check_array [[0%Q; 0%Q]] = Ok [[0%Q; 0%Q]]
  ∧ (size [[0%Q; 0%Q]]).2 ≠ (size two_samples).2
  ∧ SO_GAAL.decision_function
      (SO_GAAL.self_after (SO_GAAL.fit (detector 2) two_samples no_draws))
      [[0%Q; 0%Q]]
    = Err (RuntimeError_mat_shapes 2 1).
Proof.
  assert (SO_GAAL.outcome (SO_GAAL.fit (detector 2) two_samples no_draws) = Ok tt)
    as Hok by (vm_compute; reflexivity).
  assert (check_array [[0%Q; 0%Q]] = Ok [[0%Q; 0%Q]]) as HX by reflexivity.
  assert ((size [[0%Q; 0%Q]]).2 ≠ (size two_samples).2) as Hne by (vm_compute; lia).
  repeat (split; [assumption|]).
  exact (decision_function_feature_mismatch (detector 2) two_samples no_draws
           [[0%Q; 0%Q]] Hok HX Hne).
Defined.

(** C7, on a detector just constructed. *)
Lemma decision_function_never_trained_witness :
  never_trained (detector 20)
  ∧ SO_GAAL.decision_function (detector 20) two_samples = Err NotFittedError.
Proof.
  assert (never_trained (detector 20)) as Hn by apply never_trained_init.
  split; [exact Hn|].
  exact (decision_function_never_trained (detector 20) two_samples Hn).
Defined.

(** C5, on two samples with [stop_epochs = 2]: six epochs of one batch. *)
Lemma fit_history_length_witness :
  SO_GAAL.outcome (SO_GAAL.fit (detector 2) two_samples no_draws) = Ok tt
  ∧ exists h,
      SO_GAAL.train_history
        (SO_GAAL.self_after (SO_GAAL.fit (detector 2) two_samples no_draws)) = Some h
      ∧ hist_len "discriminator_loss" h = 6 ∧ hist_len "generator_loss" h = 6.
Proof.
  assert (SO_GAAL.outcome (SO_GAAL.fit (detector 2) two_samples no_draws) = Ok tt)
    as Hok by (vm_compute; reflexivity).
  split; [exact Hok|].
  exact (fit_history_length (detector 2) two_samples no_draws Hok).
Defined.

(** C8, on two samples. *)
Lemma fit_decision_scores_witness :
  SO_GAAL.outcome (SO_GAAL.fit (detector 2) two_samples no_draws) = Ok tt
  ∧ exists scores,
      SO_GAAL.decision_scores_
        (SO_GAAL.self_after (SO_GAAL.fit (detector 2) two_samples no_draws))
        = Some scores
      ∧ length scores = 2.
Proof.
  assert (SO_GAAL.outcome (SO_GAAL.fit (detector 2) two_samples no_draws) = Ok tt)
    as Hok by (vm_compute; reflexivity).
  split; [exact Hok|].
  destruct (fit_decision_scores (detector 2) two_samples no_draws Hok)
    as (f & out & _ & _ & Hs & Hl).
  exists (ravel out). split; [exact Hs|exact Hl].
Defined.

(** C10, on two samples. *)
Lemma decision_function_after_fit_witness :
  SO_GAAL.outcome (SO_GAAL.fit (detector 2) two_samples no_draws) = Ok tt
  ∧ exists scores,
      SO_GAAL.decision_scores_
        (SO_GAAL.self_after (SO_GAAL.fit (detector 2) two_samples no_draws))
        = Some scores
      ∧ SO_GAAL.decision_function
          (SO_GAAL.self_after (SO_GAAL.fit (detector 2) two_samples no_draws))
          two_samples
        = Ok scores.
Proof.
  assert (SO_GAAL.outcome (SO_GAAL.fit (detector 2) two_samples no_draws) = Ok tt)
    as Hok by (vm_compute; reflexivity).
  split; [exact Hok|].
  exact (decision_function_after_fit (detector 2) two_samples no_draws Hok).
Defined.
End Concrete.

Section ConcreteFloat32.
Import Float32.


(** A finite input can give a NaN: with weights 4 and 0 the first layer
    overflows on [2^127] and the second multiplies the infinity by 0.0;
    [BCELoss] raises on such an output. *)
Lemma Discriminator_forward_nan :
  isfinite (of_Z (2 ^ 127)) = true
  ∧ Discriminator.forward (discriminator 4 0) [[of_Z (2 ^ 127)]] = Ok [[S754_nan]]
  ∧ check_input_range [[S754_nan]] = Err RuntimeError_input_range.
Proof. vm_compute. done. Qed.
End ConcreteFloat32.

(* ------------------------------------------------------------------ *)
(** ** Further properties of the networks, of [fit] and of
    [decision_function] *)

Section Networks.
Context `{!Scalar} `{!Rng}.

Lemma Generator_forward_err G d x b c :
  Generator.shape G = Generator_dims d -> 0 < d ->
  rect x b c -> 0 < b -> c ≠ d ->
  Generator.forward G x = Err (RuntimeError_mat_shapes c d).
Proof.
  intros [= H1 H2 H3 H4] Hd Hx Hb Hc. unfold Generator.forward.
  assert (in_features (Generator.layer1 G) = d) as Hin.
  { apply (dims_in_features _ d d); [by unfold Linear_shape, dims; f_equal|done]. }
  rewrite (Linear_forward_err _ x b c); [by rewrite Hin|done|done|by rewrite Hin].
Qed.

(** X1.  [Generator.forward], on a generator with the layer shapes
    [Generator(d)] is built with, maps a batch of [b] rows of [d] entries to
    a batch of the same shape, and raises the matrix-shape error on a
    non-empty batch whose rows have another length. *)
Theorem Generator_forward_shape G d g :
  Generator.shape G = Generator.shape (Generator.__init__ d g).1 -> 0 < d ->
  (forall x b, rect x b d ->
     exists y, Generator.forward G x = Ok y ∧ rect y b d)
  ∧ (forall x b c, rect x b c -> 0 < b -> c ≠ d ->
       Generator.forward G x = Err (RuntimeError_mat_shapes c d)).
Proof.
  intros HG Hd. rewrite Generator_init_shape in HG. split.
  - intros x b Hx. by apply Generator_forward_dims.
  - intros x b c Hx Hb Hc. by apply (Generator_forward_err G d x b c).
Qed.

(** X2.  [Discriminator.forward], on a discriminator with the layer
    shapes [Discriminator(d, n)] is built with, maps a batch of [b] rows of
    [d] entries to [b] rows of one entry, and raises the matrix-shape error
    on a non-empty batch whose rows have another length. *)
Theorem Discriminator_forward_shape D d n g :
  Discriminator.shape D = Discriminator.shape (Discriminator.__init__ d n g).1 ->
  0 < n ->
  (forall x b, rect x b d ->
     exists y, Discriminator.forward D x = Ok y ∧ rect y b 1)
  ∧ (forall x b c, rect x b c -> 0 < b -> c ≠ d ->
       Discriminator.forward D x = Err (RuntimeError_mat_shapes c d)).
Proof.
  intros HD Hn. rewrite Discriminator_init_shape in HD.
  pose proof (ceil_sqrt_pos n Hn) as Hh. split.
  - intros x b Hx. by apply (Discriminator_forward_dims D d (ceil_sqrt n)).
  - intros x b c Hx Hb Hc.
    by apply (Discriminator_forward_err D d (ceil_sqrt n) x b c).
Qed.

(** X3.  For [n <= 2^52] the hidden width of [Discriminator(d, n)] is
    the least [h] with [h * h >= n]: the square root taken in binary64 is
    exact enough there.  The first layer is [h x d] with [h] biases, the
    second is [1 x h] with one bias. *)
Theorem Discriminator_hidden_width d n g :
  (Z.of_nat n <= 2 ^ 52)%Z ->
  let D := (Discriminator.__init__ d n g).1 in
  let h := length (weight (Discriminator.layer1 D)) in
  n <= h * h ∧ (forall h', n <= h' * h' -> h <= h')
  ∧ rect (weight (Discriminator.layer1 D)) h d
  ∧ length (bias (Discriminator.layer1 D)) = h
  ∧ rect (weight (Discriminator.layer2 D)) 1 h
  ∧ length (bias (Discriminator.layer2 D)) = 1.
Proof.
  intros Hn D h. pose proof (Discriminator_init_shape d n g) as HD. fold D in HD.
  injection HD as Hw1 Hb1 Hw2 Hb2.
  assert (h = ceil_sqrt n) as Hh.
  { unfold h. apply (f_equal length) in Hw1.
    unfold row_lengths in Hw1. by rewrite length_map, repeat_length in Hw1. }
  destruct (ceil_sqrt_least n Hn) as [Hlo Hleast]. rewrite Hh.
  split; [done|]. split; [done|].
  split; [by apply rect_row_lengths|]. split; [done|].
  split; [by apply (rect_row_lengths _ 1 (ceil_sqrt n))|done].
Qed.

Lemma eye_lookup (w : matrix) i j r v :
  w !! i = Some r -> r !! j = Some v ->
  (eye_ w !! i) ≫= (.!! j) = Some (if i =? j then one else zero).
Proof.
  intros Hr Hv. unfold eye_. rewrite list_lookup_imap, Hr. simpl.
  by rewrite list_lookup_imap, Hv.
Qed.

(** X4.  Both weight matrices of [Generator(d)] are the identity: entry
    [(i, j)] is [1] on the diagonal and [0] elsewhere. *)
Theorem Generator_init_identity d g i j :
  i < d -> j < d ->
  let G := (Generator.__init__ d g).1 in
  (weight (Generator.layer1 G) !! i) ≫= (.!! j) = Some (if i =? j then one else zero)
  ∧ (weight (Generator.layer2 G) !! i) ≫= (.!! j) = Some (if i =? j then one else zero).
Proof.
  intros Hi Hj G.
  destruct (Generator_init_weights d g) as (w1 & w2 & Hw1 & Hs1 & Hw2 & Hs2).
  fold G in Hw1, Hw2. rewrite Hw1, Hw2.
  assert (forall w : matrix, row_lengths w = repeat d d ->
            exists r v, w !! i = Some r ∧ r !! j = Some v) as Hlook.
  { intros w Hw. apply rect_row_lengths in Hw as [Hlen Hrows].
    destruct (lookup_lt_is_Some_2 w i) as [r Hr]; [lia|].
    rewrite Forall_forall in Hrows.
    assert (length r = d) as Hrl by (apply Hrows; by eapply list_elem_of_lookup_2).
    destruct (lookup_lt_is_Some_2 r j) as [v Hv]; [lia|]. by exists r, v. }
  destruct (Hlook w1 Hs1) as (r1 & v1 & Hr1 & Hv1).
  destruct (Hlook w2 Hs2) as (r2 & v2 & Hr2 & Hv2).
  split; eapply eye_lookup; eauto.
Qed.
End Networks.

Section FitExtras.
Context `{!Scalar} `{!Rng} `{!Optim}.

(** X5.  A [fit] that raises after the validation of its input leaves
    the detector half-updated.  After a [fit] on [X] that returned and a
    [fit] on a valid [X'] with another feature count that raised,
    [decision_scores_] still holds the scores of [X], one per row of [X],
    while [discriminator] is the one built for [X']: [decision_function] on
    [X] raises the matrix-shape error. *)
Theorem fit_raised_half_updated self X g X' g' e :
  SO_GAAL.outcome (SO_GAAL.fit self X g) = Ok tt ->
  let self1 := SO_GAAL.self_after (SO_GAAL.fit self X g) in
  check_array X' = Ok X' -> (size X').2 ≠ (size X).2 ->
  SO_GAAL.outcome (SO_GAAL.fit self1 X' g') = Err e ->
  let self2 := SO_GAAL.self_after (SO_GAAL.fit self1 X' g') in
  (exists scores,
     SO_GAAL.decision_scores_ self1 = Some scores
     ∧ SO_GAAL.decision_scores_ self2 = Some scores
     ∧ length scores = length X)
  ∧ SO_GAAL.decision_function self2 X
    = Err (RuntimeError_mat_shapes (size X).2 (size X').2).
Proof.
  intros Hok self1 HX' Hne Herr self2.
  destruct (fit_completed _ _ _ Hok) as (HX & f & out & E & Eout & Hself & _).
  destruct (check_array_ok _ _ HX) as (_ & Hn0 & _ & Hrect).
  destruct (check_array_ok _ _ HX') as (_ & Hn' & _).
  destruct (decision_scores_with_scores (SO_GAAL.with_frame self f) (ravel out))
    as (Hsc & _).
  pose proof (initial_frame_wf self (size X).2 (size X).1 g) as Hw0.
  pose proof (training_loop_frame self X _ _ f (Ok tt) (ceil_sqrt (size X).1)
                E Hw0) as [HD _].
  pose proof (Discriminator_forward_rows _ _ _ _ _ HD Eout) as Hout.
  destruct (SO_GAAL.training_loop self1 X' (SO_GAAL.stop_epochs self1 * 3)
              (SO_GAAL.initial_frame self1 (size X').2 (size X').1 g'))
    as [f' r'] eqn:E'.
  pose proof (initial_frame_wf self1 (size X').2 (size X').1 g') as Hw0'.
  pose proof (training_loop_frame self1 X' _ _ f' r' (ceil_sqrt (size X').1)
                E' Hw0') as [HD' _].
  assert (self2 = SO_GAAL.with_frame self1 f') as Hself2.
  { unfold self2. rewrite (fit_unfold self1 X' g' f' r' HX' E').
    fold self1 in Herr. rewrite (fit_unfold self1 X' g' f' r' HX' E') in Herr.
    destruct (rbind r' _) as [out'|e']; simpl in *; [done|done]. }
  split.
  - exists (ravel out). unfold self1 at 1. rewrite Hself at 1.
    split; [done|]. rewrite Hself2. simpl. unfold self1. rewrite Hself.
    split; [done|].
    rewrite (rect_ravel _ _ _ Hout). unfold torch_tensor. rewrite length_map. lia.
  - rewrite Hself2. unfold SO_GAAL.decision_function. simpl. rewrite HX. simpl.
    rewrite (Discriminator_forward_err _ _ _ (torch_tensor X) (length X)
               (size X).2 HD'); [done|by apply ceil_sqrt_pos| |done|congruence].
    by apply rect_map.
Qed.

(** X6.  On a valid input, [fit] returns, or raises the range error or
    the target-size error of [BCELoss], and nothing else.  It can return
    only when there is no epoch ([stop_epochs = 0]) or all batches have the
    same size (at most 500 samples, or a multiple of 500), and it can raise
    the target-size error only otherwise.  In an arithmetic without NaN it
    does not raise the range error, so that it returns exactly in the first
    case. *)
Theorem fit_outcome self X g :
  check_array X = Ok X ->
  let n := length X in
  let uniform := SO_GAAL.stop_epochs self = 0 ∨ n <= 500 ∨ n mod 500 = 0 in
  let r := SO_GAAL.outcome (SO_GAAL.fit self X g) in
  (uniform -> r = Ok tt ∨ r = Err RuntimeError_input_range)
  ∧ (¬ uniform ->
     r = Err RuntimeError_input_range
     ∨ r = Err (ValueError_target_size (n mod 500, 1) (500, 1)))
  ∧ (sigmoid_in_unit -> r ≠ Err RuntimeError_input_range).
Proof.
  intros HX n uniform r. split; [|split].
  - intros Hu. by apply fit_completes.
  - intros Hnu. unfold uniform in Hnu.
    destruct (SO_GAAL.training_loop self X (SO_GAAL.stop_epochs self * 3)
                (SO_GAAL.initial_frame self (size X).2 (size X).1 g))
      as [f r'] eqn:E.
    destruct (training_loop_stale self X g f r' HX) as [_ Hr];
      try (fold n; lia); [exact E|].
    unfold r. rewrite (fit_unfold self X g _ _ HX E).
    destruct Hr as [-> | (-> & _)]; [by left|by right].
  - intros Hs. by apply fit_in_unit.
Qed.
End FitExtras.

Section Counts.
Context `{!Scalar} `{!Rng} `{!Optim}.

Lemma count_calls_app p cs1 cs2 :
  count_calls p (cs1 ++ cs2) = count_calls p cs1 + count_calls p cs2.
Proof. induction cs1 as [|c cs1 IH]; simpl; [done|]. rewrite IH. lia. Qed.

Lemma count_calls_repeat p cs nb :
  count_calls p (concat (repeat cs nb)) = nb * count_calls p cs.
Proof.
  induction nb as [|nb IH]; simpl; [done|]. rewrite count_calls_app, IH. lia.
Qed.

Lemma count_expected_calls se epochs nb k :
  count_calls is_print (expected_calls se epochs nb k) = k
  ∧ count_calls is_d_step (expected_calls se epochs nb k) = k * nb
  ∧ count_calls is_g_step (expected_calls se epochs nb k) = min k (se + 1) * nb.
Proof.
  unfold expected_calls. induction k as [|k (IHp & IHd & IHg)]; [done|].
  rewrite seq_S, flat_map_app, !count_calls_app, IHp, IHd, IHg. simpl.
  rewrite app_nil_r, !count_calls_repeat. unfold batch_calls, stop_in_epoch.
  destruct (Nat.leb_spec k se); simpl;
    [rewrite (Nat.min_l k), (Nat.min_l (S k)) by lia
    |rewrite (Nat.min_r k), (Nat.min_r (S k)) by lia];
    repeat split; nia.
Qed.

(** X7.  A [fit] that returns has printed [3 * stop_epochs] epoch
    lines, stepped the discriminator once per batch of every epoch, and
    stepped the generator once per batch of the first
    [min (3 * stop_epochs) (stop_epochs + 1)] epochs. *)
Theorem fit_call_counts self X g :
  SO_GAAL.outcome (SO_GAAL.fit self X g) = Ok tt ->
  let se := SO_GAAL.stop_epochs self in
  let nb := ceil_div (length X) (min 500 (length X)) in
  let cs := SO_GAAL.calls (SO_GAAL.fit self X g) in
  count_calls is_print cs = 3 * se
  ∧ count_calls is_d_step cs = 3 * se * nb
  ∧ count_calls is_g_step cs = min (3 * se) (se + 1) * nb.
Proof.
  intros Hok se nb cs.
  destruct (fit_completed _ _ _ Hok) as (HX & f & out & E & _ & _ & Hcs).
  destruct (check_array_ok _ _ HX) as (_ & Hn0 & _).
  destruct (initial_frame_start self (size X).2 (size X).1 g) as (Hs0 & Hc0 & _).
  destruct (training_loop_done _ _ _ _ _ Hn0 Hs0 E) as (Hc & _).
  cbv zeta in Hc. rewrite Hc0 in Hc. simpl in Hc.
  unfold cs. rewrite Hcs, Hc. fold se nb.
  destruct (count_expected_calls se (se * 3) nb (se * 3)) as (-> & -> & ->).
  replace (se * 3) with (3 * se) by lia. done.
Qed.

Lemma training_loop_prefix self X g k K f :
  SO_GAAL.training_loop self X K
    (SO_GAAL.initial_frame self (size X).2 (size X).1 g) = (f, Ok tt) ->
  k <= K ->
  exists f1,
    SO_GAAL.training_loop self X k
      (SO_GAAL.initial_frame self (size X).2 (size X).1 g) = (f1, Ok tt).
Proof.
  intros E Hk.
  destruct (SO_GAAL.training_loop self X k _) as [f1 [[]|e]] eqn:E1; [by eexists|].
  rewrite (training_loop_err self X g k K f1 e E1 Hk) in E. done.
Qed.

Lemma generator_after_stop self X g k K f1 f2 :
  let f0 := SO_GAAL.initial_frame self (size X).2 (size X).1 g in
  check_array X = Ok X ->
  SO_GAAL.training_loop self X k f0 = (f1, Ok tt) ->
  SO_GAAL.training_loop self X K f0 = (f2, Ok tt) ->
  SO_GAAL.stop_epochs self < k -> k <= K ->
  Frame.generator f2 = Frame.generator f1
  ∧ Frame.optimizer_g f2 = Frame.optimizer_g f1.
Proof.
  intros f0 HX E1 E2 Hk HK. revert f2 E2.
  destruct (check_array_ok _ _ HX) as (_ & Hn0 & _).
  destruct (initial_frame_start self (size X).2 (size X).1 g) as (Hs0 & _).
  induction HK as [|K HK IH]; intros f2 E2.
  - rewrite E1 in E2. by injection E2 as <-.
  - destruct (training_loop_prefix self X g K (S K) f2 E2) as [f E]; [lia|].
    fold f0 in E. destruct (IH f E) as [<- <-].
    rewrite training_loop_S in E2. fold f0 in E2. rewrite E in E2.
    destruct (training_loop_done _ _ _ _ _ Hn0 Hs0 E) as (_ & _ & _ & Hs).
    cbv zeta in Hs. unfold stop_in_epoch in Hs.
    destruct (Nat.leb_spec K (SO_GAAL.stop_epochs self)); [lia|].
    apply (epoch_frame _ _ _ 0) in E2 as [_ Hfz].
    destruct Hfz as (_ & -> & -> & _); [by rewrite Hs|done].
Qed.

(** X8.  With [stop_epochs >= 1], the generator a completed [fit]
    leaves in [self.generator] is the generator as it was after the first
    [stop_epochs + 1] epochs. *)
Theorem fit_generator_final self X g :
  SO_GAAL.outcome (SO_GAAL.fit self X g) = Ok tt ->
  1 <= SO_GAAL.stop_epochs self ->
  exists f1,
    SO_GAAL.training_loop self X (SO_GAAL.stop_epochs self + 1)
      (SO_GAAL.initial_frame self (size X).2 (size X).1 g) = (f1, Ok tt)
    ∧ SO_GAAL.generator (SO_GAAL.self_after (SO_GAAL.fit self X g))
      = Some (Frame.generator f1).
Proof.
  intros Hok Hse.
  destruct (fit_completed _ _ _ Hok) as (HX & f & out & E & _ & -> & _).
  destruct (training_loop_prefix self X g (SO_GAAL.stop_epochs self + 1) _ f E)
    as [f1 E1]; [lia|].
  exists f1. split; [done|].
  destruct (generator_after_stop self X g _ _ f1 f HX E1 E) as [<- _]; [lia|lia|].
  unfold SO_GAAL.with_scores. by destruct (set_threshold_and_labels _ _).
Qed.

(** X10.  After a [fit] that returned, [decision_function] on any valid
    input with the feature count of the training data returns one score per
    row. *)
Theorem decision_function_new_data self X g X' :
  SO_GAAL.outcome (SO_GAAL.fit self X g) = Ok tt ->
  check_array X' = Ok X' -> (size X').2 = (size X).2 ->
  exists scores,
    SO_GAAL.decision_function (SO_GAAL.self_after (SO_GAAL.fit self X g)) X'
    = Ok scores
    ∧ length scores = length X'.
Proof.
  intros Hok HX' Heq.
  destruct (fit_completed _ _ _ Hok) as (HX & f & out & E & Eout & -> & _).
  destruct (check_array_ok _ _ HX) as (_ & Hn0 & _).
  destruct (check_array_ok _ _ HX') as (_ & Hn' & _ & Hrect').
  destruct (decision_scores_with_scores (SO_GAAL.with_frame self f) (ravel out))
    as (_ & HD & _).
  pose proof (initial_frame_wf self (size X).2 (size X).1 g) as Hw0.
  pose proof (training_loop_frame self X _ _ f (Ok tt) (ceil_sqrt (size X).1)
                E Hw0) as [HDs _].
  rewrite Heq in Hrect'.
  destruct (Discriminator_forward_dims (Frame.discriminator f) (size X).2
              (ceil_sqrt (size X).1) (torch_tensor X') (length X') HDs)
    as (out' & Eout' & Hout').
  { by apply ceil_sqrt_pos. }
  { by apply rect_map. }
  exists (ravel out'). unfold SO_GAAL.decision_function. rewrite HD. simpl.
  rewrite HX'. simpl. rewrite Eout'. simpl. split; [done|].
  rewrite (rect_ravel _ _ _ Hout'). lia.
Qed.

(** X11.  With [stop] set and labels of the batch's size left in
    [trick_labels], the sizes fit: a batch completes, or [BCELoss] raises its
    range error, and nothing else.  In either case the generator, its
    optimiser and [trick_labels] are as they were; a batch that completes
    has stepped the discriminator only and has appended one entry to each
    loss sequence; in an arithmetic without NaN the batch completes. *)
Theorem train_batch_frozen_done d h b f L :
  wf_frame d h f -> 0 < d -> 0 < h -> batch_ok d b ->
  Frame.stop f ≠ 0 -> Frame.trick_labels f = Some L -> size L = (length b, 1) ->
  exists f' r,
    train_batch d b f = (f', r)
    ∧ (r = Ok tt ∨ r = Err RuntimeError_input_range)
    ∧ Frame.generator f' = Frame.generator f
    ∧ Frame.optimizer_g f' = Frame.optimizer_g f
    ∧ Frame.trick_labels f' = Some L
    ∧ (r = Ok tt ->
       Frame.calls f' = Frame.calls f ++ [optimizer_d_step]
       ∧ hist_len "discriminator_loss" (Frame.train_history f')
         = S (hist_len "discriminator_loss" (Frame.train_history f))
       ∧ hist_len "generator_loss" (Frame.train_history f')
         = S (hist_len "generator_loss" (Frame.train_history f)))
    ∧ (sigmoid_in_unit -> r = Ok tt).
Proof.
  intros Hw Hd Hh [Hb Hrows] Hs HL Hsize.
  destruct (train_batch d b f) as [f' r] eqn:E. exists f', r.
  assert (ok_or_range r) as Hr.
  { eapply (train_batch_ok d h b f f' r); try done. right. by exists L. }
  split; [done|]. split; [exact Hr|].
  destruct (train_batch_frozen _ _ _ _ _ E Hs) as (-> & -> & ->).
  split; [done|]. split; [done|]. split; [done|]. split.
  - intros ->. rewrite (train_batch_calls _ _ _ _ E). unfold batch_calls.
    apply Nat.eqb_neq in Hs as ->.
    destruct (train_batch_history _ _ _ _ E) as [-> ->]. done.
  - intros Hsafe. destruct Hr as [-> | ->]; [done|].
    by destruct (train_batch_in_unit _ _ _ _ _ Hsafe E).
Qed.

Lemma batch_sampler_concat {A} bs (acc l : list A) :
  concat (batch_sampler bs acc l) = acc ++ l.
Proof.
  revert acc. induction l as [|x l IH]; intros acc; simpl.
  - destruct acc; simpl; by rewrite ?app_nil_r.
  - destruct (_ =? _); simpl; rewrite IH; by rewrite <- ?app_assoc.
Qed.

(** X12.  One pass over the data loader cuts a permutation of the data
    set into batches: no row is lost or repeated, no batch is empty or has
    more than [batch_size] rows, and there are [ceil(n / batch_size)]
    batches. *)
Theorem DataLoader_iter_partition dataset bsz g :
  0 < bsz ->
  let batches := (DataLoader_iter dataset bsz g).1 in
  concat batches ≡ₚ dataset
  ∧ Forall (fun b => 0 < length b <= bsz) batches
  ∧ length batches = ceil_div (length dataset) bsz.
Proof.
  intros Hb batches. split; [|split].
  - unfold batches, DataLoader_iter.
    pose proof (shuffle_perm g dataset) as Hp.
    destruct (shuffle g dataset) as [rows g1]. simpl in *.
    by rewrite batch_sampler_concat.
  - pose proof (DataLoader_iter_sizes dataset bsz g Hb) as Hsz. fold batches in Hsz.
    assert (Forall (fun s => 0 < s <= bsz) (batch_sizes (length dataset) bsz)) as Hall.
    { unfold batch_sizes. apply Forall_app. split.
      - apply Forall_forall. intros x Hx.
        apply list_elem_of_In, repeat_spec in Hx. lia.
      - pose proof (Nat.mod_upper_bound (length dataset) bsz ltac:(lia)).
        destruct (Nat.eqb_spec (length dataset mod bsz) 0);
          constructor; [lia|constructor]. }
    rewrite <- Hsz in Hall. by apply Forall_map in Hall.
  - by apply DataLoader_iter_length.
Qed.
End Counts.

Section Lockstep.
Context `{!Scalar} `{!Rng} `{!Optim}.

Ltac unfold_batch :=
  unfold train_batch, discriminate_generated, read_trick_labels, step_d, step_g,
    history_append, record, rand, criterion, bind, gets, modify, lift, ret,
    Frame.set_discriminator, Frame.set_generator, Frame.set_train_history,
    Frame.set_optimizer_d, Frame.set_optimizer_g, Frame.set_trick_labels,
    Frame.set_torch_rng, Frame.set_calls.

Ltac run_all :=
  repeat match goal with
  | E : context [match ?x with _ => _ end] |- _ =>
      let Hx := fresh "E" in destruct x eqn:Hx; simpl in E
  end.

Lemma train_batch_lockstep d b f f' r :
  train_batch d b f = (f', r) -> balanced f -> lockstep f' r.
Proof.
  unfold_batch. unfold lockstep, balanced, ahead_by_one. intros E Hbal. simpl in E.
  run_all; simplify_eq; simpl;
    rewrite ?hist_len_append_eq;
    rewrite ?(hist_len_append_ne "generator_loss" "discriminator_loss") by discriminate;
    rewrite ?(hist_len_append_ne "discriminator_loss" "generator_loss") by discriminate;
    rewrite ?hist_len_append_eq; lia.
Qed.

Lemma batches_lockstep d bs f f' r :
  for_each (train_batch d) bs f = (f', r) -> balanced f -> lockstep f' r.
Proof.
  revert f. induction bs as [|b bs IH]; intros f; simpl.
  - intros [= <- <-]. done.
  - unfold bind. destruct (train_batch d b f) as [f1 r1] eqn:E1.
    intros E Hbal. pose proof (train_batch_lockstep _ _ _ _ _ E1 Hbal) as Hl1.
    destruct r1 as [[]|e]; [by eapply IH|]. by injection E as <- <-.
Qed.

Lemma epoch_lockstep ds bsz d epochs se e f f' r :
  train_epoch ds bsz d epochs se e f = (f', r) -> balanced f -> lockstep f' r.
Proof.
  unfold train_epoch, iter_dataloader, record, bind, modify, ret,
    Frame.set_calls, Frame.set_torch_rng, Frame.set_stop. simpl.
  destruct (DataLoader_iter ds bsz (Frame.torch_rng f)) as [bs g1]. simpl.
  match goal with |- context [for_each _ bs ?f0] =>
    destruct (for_each (train_batch d) bs f0) as [f1 r1] eqn:E1 end.
  intros E Hbal. apply batches_lockstep in E1; [|done].
  destruct r1 as [[]|err].
  - destruct (se <? e + 1); injection E as <- <-; done.
  - by injection E as <- <-.
Qed.

Lemma training_loop_lockstep self X k f0 f r :
  SO_GAAL.training_loop self X k f0 = (f, r) -> balanced f0 -> lockstep f r.
Proof.
  revert f r. induction k as [|k IH]; intros f r.
  - intros [= <- <-]. done.
  - rewrite training_loop_S.
    destruct (SO_GAAL.training_loop self X k f0) as [f1 [[]|e]] eqn:E1.
    + intros E Hbal. eapply epoch_lockstep; [exact E|]. by apply (IH f1 (Ok tt)).
    + intros [= <- <-] Hbal. by apply (IH f1 (Err e)).
Qed.

(** X9.  After [fit] on a valid input, whether it returned or raised,
    the generator-loss sequence is never longer than the discriminator-loss
    sequence, and shorter by at most one entry. *)
Theorem fit_history_lockstep self X g :
  check_array X = Ok X ->
  exists h,
    SO_GAAL.train_history (SO_GAAL.self_after (SO_GAAL.fit self X g)) = Some h
    ∧ hist_len "generator_loss" h <= hist_len "discriminator_loss" h
    ∧ hist_len "discriminator_loss" h <= S (hist_len "generator_loss" h).
Proof.
  intros HX.
  destruct (SO_GAAL.training_loop self X (SO_GAAL.stop_epochs self * 3)
              (SO_GAAL.initial_frame self (size X).2 (size X).1 g))
    as [f r] eqn:E.
  destruct (initial_frame_start self (size X).2 (size X).1 g) as (_ & _ & Hh0 & _).
  assert (lockstep f r) as Hl.
  { eapply training_loop_lockstep; [exact E|].
    unfold balanced. by rewrite Hh0, !hist_len_empty. }
  exists (Frame.train_history f). rewrite (fit_unfold self X g f r HX E).
  destruct r as [[]|e]; simpl.
  - destruct (Discriminator.forward _ _); simpl.
    + destruct (decision_scores_with_scores (SO_GAAL.with_frame self f) (ravel a))
        as (_ & _ & ->). simpl. unfold lockstep, balanced in Hl. split; [done|lia].
    + unfold lockstep, balanced in Hl. split; [done|lia].
  - unfold lockstep, ahead_by_one in Hl. split; [done|lia].
Qed.

(** X14.  With [stop] at 0 the sizes fit whatever the size of the
    batch: a batch completes, or [BCELoss] raises its range error, and
    nothing else.  A batch that completes has stepped the discriminator,
    then the generator, has left labels of its own size in [trick_labels],
    and has appended one entry to each loss sequence; in an arithmetic
    without NaN the batch completes. *)
Theorem train_batch_growing_done d h b f :
  wf_frame d h f -> 0 < d -> 0 < h -> batch_ok d b -> Frame.stop f = 0 ->
  exists f' r,
    train_batch d b f = (f', r)
    ∧ (r = Ok tt ∨ r = Err RuntimeError_input_range)
    ∧ (r = Ok tt ->
       Frame.trick_labels f' = Some (torch_ones (length b) 1)
       ∧ Frame.calls f' = Frame.calls f ++ [optimizer_d_step; optimizer_g_step]
       ∧ hist_len "discriminator_loss" (Frame.train_history f')
         = S (hist_len "discriminator_loss" (Frame.train_history f))
       ∧ hist_len "generator_loss" (Frame.train_history f')
         = S (hist_len "generator_loss" (Frame.train_history f)))
    ∧ (sigmoid_in_unit -> r = Ok tt).
Proof.
  intros Hw Hd Hh [Hb Hrows] Hs.
  destruct (train_batch d b f) as [f' r] eqn:E. exists f', r.
  assert (ok_or_range r) as Hr.
  { by eapply (train_batch_ok d h b f f' r); try done; left. }
  split; [done|]. split; [exact Hr|]. split.
  - intros ->.
    rewrite (train_batch_growing_labels _ _ _ _ E Hs), (train_batch_calls _ _ _ _ E).
    unfold batch_calls. rewrite Hs. simpl.
    destruct (train_batch_history _ _ _ _ E) as [-> ->]. done.
  - intros Hsafe. destruct Hr as [-> | ->]; [done|].
    by destruct (train_batch_in_unit _ _ _ _ _ Hsafe E).
Qed.
End Lockstep.

(* ------------------------------------------------------------------ *)
(** ** The further properties on concrete inputs *)

Section ConcreteExtras.
Import Sample.

(** X1, on the generator of latent size 2. *)
Lemma Generator_forward_shape_witness :
  0 < 2
  ∧ (exists y, Generator.forward (Generator.__init__ 2 no_draws).1 (torch_zeros 3 2) = Ok y
               ∧ rect y 3 2)
  ∧ Generator.forward (Generator.__init__ 2 no_draws).1 (torch_zeros 3 5)
    = Err (RuntimeError_mat_shapes 5 2).
Proof.
  assert (0 < 2) as Hd by lia.
  destruct (Generator_forward_shape (Generator.__init__ 2 no_draws).1 2 no_draws
              eq_refl Hd) as [Hok Herr].
  split; [exact Hd|]. split.
  - exact (Hok (torch_zeros 3 2) 3 (rect_zeros 3 2)).
  - exact (Herr (torch_zeros 3 5) 3 5 (rect_zeros 3 5) ltac:(lia) ltac:(lia)).
Defined.

(** X2, on the discriminator built for two samples of one feature. *)
Lemma Discriminator_forward_shape_witness :
  0 < 2
  ∧ (exists y, Discriminator.forward (Discriminator.__init__ 1 2 no_draws).1 two_samples
               = Ok y ∧ rect y 2 1)
  ∧ Discriminator.forward (Discriminator.__init__ 1 2 no_draws).1 (torch_zeros 3 5)
    = Err (RuntimeError_mat_shapes 5 1).
Proof.
  assert (0 < 2) as Hn by lia.
  destruct (Discriminator_forward_shape (Discriminator.__init__ 1 2 no_draws).1
              1 2 no_draws eq_refl Hn) as [Hok Herr].
  split; [exact Hn|]. split.
  - apply (Hok two_samples 2). split; [reflexivity|repeat constructor].
  - exact (Herr (torch_zeros 3 5) 3 5 (rect_zeros 3 5) ltac:(lia) ltac:(lia)).
Defined.

(** X4, off the diagonal of a generator of latent size 3. *)
Lemma Generator_init_identity_witness :
  0 < 3 ∧ 2 < 3
  ∧ (weight (Generator.layer1 (Generator.__init__ 3 no_draws).1) !! 0) ≫= (.!! 2)
    = Some zero.
Proof.
  assert (0 < 3) as Hi by lia. assert (2 < 3) as Hj by lia.
  split; [exact Hi|]. split; [exact Hj|].
  exact (proj1 (Generator_init_identity 3 no_draws 0 2 Hi Hj)).
Defined.

(** X3, on ten samples: the width is 4. *)
Lemma Discriminator_hidden_width_witness :
  (Z.of_nat 10 <= 2 ^ 52)%Z
  ∧ length (weight (Discriminator.layer1 (Discriminator.__init__ 1 10 no_draws).1)) = 4.
Proof.
  assert (Z.of_nat 10 <= 2 ^ 52)%Z as Hn by (vm_compute; discriminate).
  split; [exact Hn|].
  destruct (Discriminator_hidden_width 1 10 no_draws Hn) as (Hlo & Hleast & _).
  cbv zeta in Hlo, Hleast. specialize (Hleast 4 ltac:(lia)).
  generalize dependent
    (length (weight (Discriminator.layer1 (Discriminator.__init__ 1 10 no_draws).1))).
  intros h Hlo Hleast. nia.
Defined.

(** X5: a [fit] on two samples of two features that returns, then a
    [fit] on 501 samples of one feature that raises. *)
Lemma fit_raised_half_updated_witness :
  SO_GAAL.outcome (SO_GAAL.fit (detector 1) [[0%Q; 0%Q]; [10%Q; 0%Q]] no_draws) = Ok tt
  ∧ check_array (zeros_data 501) = Ok (zeros_data 501)
  ∧ SO_GAAL.outcome
      (SO_GAAL.fit
         (SO_GAAL.self_after (SO_GAAL.fit (detector 1) [[0%Q; 0%Q]; [10%Q; 0%Q]] no_draws))
         (zeros_data 501) no_draws)
    = Err (ValueError_target_size (1, 1) (500, 1))
  ∧ SO_GAAL.decision_function
      (SO_GAAL.self_after
         (SO_GAAL.fit
            (SO_GAAL.self_after
               (SO_GAAL.fit (detector 1) [[0%Q; 0%Q]; [10%Q; 0%Q]] no_draws))
            (zeros_data 501) no_draws))
      [[0%Q; 0%Q]; [10%Q; 0%Q]]
    = Err (RuntimeError_mat_shapes 2 1).
Proof.
  assert (SO_GAAL.outcome (SO_GAAL.fit (detector 1) [[0%Q; 0%Q]; [10%Q; 0%Q]] no_draws)
          = Ok tt) as Hok by (vm_compute; reflexivity).
  assert (check_array (zeros_data 501) = Ok (zeros_data 501)) as HX'
    by (vm_compute; reflexivity).
  assert (SO_GAAL.outcome
            (SO_GAAL.fit
               (SO_GAAL.self_after
                  (SO_GAAL.fit (detector 1) [[0%Q; 0%Q]; [10%Q; 0%Q]] no_draws))
               (zeros_data 501) no_draws)
          = Err (ValueError_target_size (1, 1) (500, 1))) as Herr
    by (vm_compute; reflexivity).
  assert ((size (zeros_data 501)).2 ≠ (size [[0%Q; 0%Q]; [10%Q; 0%Q]]).2) as Hne
    by (vm_compute; lia).
  split; [exact Hok|]. split; [exact HX'|]. split; [exact Herr|].
  exact (proj2 (fit_raised_half_updated (detector 1) [[0%Q; 0%Q]; [10%Q; 0%Q]] no_draws
                  (zeros_data 501) no_draws _ Hok HX' Hne Herr)).
Defined.

(** X6, on two samples: the rational instance has no NaN, and [fit]
    returns. *)
Lemma fit_outcome_witness :
  check_array two_samples = Ok two_samples
  ∧ SO_GAAL.outcome (SO_GAAL.fit (detector 2) two_samples no_draws) = Ok tt.
Proof.
  assert (check_array two_samples = Ok two_samples) as HX by reflexivity.
  split; [exact HX|].
  destruct (fit_outcome (detector 2) two_samples no_draws HX) as (Hu & _ & Hsafe).
  destruct Hu as [Hr|Hr]; [right; left; simpl; lia|exact Hr|].
  destruct (Hsafe Sample_sigmoid_in_unit Hr).
Defined.

(** X7, on two samples with [stop_epochs = 2]. *)
Lemma fit_call_counts_witness :
  SO_GAAL.outcome (SO_GAAL.fit (detector 2) two_samples no_draws) = Ok tt
  ∧ count_calls is_print (SO_GAAL.calls (SO_GAAL.fit (detector 2) two_samples no_draws))
    = 6
  ∧ count_calls is_d_step (SO_GAAL.calls (SO_GAAL.fit (detector 2) two_samples no_draws))
    = 6
  ∧ count_calls is_g_step (SO_GAAL.calls (SO_GAAL.fit (detector 2) two_samples no_draws))
    = 3.
Proof.
  assert (SO_GAAL.outcome (SO_GAAL.fit (detector 2) two_samples no_draws) = Ok tt)
    as Hok by (vm_compute; reflexivity).
  split; [exact Hok|].
  exact (fit_call_counts (detector 2) two_samples no_draws Hok).
Defined.

(** X8, on two samples with [stop_epochs = 2]. *)
Lemma fit_generator_final_witness :
  SO_GAAL.outcome (SO_GAAL.fit (detector 2) two_samples no_draws) = Ok tt
  ∧ 1 <= SO_GAAL.stop_epochs (detector 2)
  ∧ exists f1,
      SO_GAAL.training_loop (detector 2) two_samples 3 first_frame = (f1, Ok tt)
      ∧ SO_GAAL.generator
          (SO_GAAL.self_after (SO_GAAL.fit (detector 2) two_samples no_draws))
        = Some (Frame.generator f1).
Proof.
  assert (SO_GAAL.outcome (SO_GAAL.fit (detector 2) two_samples no_draws) = Ok tt)
    as Hok by (vm_compute; reflexivity).
  assert (1 <= SO_GAAL.stop_epochs (detector 2)) as Hse by (vm_compute; lia).
  split; [exact Hok|]. split; [exact Hse|].
  exact (fit_generator_final (detector 2) two_samples no_draws Hok Hse).
Defined.

(** X9, on the run of 501 samples that raises. *)
Lemma fit_history_lockstep_witness :
  check_array (zeros_data 501) = Ok (zeros_data 501)
  ∧ exists h,
      SO_GAAL.train_history
        (SO_GAAL.self_after (SO_GAAL.fit (detector 1) (zeros_data 501) no_draws))
        = Some h
      ∧ hist_len "generator_loss" h <= hist_len "discriminator_loss" h
      ∧ hist_len "discriminator_loss" h <= S (hist_len "generator_loss" h).
Proof.
  assert (check_array (zeros_data 501) = Ok (zeros_data 501)) as HX
    by (vm_compute; reflexivity).
  split; [exact HX|].
  exact (fit_history_lockstep (detector 1) (zeros_data 501) no_draws HX).
Defined.

(** X10, on three new samples. *)
Lemma decision_function_new_data_witness :
  SO_GAAL.outcome (SO_GAAL.fit (detector 2) two_samples no_draws) = Ok tt
  ∧ check_array (zeros_data 3) = Ok (zeros_data 3)
  ∧ (size (zeros_data 3)).2 = (size two_samples).2
  ∧ exists scores,
      SO_GAAL.decision_function
        (SO_GAAL.self_after (SO_GAAL.fit (detector 2) two_samples no_draws))
        (zeros_data 3) = Ok scores
      ∧ length scores = 3.
Proof.
  assert (SO_GAAL.outcome (SO_GAAL.fit (detector 2) two_samples no_draws) = Ok tt)
    as Hok by (vm_compute; reflexivity).
  assert (check_array (zeros_data 3) = Ok (zeros_data 3)) as HX by reflexivity.
  assert ((size (zeros_data 3)).2 = (size two_samples).2) as Heq by reflexivity.
  split; [exact Hok|]. split; [exact HX|]. split; [exact Heq|].
  exact (decision_function_new_data (detector 2) two_samples no_draws (zeros_data 3)
           Hok HX Heq).
Defined.

(** X11, on a frame with [stop] set and labels of two rows. *)
Lemma train_batch_frozen_done_witness :
  wf_frame 1 2 frozen_frame ∧ batch_ok 1 two_samples
  ∧ Frame.stop frozen_frame ≠ 0
  ∧ Frame.trick_labels frozen_frame = Some (torch_ones 2 1)
  ∧ exists f',
      train_batch 1 two_samples frozen_frame = (f', Ok tt)
      ∧ Frame.generator f' = Frame.generator frozen_frame
      ∧ Frame.calls f' = Frame.calls frozen_frame ++ [optimizer_d_step].
Proof.
  assert (wf_frame 1 2 frozen_frame) as Hw by (split; vm_compute; reflexivity).
  assert (batch_ok 1 two_samples) as Hb by (split; [simpl; lia|repeat constructor]).
  assert (Frame.stop frozen_frame ≠ 0) as Hs by (vm_compute; lia).
  assert (Frame.trick_labels frozen_frame = Some (torch_ones 2 1)) as HL
    by (vm_compute; reflexivity).
  split; [exact Hw|]. split; [exact Hb|]. split; [exact Hs|]. split; [exact HL|].
  destruct (train_batch_frozen_done 1 2 two_samples frozen_frame (torch_ones 2 1)
              Hw ltac:(lia) ltac:(lia) Hb Hs HL eq_refl)
    as (f' & r & E & _ & HG & _ & _ & Hdone & Hsafe).
  rewrite (Hsafe Sample_sigmoid_in_unit) in E.
  destruct (Hdone (Hsafe Sample_sigmoid_in_unit)) as (Hc & _).
  exists f'. split; [exact E|]. split; [exact HG|exact Hc].
Defined.

(** X14, on the first batch of a run. *)
Lemma train_batch_growing_done_witness :
  wf_frame 1 2 first_frame ∧ batch_ok 1 two_samples ∧ Frame.stop first_frame = 0
  ∧ exists f',
      train_batch 1 two_samples first_frame = (f', Ok tt)
      ∧ Frame.trick_labels f' = Some (torch_ones 2 1)
      ∧ Frame.calls f' = Frame.calls first_frame ++ [optimizer_d_step; optimizer_g_step].
Proof.
  assert (wf_frame 1 2 first_frame) as Hw by (split; vm_compute; reflexivity).
  assert (batch_ok 1 two_samples) as Hb by (split; [simpl; lia|repeat constructor]).
  assert (Frame.stop first_frame = 0) as Hs by (vm_compute; reflexivity).
  split; [exact Hw|]. split; [exact Hb|]. split; [exact Hs|].
  destruct (train_batch_growing_done 1 2 two_samples first_frame
              Hw ltac:(lia) ltac:(lia) Hb Hs)
    as (f' & r & E & _ & Hdone & Hsafe).
  rewrite (Hsafe Sample_sigmoid_in_unit) in E.
  destruct (Hdone (Hsafe Sample_sigmoid_in_unit)) as (HL & Hc & _).
  exists f'. split; [exact E|]. split; [exact HL|exact Hc].
Defined.

(** X12, on 501 samples in batches of 500. *)
Lemma DataLoader_iter_partition_witness :
  0 < 500
  ∧ concat (DataLoader_iter (zeros_data 501) 500 no_draws).1 ≡ₚ zeros_data 501
  ∧ length (DataLoader_iter (zeros_data 501) 500 no_draws).1 = 2.
Proof.
  assert (0 < 500) as Hb by lia.
  destruct (DataLoader_iter_partition (zeros_data 501) 500 no_draws Hb)
    as (Hp & _ & Hl).
  split; [exact Hb|]. split; [exact Hp|exact Hl].
Defined.

End ConcreteExtras.
